(** * deerpipe-qbot: the matchmaking and battle lifecycle

    A shallow embedding of the wagering game of [src/index.ts]: the commands
    对对碰匹配 (enqueue / pair) and 开始对对碰 (confirm start), the lobby
    timeout callback and [sendBattleLog].  The file follows the later
    revision of the plugin, the one that has the 注册 command (source lines
    401-870, [DEPOSIT = 2]).

    The handlers are [async] functions.  Each one is cut at its [await]s:
    a handler suspended at the [await] of source line N is a [Task]
    constructor named after that line and carrying the handler's live local
    variables, and [resume] runs the code from that [await] up to the next
    one.  A ledger or notifier call takes effect when it is issued; the
    handler then yields and anything else may run before it is resumed.
    Timers are armed and cleared explicitly and keep their delay; real time
    is abstracted: an armed timer may fire whenever no handler is running.
    A schedule says which command arrives, which timer fires and which
    suspended handler is resumed, in which order.

    Numbers: the stake and the ledger columns are integers ([Z]); the draws
    of [Math.random] are rationals supplied by a tape, and the win chance
    [0.5 + lvDifference * 0.05] is computed exactly.

    The account commands 注册, 炉管打卡, 查询积分 and 积分榜单 and the
    development-mode set-up come after the game; they read and write the
    ledger only and are given as they run from start to end. *)

From Stdlib Require Import ZArith QArith Qround Lqa Ascii.
From stdpp Require Import gmap strings list fin_maps pretty sorting.

Local Open Scope Z_scope.

(** ** Data model *)

Record UserData := mkUserData {
  userId : string;
  username : string;
  lastCheckIn : option string;
  points : Z;
  lv : Z;
  experience : Z;
  streak : Z
}.

(** [{ ...user, points: p }] *)
Definition withPoints (p : Z) (u : UserData) : UserData :=
  {| userId := userId u; username := username u; lastCheckIn := lastCheckIn u;
     points := p; lv := lv u; experience := experience u; streak := streak u |}.

(** A koishi session: the invoking player and the channel replies go to. *)
Record Session := mkSession {
  sessionUserId : string;
  sessionChannel : nat
}.

Record LobbyPlayer := mkLobbyPlayer {
  bet : Z;
  session : Session;
  timeoutId : nat
}.

Record PendingGame := mkPendingGame {
  player1Id : string;
  player2Id : string;
  player1Session : Session;
  player2Session : Session;
  player1Bet : Z;
  player2Bet : Z;
  winnerId : string
}.

(** [interface ActiveGame extends PendingGame] *)
Record ActiveGame := mkActiveGame {
  game : PendingGame;
  logCount : Z;
  intervalId : nat
}.

Definition DEPOSIT : Z := 2.
Definition LOBBY_TIMEOUT_MS : Z := 60 * 1000.
Definition BATTLE_LOG_INTERVAL_MS : Z := 2 * 1000.
Definition BATTLE_LOG_COUNT : Z := 5.

Definition WINNER_PHRASES : list string :=
  ["占据上风"; "猛烈攻击"; "步步紧逼"; "势如破竹"; "占据优势"; "压制对手"]%string.
Definition LOSER_PHRASES : list string :=
  ["节节败退"; "苦苦支撑"; "勉力抵挡"; "露出破绽"; "处于劣势"; "险象环生"]%string.

(** ** Messages

    One constructor per message text of the two commands and of
    [sendBattleLog]; [render] gives the text the source builds. *)

Inductive Message :=
| MsgNotRegistered
| MsgInvalidBet
| MsgInsufficient (totalCost stake have : Z)
| MsgAlreadyInGame
| MsgStaleOpponent
| MsgMatchedPlayer1 (opponentName : string)
| MsgMatchedPlayer2 (opponentName : string)
| MsgMatched
| MsgLobbyTimeout (totalCost current : Z)
| MsgEnteredLobby (stake current : Z)
| MsgNoPendingGame
| MsgBattleStart
| MsgBattleRunning
| MsgBattleLog (count : Z) (winnerLv : Z) (winnerName winnerPhrase : string)
               (loserLv : Z) (loserName loserPhrase : string)
| MsgWon (name : string) (gained current : Z)
| MsgLost (name : string) (lost current : Z).

Definition dquote : string := String (ascii_of_nat 34) EmptyString.

Definition num (z : Z) : string := pretty z.

Definition progress (count : Z) : string :=
  ("(" +:+ num count +:+ "/" +:+ num BATTLE_LOG_COUNT +:+ ")")%string.

Definition render (m : Message) : string :=
  match m with
  | MsgNotRegistered =>
      "你尚未注册牛子对对碰账号，请先使用“注册 <用户名>”命令进行注册。"
  | MsgInvalidBet =>
      "请输入有效的下注积分 (大于0的数字)。例如：对对碰匹配 -b 100"
  | MsgInsufficient totalCost stake have =>
      "积分不足！你需要 " +:+ num totalCost +:+ " 积分（" +:+ num stake +:+ "下注 + "
      +:+ num DEPOSIT +:+ "押金），你当前有 " +:+ num have +:+ " 积分。"
  | MsgAlreadyInGame => "你已经在匹配或游戏中了，请勿重复操作。"
  | MsgStaleOpponent => "匹配失败：对手数据异常，已退还你的积分。"
  | MsgMatchedPlayer1 opponentName =>
      "匹配成功！你将与 " +:+ opponentName +:+ " 对战。请在"
      +:+ num (LOBBY_TIMEOUT_MS / 1000) +:+ "秒内输入 " +:+ dquote +:+ "开始对对碰"
      +:+ dquote +:+ " 命令开始游戏。"
  | MsgMatchedPlayer2 opponentName =>
      "匹配成功！你将与 " +:+ opponentName +:+ " 对战。等待对方输入 " +:+ dquote
      +:+ "开始对对碰" +:+ dquote +:+ " 命令开始游戏。"
  | MsgMatched => "匹配成功，等待对方开始游戏。"
  | MsgLobbyTimeout totalCost current =>
      "60秒内未找到对手，你已退出匹配大厅。已退还 " +:+ num totalCost
      +:+ " 积分。当前积分：" +:+ num current
  | MsgEnteredLobby stake current =>
      "你已进入牛子对对碰匹配大厅，等待其他玩家加入（"
      +:+ num (LOBBY_TIMEOUT_MS / 1000) +:+ "秒内）。已扣除 " +:+ num stake
      +:+ " 积分和 " +:+ num DEPOSIT +:+ " 押金。当前积分：" +:+ num current
  | MsgNoPendingGame =>
      "你当前没有等待开始的牛子对对碰比赛，或者你不是发起者。"
  | MsgBattleStart => "牛子对对碰比赛开始！"
  | MsgBattleRunning => "游戏已开始，战况播报中..."
  | MsgBattleLog count winnerLv winnerName winnerPhrase loserLv loserName loserPhrase =>
      "战况播报 " +:+ progress count +:+ "：" +:+ num winnerLv +:+ "级 "
      +:+ winnerName +:+ " " +:+ winnerPhrase +:+ "，" +:+ num loserLv +:+ "级 "
      +:+ loserName +:+ " " +:+ loserPhrase +:+ "！"
  | MsgWon name gained current =>
      "恭喜你，" +:+ name +:+ "！你赢得了这场牛子对对碰！获得了对方的 "
      +:+ num gained +:+ " 积分，并返还了 " +:+ num DEPOSIT
      +:+ " 押金。你当前积分：" +:+ num current
  | MsgLost name lost current =>
      "很遗憾，" +:+ name +:+ "，你输掉了这场牛子对对碰！失去了 "
      +:+ num lost +:+ " 积分和 " +:+ num DEPOSIT +:+ " 押金。你当前积分："
      +:+ num current
  end%string.

(** What leaves the plugin: [session.send(text)], the string an action
    returns (the host delivers it to the invoking session), and an uncaught
    exception of a handler. *)
Inductive Event :=
| Sent (to : Session) (m : Message)
| Returned (to : Session) (m : Message)
| Threw.

(** ** Timers and the process state *)

(** The callbacks handed to [setTimeout] and [setInterval]: the closure of
    lines 709-716 with the variables it captures, the empty function of line
    737, and [() => sendBattleLog(activeGame)] of line 746. *)
Inductive Callback :=
| LobbyTimeout (session : Session) (user : UserData) (totalCost : Z)
| Placeholder
| BattleInterval (activeGame : nat).

(** An armed timer: its callback and its delay in milliseconds. *)
Definition Timer : Type := Callback * Z.

Record State := mkState {
  users : gmap string UserData;
  matchingLobby : list (string * LobbyPlayer);
  pendingGames : gmap string PendingGame;
  activeGames : gmap string nat;
  objects : gmap nat ActiveGame;
  nextObject : nat;
  timers : gmap nat Timer;
  nextTimer : nat;
  random : list Q;
  outbox : list Event
}.

(** Field updates of [State]. *)
Definition set_users (f : gmap string UserData → gmap string UserData) (st : State) : State :=
  mkState (f (users st)) (matchingLobby st) (pendingGames st) (activeGames st)
          (objects st) (nextObject st) (timers st) (nextTimer st) (random st) (outbox st).
Definition set_matchingLobby (f : list (string * LobbyPlayer) → list (string * LobbyPlayer))
    (st : State) : State :=
  mkState (users st) (f (matchingLobby st)) (pendingGames st) (activeGames st)
          (objects st) (nextObject st) (timers st) (nextTimer st) (random st) (outbox st).
Definition set_pendingGames (f : gmap string PendingGame → gmap string PendingGame)
    (st : State) : State :=
  mkState (users st) (matchingLobby st) (f (pendingGames st)) (activeGames st)
          (objects st) (nextObject st) (timers st) (nextTimer st) (random st) (outbox st).
Definition set_activeGames (f : gmap string nat → gmap string nat) (st : State) : State :=
  mkState (users st) (matchingLobby st) (pendingGames st) (f (activeGames st))
          (objects st) (nextObject st) (timers st) (nextTimer st) (random st) (outbox st).
Definition set_objects (f : gmap nat ActiveGame → gmap nat ActiveGame) (st : State) : State :=
  mkState (users st) (matchingLobby st) (pendingGames st) (activeGames st)
          (f (objects st)) (nextObject st) (timers st) (nextTimer st) (random st) (outbox st).
Definition set_timers (f : gmap nat Timer → gmap nat Timer) (st : State) : State :=
  mkState (users st) (matchingLobby st) (pendingGames st) (activeGames st)
          (objects st) (nextObject st) (f (timers st)) (nextTimer st) (random st) (outbox st).

(** ** The JavaScript [Map] of the lobby

    [Array.from(matchingLobby.entries())[0]] depends on the insertion order
    of the [Map], so the lobby is a list of entries with distinct keys,
    oldest first. *)

Fixpoint Map_has {V} (k : string) (m : list (string * V)) : bool :=
  match m with
  | [] => false
  | (k', _) :: m' => if decide (k' = k) then true else Map_has k m'
  end.

(** A key occurs once in a [Map]: [delete] leaves no entry under it. *)
Fixpoint Map_delete {V} (k : string) (m : list (string * V)) : list (string * V) :=
  match m with
  | [] => []
  | (k', v) :: m' =>
      if decide (k' = k) then Map_delete k m' else (k', v) :: Map_delete k m'
  end.

(** [set] on a present key replaces the value where it stands; a new key
    goes to the end. *)
Fixpoint Map_set {V} (k : string) (v : V) (m : list (string * V)) : list (string * V) :=
  match m with
  | [] => [(k, v)]
  | (k', v') :: m' => if decide (k' = k) then (k, v) :: m' else (k', v') :: Map_set k v m'
  end.

(** JavaScript truthiness of a string: the empty string is falsy. *)
Definition truthy (s : string) : bool :=
  match s with EmptyString => false | String _ _ => true end.

(** ** Capabilities: ledger, notifier, timers, random source *)

(** [ctx.database.get('users', { userId })] destructured as [[user]]. *)
Definition database_get (id : string) (st : State) : option UserData := users st !! id.

(** [ctx.database.set('users', { userId }, { points })]: updates the
    matching row, and no row when there is none. *)
Definition database_set_points (id : string) (p : Z) (st : State) : State :=
  set_users (alter (withPoints p) id) st.

Definition emit (e : Event) (st : State) : State :=
  mkState (users st) (matchingLobby st) (pendingGames st) (activeGames st)
          (objects st) (nextObject st) (timers st) (nextTimer st) (random st)
          (outbox st ++ [e]).

(** [setTimeout(f, ms)] / [setInterval(f, ms)]: arms a timer under a fresh
    handle. *)
Definition arm (f : Callback) (ms : Z) (st : State) : nat * State :=
  (nextTimer st,
   mkState (users st) (matchingLobby st) (pendingGames st) (activeGames st)
           (objects st) (nextObject st) (<[nextTimer st := (f, ms)]> (timers st))
           (S (nextTimer st)) (random st) (outbox st)).

(** [clearTimeout] / [clearInterval] *)
Definition clearTimer (id : nat) (st : State) : State := set_timers (delete id) st.

(** A new [ActiveGame] object. *)
Definition alloc (g : ActiveGame) (st : State) : nat * State :=
  (nextObject st,
   mkState (users st) (matchingLobby st) (pendingGames st) (activeGames st)
           (<[nextObject st := g]> (objects st)) (S (nextObject st))
           (timers st) (nextTimer st) (random st) (outbox st)).

(** [Math.random()]: the next draw of the tape ([0] once it is used up). *)
Definition Math_random (st : State) : Q * State :=
  (hd 0%Q (random st),
   mkState (users st) (matchingLobby st) (pendingGames st) (activeGames st)
           (objects st) (nextObject st) (timers st) (nextTimer st)
           (tl (random st)) (outbox st)).

Definition Qltb (x y : Q) : bool := negb (Qle_bool y x).

(** [PHRASES[Math.floor(r * PHRASES.length)]] *)
Definition pick (phrases : list string) (r : Q) : string :=
  let i := Qfloor (r * inject_Z (Z.of_nat (length phrases))) in
  if i <? 0 then "undefined"%string else nth (Z.to_nat i) phrases "undefined"%string.

(** ** The membership check of line 660 *)

Definition player2Of (st : State) (ref : nat) : option string :=
  (λ a, player2Id (game a)) <$> objects st !! ref.

Definition alreadyInGame (id : string) (st : State) : bool :=
  Map_has id (matchingLobby st)
  || bool_decide (is_Some (pendingGames st !! id))
  || bool_decide (is_Some (activeGames st !! id))
  || bool_decide (map_Exists (λ _ g, player2Id g = id) (pendingGames st))
  || bool_decide (map_Exists (λ _ ref, player2Of st ref = Some id) (activeGames st)).

(** ** Suspended handlers *)

(** Who awaits the promise of a [sendBattleLog] call. *)
Inductive Caller :=
| Detached                                           (* the interval callback, line 746 *)
| StartAwaits (session : Session) (activeGame : nat). (* [await sendBattleLog], line 745 *)

(** A handler suspended at the [await] of the given source line, with its
    live local variables.  A ledger read has already produced its value. *)
Inductive Task :=
(* 对对碰匹配 *)
| Match640 (session : Session) (bet : option Z) (user : option UserData)
| Match665 (session : Session) (bet : Z) (user : UserData) (totalCost : Z)
| Match671 (session : Session) (bet : Z) (user : UserData) (totalCost : Z)
           (opponentId : string) (opponentLobbyData : LobbyPlayer)
           (opponent : option UserData)
| Match675 (session : Session)
| Match683 (session : Session) (bet : Z) (opponentId : string)
           (opponentLobbyData : LobbyPlayer) (player1Data : option UserData)
| Match684 (session : Session) (bet : Z) (opponentId : string)
           (opponentLobbyData : LobbyPlayer) (player1Data player2Data : option UserData)
(* the lobby timeout callback *)
| Timeout713 (session : Session) (user : UserData) (totalCost : Z)
| Timeout714
(* 开始对对碰 *)
| Start741 (session : Session) (game : PendingGame) (activeGame : nat)
| Start742 (session : Session) (activeGame : nat)
(* sendBattleLog *)
| Log813 (game : nat) (k : Caller) (winnerUserData : option UserData)
| Log814 (game : nat) (k : Caller) (winnerUserData loserUserData : option UserData)
| Log821 (game : nat) (k : Caller) (logMessage : Message)
| Log822 (game : nat) (k : Caller)
| Log829 (game : nat) (k : Caller) (player1 : option UserData)
| Log830 (game : nat) (k : Caller) (player1 player2 : option UserData)
| Log846 (game : nat) (k : Caller) (player2 : UserData) (resultMessage1 resultMessage2 : Message)
| Log847 (game : nat) (k : Caller) (resultMessage1 resultMessage2 : Message)
| Log849 (game : nat) (k : Caller) (resultMessage2 : Message)
| Log850 (k : Caller).

(** An uncaught exception ends the handler. *)
Definition throw (st : State) : State * option Task := (emit Threw st, None).

(** The action returns [m]. *)
Definition reply (session : Session) (m : Message) (st : State) : State * option Task :=
  (emit (Returned session m) st, None).

(** ** [sendBattleLog] (lines 809-852) *)

(** The second operand of line 814. *)
Definition loserId (g : PendingGame) : string :=
  if decide (winnerId g = player1Id g) then player2Id g else player1Id g.

(** The promise of [sendBattleLog] settles: a detached call just ends; the
    开始对对碰 action awaiting it goes on with lines 746-748. *)
Definition settle (k : Caller) (st : State) : State * option Task :=
  match k with
  | Detached => (st, None)
  | StartAwaits session activeGame =>
      let '(id, st1) := arm (BattleInterval activeGame) BATTLE_LOG_INTERVAL_MS st in
      let st2 := set_objects
                   (alter (λ a, mkActiveGame (game a) (logCount a) id) activeGame) st1 in
      reply session MsgBattleRunning st2
  end.

(** Entry of [sendBattleLog(game)]: [game.logCount++] and the first read.
    [game] is a reference to the [ActiveGame] object, which the command, the
    interval callback and [activeGames] share; an object is never freed, so
    the [None] branches below are never taken. *)
Definition sendBattleLog (ref : nat) (k : Caller) (st : State) : State * option Task :=
  match objects st !! ref with
  | None => throw st
  | Some a =>
      let st1 := set_objects
                   (<[ref := mkActiveGame (game a) (logCount a + 1) (intervalId a)]>) st in
      (st1, Some (Log813 ref k (database_get (winnerId (game a)) st1)))
  end.

Definition resumeLog (t : Task) (st : State) : State * option Task :=
  match t with
  | Log813 ref k winnerUserData =>
      match objects st !! ref with
      | None => throw st
      | Some a =>
          (st, Some (Log814 ref k winnerUserData (database_get (loserId (game a)) st)))
      end
  | Log814 ref k winnerUserData loserUserData =>
      let '(r1, st1) := Math_random st in
      let winnerPhrase := pick WINNER_PHRASES r1 in
      let '(r2, st2) := Math_random st1 in
      let loserPhrase := pick LOSER_PHRASES r2 in
      match objects st2 !! ref, winnerUserData, loserUserData with
      | Some a, Some w, Some l =>
          let logMessage :=
            MsgBattleLog (logCount a) (lv w) (username w) winnerPhrase
                         (lv l) (username l) loserPhrase in
          (emit (Sent (player1Session (game a)) logMessage) st2,
           Some (Log821 ref k logMessage))
      | _, _, _ => throw st2
      end
  | Log821 ref k logMessage =>
      match objects st !! ref with
      | None => throw st
      | Some a =>
          (emit (Sent (player2Session (game a)) logMessage) st, Some (Log822 ref k))
      end
  | Log822 ref k =>
      match objects st !! ref with
      | None => throw st
      | Some a =>
          if BATTLE_LOG_COUNT <=? logCount a then
            let st1 := clearTimer (intervalId a) st in
            let st2 := set_activeGames (delete (player1Id (game a))) st1 in
            (st2, Some (Log829 ref k (database_get (player1Id (game a)) st2)))
          else settle k st
      end
  | Log829 ref k player1 =>
      match objects st !! ref with
      | None => throw st
      | Some a => (st, Some (Log830 ref k player1 (database_get (player2Id (game a)) st)))
      end
  | Log830 ref k player1 player2 =>
      match objects st !! ref, player1, player2 with
      | Some a, Some p1, Some p2 =>
          let g := game a in
          if decide (winnerId g = player1Id g) then
            let p1' := withPoints (points p1 + (player2Bet g + DEPOSIT)) p1 in
            let resultMessage1 := MsgWon (username p1') (player2Bet g) (points p1') in
            let resultMessage2 := MsgLost (username p2) (player2Bet g) (points p2) in
            (database_set_points (player1Id g) (points p1') st,
             Some (Log846 ref k p2 resultMessage1 resultMessage2))
          else
            let p2' := withPoints (points p2 + (player1Bet g + DEPOSIT)) p2 in
            let resultMessage1 := MsgLost (username p1) (player1Bet g) (points p1) in
            let resultMessage2 := MsgWon (username p2') (player1Bet g) (points p2') in
            (database_set_points (player1Id g) (points p1) st,
             Some (Log846 ref k p2' resultMessage1 resultMessage2))
      | _, _, _ => throw st
      end
  | Log846 ref k player2 resultMessage1 resultMessage2 =>
      match objects st !! ref with
      | None => throw st
      | Some a =>
          (database_set_points (player2Id (game a)) (points player2) st,
           Some (Log847 ref k resultMessage1 resultMessage2))
      end
  | Log847 ref k resultMessage1 resultMessage2 =>
      match objects st !! ref with
      | None => throw st
      | Some a =>
          (emit (Sent (player1Session (game a)) resultMessage1) st,
           Some (Log849 ref k resultMessage2))
      end
  | Log849 ref k resultMessage2 =>
      match objects st !! ref with
      | None => throw st
      | Some a =>
          (emit (Sent (player2Session (game a)) resultMessage2) st, Some (Log850 k))
      end
  | Log850 k => settle k st
  | _ => (st, None)
  end.

(** ** 对对碰匹配 (lines 636-721) *)

(** The [else] branch of line 708: arm the timeout, enter the lobby. *)
Definition enterLobby (session : Session) (bet : Z) (user : UserData) (totalCost : Z)
    (st : State) : State * option Task :=
  let '(timeoutId, st1) := arm (LobbyTimeout session user totalCost) LOBBY_TIMEOUT_MS st in
  let st2 := set_matchingLobby
               (Map_set (sessionUserId session) (mkLobbyPlayer bet session timeoutId)) st1 in
  reply session (MsgEnteredLobby bet (points user)) st2.

Definition resumeMatch (t : Task) (st : State) : State * option Task :=
  match t with
  | Match640 session bet user =>
      let userId := sessionUserId session in
      match user with
      | None => reply session MsgNotRegistered st
      | Some user =>
          match bet with
          | None => reply session MsgInvalidBet st
          | Some bet =>
              if bet <=? 0 then reply session MsgInvalidBet st
              else
                let totalCost := bet + DEPOSIT in
                if points user <? totalCost
                then reply session (MsgInsufficient totalCost bet (points user)) st
                else if alreadyInGame userId st
                then reply session MsgAlreadyInGame st
                else (database_set_points userId (points user - totalCost) st,
                      Some (Match665 session bet user totalCost))
          end
      end
  | Match665 session bet user totalCost =>
      let user := withPoints (points user - totalCost) user in
      match matchingLobby st with
      | (opponentId, opponentLobbyData) :: _ =>
          if truthy opponentId then
            (st, Some (Match671 session bet user totalCost opponentId opponentLobbyData
                                (database_get opponentId st)))
          else enterLobby session bet user totalCost st
      | [] => enterLobby session bet user totalCost st
      end
  | Match671 session bet user totalCost opponentId opponentLobbyData opponent =>
      let userId := sessionUserId session in
      match opponent with
      | None =>
          let st1 := set_matchingLobby (Map_delete opponentId) st in
          (database_set_points userId (points user + totalCost) st1,
           Some (Match675 session))
      | Some _ =>
          let st1 := clearTimer (timeoutId opponentLobbyData) st in
          let st2 := set_matchingLobby (Map_delete opponentId) st1 in
          (st2, Some (Match683 session bet opponentId opponentLobbyData
                               (database_get opponentId st2)))
      end
  | Match675 session => reply session MsgStaleOpponent st
  | Match683 session bet opponentId opponentLobbyData player1Data =>
      (st, Some (Match684 session bet opponentId opponentLobbyData player1Data
                          (database_get (sessionUserId session) st)))
  | Match684 session bet opponentId opponentLobbyData player1Data player2Data =>
      let userId := sessionUserId session in
      match player1Data, player2Data with
      | Some player1Data, Some player2Data =>
          let lvDifference := lv player1Data - lv player2Data in
          let player1WinChance := ((1 # 2) + inject_Z lvDifference * (5 # 100))%Q in
          let '(r, st1) := Math_random st in
          let winnerId := if Qltb r player1WinChance then opponentId else userId in
          let '(mkLobbyPlayer opponentBet opponentSession _) := opponentLobbyData in
          let game := mkPendingGame opponentId userId opponentSession session
                                    opponentBet bet winnerId in
          let st2 := set_pendingGames (<[opponentId := game]>) st1 in
          let st3 := emit (Sent opponentSession
                                (MsgMatchedPlayer1 (username player2Data))) st2 in
          let st4 := emit (Sent session (MsgMatchedPlayer2 (username player1Data))) st3 in
          reply session MsgMatched st4
      | _, _ => throw st
      end
  | _ => (st, None)
  end.

(** ** The lobby timeout callback (lines 709-716) *)

Definition lobbyTimeout (session : Session) (user : UserData) (totalCost : Z)
    (st : State) : State * option Task :=
  let userId := sessionUserId session in
  if Map_has userId (matchingLobby st) then
    let st1 := set_matchingLobby (Map_delete userId) st in
    (database_set_points userId (points user + totalCost) st1,
     Some (Timeout713 session user totalCost))
  else (st, None).

Definition resumeTimeout (t : Task) (st : State) : State * option Task :=
  match t with
  | Timeout713 session user totalCost =>
      (emit (Sent session (MsgLobbyTimeout totalCost (points user + totalCost))) st,
       Some Timeout714)
  | _ => (st, None)
  end.

(** ** 开始对对碰 (lines 723-749) *)

Definition startGame (session : Session) (st : State) : State * option Task :=
  let userId := sessionUserId session in
  match pendingGames st !! userId with
  | None => reply session MsgNoPendingGame st
  | Some g =>
      if decide (player1Id g = userId) then
        let st1 := set_pendingGames (delete userId) st in
        let '(placeholder, st2) := arm Placeholder 0 st1 in
        let '(activeGame, st3) := alloc (mkActiveGame g 0 placeholder) st2 in
        let st4 := set_activeGames (<[userId := activeGame]>) st3 in
        (emit (Sent (player1Session g) MsgBattleStart) st4,
         Some (Start741 session g activeGame))
      else reply session MsgNoPendingGame st
  end.

Definition resumeStart (t : Task) (st : State) : State * option Task :=
  match t with
  | Start741 session g activeGame =>
      (emit (Sent (player2Session g) MsgBattleStart) st, Some (Start742 session activeGame))
  | Start742 session activeGame =>
      sendBattleLog activeGame (StartAwaits session activeGame) st
  | _ => (st, None)
  end.

(** ** The event loop *)

Inductive Command :=
| Cmd_match (session : Session) (bet : option Z)    (* 对对碰匹配 -b <bet> *)
| Cmd_start (session : Session).                    (* 开始对对碰 *)

(** A command arrives: the action runs up to its first [await]. *)
Definition invoke (c : Command) (st : State) : State * option Task :=
  match c with
  | Cmd_match session bet =>
      (st, Some (Match640 session bet (database_get (sessionUserId session) st)))
  | Cmd_start session => startGame session st
  end.

(** A suspended handler goes on up to its next [await] or its end. *)
Definition resume (t : Task) (st : State) : State * option Task :=
  match t with
  | Match640 _ _ _ | Match665 _ _ _ _ | Match671 _ _ _ _ _ _ _ | Match675 _
  | Match683 _ _ _ _ _ | Match684 _ _ _ _ _ _ => resumeMatch t st
  | Timeout713 _ _ _ => resumeTimeout t st
  | Timeout714 => (st, None)
  | Start741 _ _ _ | Start742 _ _ => resumeStart t st
  | _ => resumeLog t st
  end.

(** An armed timer fires.  A timeout fires once; an interval stays armed. *)
Definition fire (id : nat) (st : State) : State * option Task :=
  match timers st !! id with
  | None => (st, None)
  | Some (LobbyTimeout session user totalCost, _) =>
      lobbyTimeout session user totalCost (clearTimer id st)
  | Some (Placeholder, _) => (clearTimer id st, None)
  | Some (BattleInterval activeGame, _) => sendBattleLog activeGame Detached st
  end.

(** The running process: the shared state and the handlers in flight.
    Slot [i] of [tasks] is the [i]-th handler ever started, [None] once it
    has ended. *)
Record System := mkSystem {
  state : State;
  tasks : list (option Task)
}.

Inductive Action :=
| Invoke (c : Command)
| Fire (id : nat)
| Resume (i : nat).

Definition exec (s : System) (a : Action) : System :=
  match a with
  | Invoke c =>
      let '(st, t) := invoke c (state s) in mkSystem st (tasks s ++ [t])
  | Fire id =>
      let '(st, t) := fire id (state s) in mkSystem st (tasks s ++ [t])
  | Resume i =>
      match tasks s !! i with
      | Some (Some t) =>
          let '(st, t') := resume t (state s) in mkSystem st (<[i := t']> (tasks s))
      | _ => s
      end
  end.

Definition run (s : System) (schedule : list Action) : System :=
  fold_left exec schedule s.

Definition boot (db : gmap string UserData) (tape : list Q) : System :=
  mkSystem (mkState db [] ∅ ∅ ∅ 0 ∅ 0 tape []) [].

(** A handler running with nothing in between: resumed as soon as it
    yields, [n] times at most. *)
Fixpoint complete (n : nat) (r : State * option Task) : State * option Task :=
  match n, r with
  | S n', (st, Some t) => complete n' (resume t st)
  | _, _ => r
  end.

(** The number of resumptions a handler still needs, at most. *)
Definition remaining (t : Task) : nat :=
  match t with
  | Match640 _ _ _ => 5 | Match665 _ _ _ _ => 4 | Match671 _ _ _ _ _ _ _ => 3
  | Match675 _ => 1 | Match683 _ _ _ _ _ => 2 | Match684 _ _ _ _ _ _ => 1
  | Timeout713 _ _ _ => 2 | Timeout714 => 1
  | Start741 _ _ _ => 12 | Start742 _ _ => 11
  | Log813 _ _ _ => 10 | Log814 _ _ _ _ => 9 | Log821 _ _ _ => 8 | Log822 _ _ => 7
  | Log829 _ _ _ => 6 | Log830 _ _ _ _ => 5 | Log846 _ _ _ _ _ => 4
  | Log847 _ _ _ _ => 3 | Log849 _ _ _ => 2 | Log850 _ => 1
  end.

(** A command, or a timer callback, handled from start to end with nothing
    in between.  Twelve resumptions are enough for every handler. *)
Definition handle (c : Command) (st : State) : State * option Task :=
  complete 12 (invoke c st).
Definition expire (id : nat) (st : State) : State * option Task :=
  complete 12 (fire id st).

(** ** Predicates of the claims *)

(** Everything but the outbox is as it was. *)
Definition unchanged (st st' : State) : Prop :=
  users st' = users st ∧ matchingLobby st' = matchingLobby st
  ∧ pendingGames st' = pendingGames st ∧ activeGames st' = activeGames st
  ∧ objects st' = objects st ∧ timers st' = timers st
  ∧ nextObject st' = nextObject st ∧ nextTimer st' = nextTimer st
  ∧ random st' = random st.

Definition inLobby (id : string) (st : State) : Prop :=
  id ∈ (matchingLobby st).*1.
Definition inPending (id : string) (st : State) : Prop :=
  ∃ k g, pendingGames st !! k = Some g ∧ (player1Id g = id ∨ player2Id g = id).
Definition inActive (id : string) (st : State) : Prop :=
  ∃ k ref a, activeGames st !! k = Some ref ∧ objects st !! ref = Some a
             ∧ (player1Id (game a) = id ∨ player2Id (game a) = id).

(** A participant: in the lobby, or a player of a pending or active game. *)
Definition participant (id : string) (st : State) : Prop :=
  inLobby id st ∨ inPending id st ∨ inActive id st.

(** Games are stored under their [player1Id]; object handles are fresh. *)
Definition keyed (st : State) : Prop :=
  (∀ k g, pendingGames st !! k = Some g → player1Id g = k)
  ∧ (∀ k ref, activeGames st !! k = Some ref →
       ∃ a, objects st !! ref = Some a ∧ player1Id (game a) = k)
  ∧ (∀ ref, is_Some (objects st !! ref) → (ref < nextObject st)%nat).

Definition reachable (s : System) : Prop :=
  ∃ db tape schedule, s = run (boot db tape) schedule.

(** Membership exclusivity: nobody is in two of the stores, nor in two
    pending games. *)
Definition exclusive (st : State) : Prop :=
  (∀ id, inLobby id st → ¬ inPending id st ∧ ¬ inActive id st)
  ∧ (∀ id, inPending id st → ¬ inActive id st)
  ∧ (∀ k k' g g' id,
       pendingGames st !! k = Some g → pendingGames st !! k' = Some g' →
       player1Id g = id ∨ player2Id g = id →
       player1Id g' = id ∨ player2Id g' = id → k = k').

(** What a suspended 对对碰匹配 handler has established and still relies on
    when it is resumed: the check of line 660 for the caller, the lobby
    entry of the opponent. *)
Definition undisturbed (t : Task) (st : State) : Prop :=
  match t with
  | Match665 session _ _ _ => ¬ participant (sessionUserId session) st
  | Match671 session _ _ _ opponentId _ _ =>
      ¬ participant (sessionUserId session) st ∧ inLobby opponentId st
  | Match683 session _ opponentId _ _
  | Match684 session _ opponentId _ _ _ =>
      ¬ participant (sessionUserId session) st ∧ ¬ participant opponentId st
      ∧ opponentId ≠ sessionUserId session
  | _ => True
  end.

(** Handlers that do not interleave: a command, or a timer callback, is
    handled to its end before anything else happens. *)
Inductive Occurrence :=
| Handled (c : Command)
| Expired (id : nat).

Definition occur (st : State) (o : Occurrence) : State :=
  match o with
  | Handled c => (handle c st).1
  | Expired id => (expire id st).1
  end.

Definition orderly (db : gmap string UserData) (tape : list Q) (l : list Occurrence) : State :=
  fold_left occur l (state (boot db tape)).


(** The broadcast of tick [count] when the tape of draws is [tape]: the
    winner's phrase by its first draw, the loser's by the second. *)
Definition logLine (count : Z) (w l : UserData) (tape : list Q) : Message :=
  MsgBattleLog count (lv w) (username w) (pick WINNER_PHRASES (hd 0%Q tape))
               (lv l) (username l) (pick LOSER_PHRASES (hd 0%Q (tl tape))).

Definition pointsOf (id : string) (st : State) : option Z :=
  points <$> users st !! id.

Definition isBattleLog (e : Event) : bool :=
  match e with Sent _ (MsgBattleLog _ _ _ _ _ _ _) => true | _ => false end.
Definition isResult (e : Event) : bool :=
  match e with Sent _ (MsgWon _ _ _) | Sent _ (MsgLost _ _ _) => true | _ => false end.

Definition countIf (p : Event → bool) (l : list Event) : nat :=
  length (List.filter p l).

(** The sum of the two players' ledger balances. *)
Definition totalPoints (a b : string) (st : State) : Z :=
  default 0 (pointsOf a st) + default 0 (pointsOf b st).

(** ** Concrete runs *)

Definition alice : UserData := mkUserData "A" "alice" None 500 3 60 0.
Definition bob : UserData := mkUserData "B" "bob" None 300 3 60 0.
Definition ledger0 : gmap string UserData := <["A"%string := alice]> (<["B"%string := bob]> ∅).
Definition sessionA : Session := mkSession "A" 1.
Definition sessionB : Session := mkSession "B" 2.

(** The player of the specification's timeout example: balance 50. *)
Definition carol : UserData := mkUserData "C" "carol" None 50 1 20 0.
Definition ledgerC : gmap string UserData := {["C"%string := carol]}.
Definition sessionC : Session := mkSession "C" 3.

(** A waits in the lobby with stake 100 and A's ledger record is gone. *)
Definition staleLobby : State :=
  mkState {["B"%string := bob]} [("A"%string, mkLobbyPlayer 100 sessionA 0)] ∅ ∅ ∅ 0
          {[0%nat := (LobbyTimeout sessionA (withPoints 398 alice) 102, LOBBY_TIMEOUT_MS)]} 1 [] [].

(** C waits in the lobby with stake 10 (balance 50, escrowed down to 38);
    another operation has since raised the stored balance to 45. *)
Definition creditedWhileWaiting : State :=
  mkState {["C"%string := withPoints 45 carol]}
          [("C"%string, mkLobbyPlayer 10 sessionC 0)] ∅ ∅ ∅ 0
          {[0%nat := (LobbyTimeout sessionC (withPoints 38 carol) 12, LOBBY_TIMEOUT_MS)]} 1 [] [].

(** A enters the lobby (handler 0, lobby timer 0). *)
Definition aliceWaits : list Action :=
  [Invoke (Cmd_match sessionA (Some 100)); Resume 0%nat; Resume 0%nat].

(** B pairs with A (handler 1), A confirms (handler 2, placeholder timer 1,
    interval timer 2), and the first tick completes. *)
Definition bobPairs : list Action :=
  Invoke (Cmd_match sessionB (Some 100)) :: repeat (Resume 1%nat) 5.
Definition aliceStarts : list Action :=
  Invoke (Cmd_start sessionA) :: repeat (Resume 2%nat) 6.

(** One interval tick run to its end as handler [i]: four resumptions for
    a broadcast, ten when it also settles. *)
Definition tickOf (i : nat) : list Action := Fire 2%nat :: repeat (Resume i) 4.
Definition lastTickOf (i : nat) : list Action := Fire 2%nat :: repeat (Resume i) 10.

(** The whole game, every handler run to its end before the next starts. *)
Definition wholeGame : list Action :=
  aliceWaits ++ bobPairs ++ aliceStarts
  ++ tickOf 3%nat ++ tickOf 4%nat ++ tickOf 5%nat ++ lastTickOf 6%nat.

(** B's 对对碰匹配 (handler 1) has written its escrow, found A's entry
    and awaits the ledger read of line 671. *)
Definition pairingAwaits : list Action :=
  aliceWaits ++ [Invoke (Cmd_match sessionB (Some 100)); Resume 1%nat; Resume 1%nat].

(** A's lobby timeout fires at that moment (handler 2); both handlers then
    run to their ends. *)
Definition timeoutDuringPairing : list Action :=
  pairingAwaits ++ [Fire 0%nat] ++ map Resume [1; 1; 1; 2; 2]%nat.

(** B sends 对对碰匹配 twice (handlers 1 and 2); the second call passes the
    check of line 660 before the first one has paired. *)
Definition doubleEnqueue : list Action :=
  aliceWaits
  ++ [Invoke (Cmd_match sessionB (Some 100)); Invoke (Cmd_match sessionB (Some 100))]
  ++ map Resume [1; 2; 1; 1; 1; 1; 2]%nat.

(** The fifth tick (handler 6) has sent its broadcast to A and awaits the
    send to B (line 822) when the interval fires again (handler 7). *)
Definition overlappingTicks : list Action :=
  aliceWaits ++ bobPairs ++ aliceStarts
  ++ tickOf 3%nat ++ tickOf 4%nat ++ tickOf 5%nat
  ++ [Fire 2%nat] ++ repeat (Resume 6%nat) 3
  ++ [Fire 2%nat] ++ repeat (Resume 6%nat) 7 ++ repeat (Resume 7%nat) 10.

(** ** The account commands

    注册 (lines 522-565), 炉管打卡 (lines 568-633), 查询积分 (lines 752-767)
    and 积分榜单 (lines 770-805) read and write the ledger only.  Each is
    given as it runs from its first line to its [return] when nothing else
    touches the ledger at its [await]s, the way [handle] runs a command of
    the game.  Their texts are not [Message]s of the game: an action hands
    back, with the new state, the texts it sent with [session.send] and the
    text it returned. *)

(** The plugin's configuration (lines 406-420). *)
Record Config := mkConfig {
  specialDates : list string;
  isDevelopment : bool
}.

Definition defaultConfig : Config := mkConfig ["07-08"; "07-21"; "09-01"]%string false.

Definition RANK_TOP_N : nat := 10.

(** *** JavaScript strings

    A text is kept as its UTF-8 bytes.  [s.length] counts UTF-16 code
    units and [s.trim()] strips white space and line terminators, so both
    go through the code points of the text. *)

(** The code points of well-formed UTF-8: [pending] holds the bits of an
    unfinished sequence, [more] the number of continuation bytes due. *)
Fixpoint codePointsFrom (pending : N) (more : nat) (s : string) : list N :=
  match s with
  | EmptyString => []
  | String c s' =>
      let b := N_of_ascii c in
      match more with
      | O =>
          if (b <? 128)%N then b :: codePointsFrom 0 0 s'
          else if (b <? 224)%N then codePointsFrom (N.land b 31) 1 s'
          else if (b <? 240)%N then codePointsFrom (N.land b 15) 2 s'
          else codePointsFrom (N.land b 7) 3 s'
      | S n =>
          let cp := (pending * 64 + N.land b 63)%N in
          match n with
          | O => cp :: codePointsFrom 0 0 s'
          | S _ => codePointsFrom cp n s'
          end
      end
  end.

Definition codePoints (s : string) : list N := codePointsFrom 0 0 s.

(** [s.length]: a code point beyond the basic plane takes two units. *)
Definition String_length (s : string) : Z :=
  foldr (λ cp n, (if (cp <? 65536)%N then 1 else 2) + n) 0 (codePoints s).

(** WhiteSpace and LineTerminator of ECMAScript: TAB, LF, VT, FF, CR, the
    space separators of Unicode, LS, PS, and the byte order mark. *)
Definition isWhiteSpace (cp : N) : bool :=
  bool_decide (cp ∈ [9; 10; 11; 12; 13; 32; 160; 5760; 8232; 8233; 8239; 8287; 12288; 65279]%N)
  || ((8192 <=? cp)%N && (cp <=? 8202)%N).

(** [s.trim() === ''] *)
Definition blank (s : string) : bool := forallb isWhiteSpace (codePoints s).

(** *** Texts of the account commands *)

(** The last part of the board (lines 791-802). *)
Inductive OwnRank :=
| Listed
| Ranked (position : nat) (currentUserData : UserData)
| Unranked.

Inductive Notice :=
| MsgInvalidName
| MsgNameLength
| MsgNameTaken (name : string)
| MsgSameName (name : string)
| MsgRenamed (name : string)
| MsgRegistered (name : string)
| MsgTempAccount (sessionUsername : string)
| MsgCheckedInToday
| MsgLevelUp (name : string) (level : Z)
| MsgWeek (weekNumber : Z)
| MsgCheckInFailed
| MsgCheckedIn (pointsGained current level exp : Z)
| MsgNoData
| MsgProfile (user : UserData)
| MsgRankEmpty
| MsgRank (top : list UserData) (own : OwnRank).

Definition newline : string := String (ascii_of_nat 10) EmptyString.

Definition rule : string := "--------------------".

(** Line 785 for the entry at index [i]. *)
Definition rankLine (i : nat) (user : UserData) : string :=
  (num (Z.of_nat i + 1) +:+ ". " +:+ username user +:+ " (Lv." +:+ num (lv user) +:+ ") - "
   +:+ num (points user) +:+ " 积分")%string.

Definition renderNotice (m : Notice) : string :=
  match m with
  | MsgInvalidName => "请输入一个有效的用户名。"
  | MsgNameLength => "用户名长度需在2到15个字符之间。"
  | MsgNameTaken name => "用户名“" +:+ name +:+ "”已被占用，请尝试其他用户名。"
  | MsgSameName name => "你已经注册过用户名：" +:+ name +:+ "，无需重复注册。"
  | MsgRenamed name => "你的用户名已更新为：" +:+ name +:+ "。"
  | MsgRegistered name => "恭喜你，" +:+ name +:+ "！你已成功注册牛子对对碰。"
  | MsgTempAccount sessionUsername =>
      "你尚未注册用户名，已为你创建临时账号（用户名：" +:+ sessionUsername
      +:+ "）。请使用“注册 <用户名>”设置你的专属用户名。" +:+ newline
      +:+ "首次打卡不获得积分，请先注册！"
  | MsgCheckedInToday => "今天你已经打过卡了！"
  | MsgLevelUp name level =>
      "恭喜你，" +:+ name +:+ "！你的等级提升到 Lv." +:+ num level +:+ "！"
  | MsgWeek weekNumber => "这是你打卡的第" +:+ num weekNumber +:+ "周！"
  | MsgCheckInFailed => "炉管失败！若今日是特殊日期，炉管失败时正常的！"
  | MsgCheckedIn pointsGained current level exp =>
      "打卡成功！你获得了 " +:+ num pointsGained +:+ " 积分，当前积分：" +:+ num current
      +:+ "，Lv：" +:+ num level +:+ "，经验：" +:+ num exp
  | MsgNoData => "你还没有任何数据，请先打卡或参与游戏。"
  | MsgProfile user =>
      "你的当前信息：" +:+ newline
      +:+ "        用户名：" +:+ username user +:+ newline
      +:+ "        积分：" +:+ num (points user) +:+ newline
      +:+ "        等级：Lv." +:+ num (lv user) +:+ newline
      +:+ "        经验：" +:+ num (experience user) +:+ newline
      +:+ "        连续打卡：" +:+ num (streak user) +:+ "天"
  | MsgRankEmpty => "目前还没有用户数据，榜单为空。"
  | MsgRank top own =>
      "✨ 积分排行榜 ✨" +:+ newline +:+ rule +:+ newline
      +:+ String.concat EmptyString (imap (λ i user, rankLine i user +:+ newline) top)
      +:+ match own with
          | Listed => EmptyString
          | Ranked position currentUserData =>
              rule +:+ newline +:+ "你的排名：" +:+ rankLine (position - 1) currentUserData
          | Unranked => rule +:+ newline +:+ "你还没有数据，无法显示排名。"
          end
  end%string.

(** What an action hands back: the texts of its [session.send] calls, in
    order, and how it ended. *)
Inductive Ending :=
| Answered (m : Notice)     (* the action returned the text *)
| Rejected.                 (* a rejected promise was awaited: the action threw *)

Record Reply := mkReply {
  said : list Notice;
  ending : Ending
}.

Definition answer (m : Notice) : Reply := mkReply [] (Answered m).

(** *** The ledger as the account commands use it *)

(** [ctx.database.get('users', { username })]: the rows with that name.
    The order of the rows is the driver's; here it is that of the keys. *)
Definition database_get_by_username (name : string) (st : State) : list UserData :=
  filter (λ u, username u = name) (map_to_list (users st)).*2.

(** [ctx.database.create('users', row)]: a row under a primary key that is
    taken is refused (the promise is rejected). *)
Definition database_create (row : UserData) (st : State) : option State :=
  match users st !! userId row with
  | Some _ => None
  | None => Some (set_users (<[userId row := row]>) st)
  end.

(** [ctx.database.set('users', { userId }, { username })] *)
Definition database_set_username (id : string) (name : string) (st : State) : State :=
  set_users (alter (λ u, mkUserData (userId u) name (lastCheckIn u) (points u) (lv u)
                                    (experience u) (streak u)) id) st.

(** [ctx.database.set('users', { userId }, { points, lv, experience,
    streak, lastCheckIn })] of line 624. *)
Definition database_set_progress (id : string) (user : UserData) (st : State) : State :=
  set_users (alter (λ u, mkUserData (userId u) (username u) (lastCheckIn user) (points user)
                                    (lv user) (experience user) (streak user)) id) st.

(** The order of [orderBy('points', 'desc')]: [u] may stand before [v]. *)
Definition richer (u v : UserData) : Prop := points v ≤ points u.

#[global] Instance richer_dec : RelDecision richer := λ u v, decide (points v ≤ points u).

(** [ctx.database.select('users').orderBy('points', 'desc').execute()]:
    every row, highest balance first. *)
Definition database_select_by_points (st : State) : list UserData :=
  merge_sort richer (map_to_list (users st)).*2.

(** *** 注册 (lines 522-565) *)

(** The record of lines 553-561 and 578-586. *)
Definition newUser (id name : string) : UserData := mkUserData id name None 0 0 0 0.

Definition register (session : Session) (argument : option string) (st : State)
    : State * Reply :=
  match argument with
  | None => (st, answer MsgInvalidName)
  | Some name =>
      if negb (truthy name) || blank name then (st, answer MsgInvalidName)
      else if (15 <? String_length name) || (String_length name <? 2)
      then (st, answer MsgNameLength)
      else
        let taken :=
          match head (database_get_by_username name st) with
          | Some existingUserWithSameName =>
              bool_decide (userId existingUserWithSameName ≠ sessionUserId session)
          | None => false
          end in
        if taken then (st, answer (MsgNameTaken name))
        else
          match database_get (sessionUserId session) st with
          | Some user =>
              if decide (username user = name) then (st, answer (MsgSameName (username user)))
              else (database_set_username (sessionUserId session) name st,
                    answer (MsgRenamed name))
          | None =>
              match database_create (newUser (sessionUserId session) name) st with
              | Some st1 => (st1, answer (MsgRegistered name))
              | None => (st, mkReply [] Rejected)
              end
          end
  end.

(** *** 炉管打卡 (lines 568-633)

    [today] is the reading [dayjs().format('MM-DD')] of line 591, and
    [sessionUsername] the display name [session.username]. *)

(** The test of line 616, with its draws: [&&] and [||] evaluate their
    right operand only when the left one does not decide. *)
Definition checkInFails (isDevMode isSpecialDate : bool) (st : State) : bool * State :=
  let '(dev, st1) :=
    if isDevMode then let '(r, st') := Math_random st in (Qltb r (1 # 2), st')
    else (false, st) in
  if dev then (true, st1)
  else if isSpecialDate then let '(r, st') := Math_random st1 in (Qltb r (2 # 10), st')
  else (false, st1).

Definition checkIn (config : Config) (today : string) (session : Session)
    (sessionUsername : string) (st : State) : State * Reply :=
  match database_get (sessionUserId session) st with
  | None =>
      match database_create (newUser (sessionUserId session) sessionUsername) st with
      | Some st1 => (st1, answer (MsgTempAccount sessionUsername))
      | None => (st, mkReply [] Rejected)
      end
  | Some user =>
      let isSpecialDate := bool_decide (today ∈ specialDates config) in
      let isDevMode := isDevelopment config in
      if decide (lastCheckIn user = Some today) then (st, answer MsgCheckedInToday)
      else
        let '(r, st1) := Math_random st in
        let pointsGained := Qfloor (r * 25) + 1 in
        let experience1 := experience user + 10 in
        let requiredExpForNextLv := (lv user + 1) * 20 in
        let levelUp := requiredExpForNextLv <=? experience1 in
        let lv1 := if levelUp then lv user + 1 else lv user in
        let said1 := if levelUp then [MsgLevelUp (username user) lv1] else [] in
        let streak1 := streak user + 1 in
        let said2 :=
          if Z.rem streak1 7 =? 0 then [MsgWeek (Z.quot streak1 7)] else [] in
        let '(failed, st2) := checkInFails isDevMode isSpecialDate st1 in
        if failed then (st2, mkReply (said1 ++ said2) (Answered MsgCheckInFailed))
        else
          let user1 := mkUserData (userId user) (username user) (Some today)
                                  (points user + pointsGained) lv1 experience1 streak1 in
          (database_set_progress (sessionUserId session) user1 st2,
           mkReply (said1 ++ said2)
                   (Answered (MsgCheckedIn pointsGained (points user1) lv1 experience1)))
  end.

(** *** 查询积分 (lines 752-767) *)

Definition queryPoints (session : Session) (st : State) : State * Reply :=
  match database_get (sessionUserId session) st with
  | None => (st, answer MsgNoData)
  | Some user => (st, answer (MsgProfile user))
  end.

(** *** 积分榜单 (lines 770-805) *)

Definition rankBoard (session : Session) (st : State) : State * Reply :=
  let allUsers := database_select_by_points st in
  if decide (length allUsers = 0%nat) then (st, answer MsgRankEmpty)
  else
    (* the loop of lines 783-786 *)
    let top := take (RANK_TOP_N `min` length allUsers) allUsers in
    let own :=
      match list_find (λ u, userId u = sessionUserId session) allUsers with
      | Some (currentUserIndex, currentUserData) =>
          if decide (RANK_TOP_N ≤ currentUserIndex)%nat
          then Ranked (currentUserIndex + 1) currentUserData
          else Listed
      | None => Unranked
      end in
    (st, answer (MsgRank top own)).

(** *** Development mode (lines 486-494, 855-870) *)

Definition generateRandomUserId (st : State) : string * State :=
  let '(r, st1) := Math_random st in
  (("user_" +:+ num (Qfloor (r * 10000)))%string, st1).

(** The object of lines 863-869 has no [userId] and no [username]; it is
    given as the row it becomes once line 490 has added the two. *)
Definition generateRandomUserData (st : State) : (string → string → UserData) * State :=
  let '(r1, st1) := Math_random st in
  let level := Qfloor (r1 * 5) + 1 in
  let '(r2, st2) := Math_random st1 in
  let '(r3, st3) := Math_random st2 in
  (λ id name, mkUserData id name None (Qfloor (r2 * 100) + 10) level (level * 20)
                         (Qfloor (r3 * 7)),
   st3).

(** What [apply] does to the ledger when the plugin is loaded: in
    development mode one random user is created; a refused [create] is
    caught and logged (line 493). *)
Definition applyDevelopment (config : Config) (st : State) : State :=
  if isDevelopment config then
    let '(randomUserId, st1) := generateRandomUserId st in
    let '(randomUser, st2) := generateRandomUserData st1 in
    let '(r, st3) := Math_random st2 in
    let randomUserData :=
      randomUser randomUserId ("随机用户" +:+ num (Qfloor (r * 100000)))%string in
    match database_create randomUserData st3 with
    | Some st4 => st4
    | None => st3
    end
  else st.

(** *** Predicates on the ledger *)

(** The primary key: a row is stored under its [userId]. *)
Definition primaryKey (db : gmap string UserData) : Prop :=
  ∀ k u, db !! k = Some u → userId u = k.

(** No two rows carry the same [username]. *)
Definition uniqueNames (db : gmap string UserData) : Prop :=
  ∀ k k' u u', db !! k = Some u → db !! k' = Some u' → username u = username u' → k = k'.

(** A level is the experience divided by 20. *)
Definition levelled (u : UserData) : Prop :=
  lv u * 20 ≤ experience u < (lv u + 1) * 20.

(** A name 注册 accepts: not blank, 2 to 15 code units long. *)
Definition validName (name : string) : Prop :=
  blank name = false ∧ 2 ≤ String_length name ≤ 15.

(** Nobody carries the name. *)
Definition freeName (name : string) (st : State) : Prop :=
  ∀ k u, users st !! k = Some u → username u ≠ name.

(** Draws as [Math.random] gives them: in [0, 1). *)
Definition unitDraws (tape : list Q) : Prop :=
  Forall (λ r, (0 <= r)%Q ∧ (r < 1)%Q) tape.

(** The level a check-in leaves (lines 603-607). *)
Definition levelAfter (user : UserData) : Z :=
  if (lv user + 1) * 20 <=? experience user + 10 then lv user + 1 else lv user.

(** ** Invariants of the running process *)

(** An invariant of the process: one of the state, and what each handler
    in flight still relies on. *)
Definition invariant (stateOk : State → Prop) (taskOk : State → Task → Prop)
    (s : System) : Prop :=
  stateOk (state s) ∧ ∀ i t, tasks s !! i = Some (Some t) → taskOk (state s) t.

(** One segment keeps it: the new state is fine, the handlers in flight
    can still rely on what they did, and so can the one that yields. *)
Definition preserves (stateOk : State → Prop) (taskOk : State → Task → Prop)
    (st : State) (r : State * option Task) : Prop :=
  stateOk r.1 ∧ (∀ t, taskOk st t → taskOk r.1 t) ∧ (∀ t, r.2 = Some t → taskOk r.1 t).

(** A schedule whose commands are all of a given kind. *)
Definition permitted (allowed : Command → Prop) (a : Action) : Prop :=
  match a with
  | Invoke c => allowed c
  | _ => True
  end.

(** The ledger has a row for the player. *)
Definition registered (us : gmap string UserData) (id : string) : Prop := is_Some (us !! id).

(** Both players of the game have their rows, and one of them is its winner. *)
Definition playable (us : gmap string UserData) (g : PendingGame) : Prop :=
  registered us (player1Id g) ∧ registered us (player2Id g)
  ∧ (winnerId g = player1Id g ∨ winnerId g = player2Id g).

(** Nothing has thrown, and nothing stored will make a handler throw: the
    players of every game have their rows, and an interval refers to an
    [ActiveGame] object that exists. *)
Definition safeState (st : State) : Prop :=
  (∀ k g, pendingGames st !! k = Some g → playable (users st) g)
  ∧ (∀ ref a, objects st !! ref = Some a → playable (users st) (game a))
  ∧ (∀ id ref ms, timers st !! id = Some (BattleInterval ref, ms) →
       is_Some (objects st !! ref))
  ∧ Threw ∉ outbox st.

Definition safeCaller (st : State) (k : Caller) : Prop :=
  match k with
  | Detached => True
  | StartAwaits _ activeGame => is_Some (objects st !! activeGame)
  end.

(** What a suspended handler will dereference when it goes on. *)
Definition safeTask (st : State) (t : Task) : Prop :=
  match t with
  | Match640 session _ user => is_Some user → registered (users st) (sessionUserId session)
  | Match665 session _ _ _ => registered (users st) (sessionUserId session)
  | Match671 session _ _ _ opponentId _ opponent =>
      registered (users st) (sessionUserId session)
      ∧ (is_Some opponent → registered (users st) opponentId)
  | Match683 session _ opponentId _ player1Data =>
      registered (users st) (sessionUserId session) ∧ registered (users st) opponentId
      ∧ is_Some player1Data
  | Match684 session _ opponentId _ player1Data player2Data =>
      registered (users st) (sessionUserId session) ∧ registered (users st) opponentId
      ∧ is_Some player1Data ∧ is_Some player2Data
  | Match675 _ | Timeout713 _ _ _ | Timeout714 => True
  | Start741 _ _ activeGame | Start742 _ activeGame => is_Some (objects st !! activeGame)
  | Log813 ref k winnerUserData =>
      is_Some (objects st !! ref) ∧ safeCaller st k ∧ is_Some winnerUserData
  | Log814 ref k winnerUserData loserUserData =>
      is_Some (objects st !! ref) ∧ safeCaller st k
      ∧ is_Some winnerUserData ∧ is_Some loserUserData
  | Log829 ref k player1 =>
      is_Some (objects st !! ref) ∧ safeCaller st k ∧ is_Some player1
  | Log830 ref k player1 player2 =>
      is_Some (objects st !! ref) ∧ safeCaller st k ∧ is_Some player1 ∧ is_Some player2
  | Log821 ref k _ | Log822 ref k | Log846 ref k _ _ _ | Log847 ref k _ _ | Log849 ref k _ =>
      is_Some (objects st !! ref) ∧ safeCaller st k
  | Log850 k => safeCaller st k
  end.

(** Rows and objects are never removed. *)
Definition extends (st st' : State) : Prop :=
  (∀ id, registered (users st) id → registered (users st') id)
  ∧ (∀ ref, is_Some (objects st !! ref) → is_Some (objects st' !! ref)).

(** No balance is negative, and nothing stored or in flight will write a
    negative one: stakes are positive, and a refund restores a balance
    that was not negative. *)
Definition positiveStakes (g : PendingGame) : Prop := 0 < player1Bet g ∧ 0 < player2Bet g.

Definition solventState (st : State) : Prop :=
  (∀ id u, users st !! id = Some u → 0 ≤ points u)
  ∧ (∀ k e, (k, e) ∈ matchingLobby st → 0 < bet e)
  ∧ (∀ k g, pendingGames st !! k = Some g → positiveStakes g)
  ∧ (∀ ref a, objects st !! ref = Some a → positiveStakes (game a))
  ∧ (∀ id session user totalCost ms,
       timers st !! id = Some (LobbyTimeout session user totalCost, ms) →
       0 ≤ points user + totalCost).

Definition solventRead (user : option UserData) : Prop :=
  ∀ u, user = Some u → 0 ≤ points u.

Definition solventTask (t : Task) : Prop :=
  match t with
  | Match640 _ _ user => solventRead user
  | Match665 _ stake user totalCost => 0 < stake ∧ 0 ≤ totalCost ≤ points user
  | Match671 _ stake user totalCost _ opponentLobbyData _ =>
      0 < stake ∧ 0 ≤ points user + totalCost ∧ 0 < bet opponentLobbyData
  | Match683 _ stake _ opponentLobbyData _ | Match684 _ stake _ opponentLobbyData _ _ =>
      0 < stake ∧ 0 < bet opponentLobbyData
  | Timeout713 _ user totalCost => 0 ≤ points user + totalCost
  | Log829 _ _ player1 => solventRead player1
  | Log830 _ _ player1 player2 => solventRead player1 ∧ solventRead player2
  | Log846 _ _ player2 _ _ => 0 ≤ points player2
  | _ => True
  end.

(** The command comes from a session that has a user id. *)
Definition identified (c : Command) : Prop :=
  match c with
  | Cmd_match session _ => truthy (sessionUserId session) = true
  | Cmd_start _ => True
  end.

(** At most one player waits, under a user id that is not empty. *)
Definition singleLobby (st : State) : Prop :=
  (length (matchingLobby st) ≤ 1)%nat
  ∧ ∀ k e, (k, e) ∈ matchingLobby st → truthy k = true.

Definition identifiedTask (t : Task) : Prop :=
  match t with
  | Match640 session _ _ | Match665 session _ _ _ => truthy (sessionUserId session) = true
  | _ => True
  end.

(** Since the plugin was loaded the ledger has the same rows, changed in
    their points only. *)
Definition pointsOnly (db : gmap string UserData) (st : State) : Prop :=
  ∀ id, match db !! id, users st !! id with
        | Some u0, Some u => u = withPoints (points u) u0
        | None, None => True
        | _, _ => False
        end.

(** Everybody in the lobby has a row, and nobody has been told of a stale
    opponent. *)
Definition residentsRegistered (st : State) : Prop :=
  (∀ k e, (k, e) ∈ matchingLobby st → registered (users st) k)
  ∧ ∀ caller, Returned caller MsgStaleOpponent ∉ outbox st.

(** A 对对碰匹配 handler on its way: the caller has a row, the opponent's
    row has been found, the stale branch has not been taken. *)
Definition pairingTask (st : State) (t : Task) : Prop :=
  match t with
  | Match640 session _ user => is_Some user → registered (users st) (sessionUserId session)
  | Match665 session _ _ _ => registered (users st) (sessionUserId session)
  | Match671 _ _ _ _ _ _ opponent => is_Some opponent
  | Match675 _ => False
  | _ => True
  end.

(** Every entry of the lobby is stored under its player's id and has its
    timeout armed; the timer an [ActiveGame] object names is not a lobby
    timeout.  Timer handles are below [nextTimer]. *)
Definition timedLobby (st : State) : Prop :=
  (∀ k e, (k, e) ∈ matchingLobby st →
     sessionUserId (session e) = k ∧ (timeoutId e < nextTimer st)%nat
     ∧ ∃ user totalCost,
         timers st !! timeoutId e
         = Some (LobbyTimeout (session e) user totalCost, LOBBY_TIMEOUT_MS))
  ∧ (∀ ref a, objects st !! ref = Some a →
       (intervalId a < nextTimer st)%nat
       ∧ ∀ session user totalCost ms,
           timers st !! intervalId a ≠ Some (LobbyTimeout session user totalCost, ms)).

(** A pairing handler that holds an entry it has read from the lobby: the
    timer of that entry belongs to no entry of another player. *)
Definition timedTask (st : State) (t : Task) : Prop :=
  match t with
  | Match671 _ _ _ _ opponentId opponentLobbyData _ =>
      (timeoutId opponentLobbyData < nextTimer st)%nat
      ∧ ∀ k e, (k, e) ∈ matchingLobby st →
               timeoutId e = timeoutId opponentLobbyData → k = opponentId
  | _ => True
  end.

(** Entries that come into the lobby carry fresh timers. *)
Definition lobbyGrows (st st' : State) : Prop :=
  (nextTimer st ≤ nextTimer st')%nat
  ∧ ∀ k e, (k, e) ∈ matchingLobby st' →
           (k, e) ∈ matchingLobby st ∨ (nextTimer st ≤ timeoutId e)%nat.

(** A game has two different players. *)
Definition twoPlayers (st : State) : Prop :=
  (∀ k g, pendingGames st !! k = Some g → player1Id g ≠ player2Id g)
  ∧ ∀ ref a, objects st !! ref = Some a → player1Id (game a) ≠ player2Id (game a).

(** ** More concrete data *)

(** D checked in last on 01-01: level 1 with 30 experience, six check-ins. *)
Definition dave : UserData := mkUserData "D" "dave" (Some "01-01"%string) 7 1 30 6.
Definition ledgerD : gmap string UserData := <["D"%string := dave]> ledger0.
Definition sessionD : Session := mkSession "D" 4.

(** The ledger of A, B and D, nobody playing; the draws to come are 1/2
    and 1/4. *)
Definition idle : State := state (boot ledgerD [1 # 2; 1 # 4]%Q).

(** Development mode, no special dates. *)
Definition developing : Config := mkConfig [] true.

(** * Proofs *)

(** ** The lobby map *)

Lemma Map_has_elem_of {V} (k : string) (m : list (string * V)) :
  Map_has k m = true ↔ k ∈ m.*1.
Proof.
  induction m as [|[k' v] m IH]; simpl.
  - split; [discriminate | intros H; inversion H].
  - case_decide as Hk.
    + subst. split; [intros _; left | done].
    + rewrite IH. split; [by right |].
      intros H. inversion H; subst; [done | assumption].
Qed.

Lemma Map_has_delete {V} (k k' : string) (m : list (string * V)) :
  Map_has k (Map_delete k' m) = if decide (k' = k) then false else Map_has k m.
Proof.
  induction m as [|[k0 v] m IH]; simpl.
  - by case_decide.
  - repeat (case_decide; simpl; subst); try done; try congruence.
    all: rewrite IH; case_decide; congruence.
Qed.

Lemma Map_has_delete_same {V} (k : string) (m : list (string * V)) :
  Map_has k (Map_delete k m) = false.
Proof. rewrite Map_has_delete. by rewrite decide_True. Qed.

Lemma Map_has_set {V} (k k' : string) (v : V) (m : list (string * V)) :
  Map_has k (Map_set k' v m) = if decide (k' = k) then true else Map_has k m.
Proof.
  induction m as [|[k0 v0] m IH]; simpl.
  - done.
  - repeat (case_decide; simpl; subst); try done; try congruence.
    all: rewrite IH; case_decide; congruence.
Qed.

Lemma elem_of_Map_delete {V} (k k' : string) (v : V) (m : list (string * V)) :
  (k, v) ∈ Map_delete k' m → (k, v) ∈ m.
Proof.
  induction m as [|[k0 v0] m IH]; simpl; [done|].
  case_decide as Hk.
  - intros Hin. right. by apply IH.
  - intros Hin. apply elem_of_cons in Hin as [Hin|Hin]; [rewrite Hin; left|right; by apply IH].
Qed.

Lemma elem_of_Map_set {V} (k k' : string) (v v' : V) (m : list (string * V)) :
  (k, v) ∈ Map_set k' v' m → (k, v) ∈ m ∨ v = v'.
Proof.
  induction m as [|[k0 v0] m IH]; simpl.
  - intros Hin. apply list_elem_of_singleton in Hin. right. congruence.
  - case_decide as Hk.
    + intros Hin. apply elem_of_cons in Hin as [Hin|Hin]; [right; congruence|left; by right].
    + intros Hin. apply elem_of_cons in Hin as [Hin|Hin]; [left; rewrite Hin; left|].
      destruct (IH Hin); [left; by right|by right].
Qed.

Lemma Map_delete_length {V} (k : string) (m : list (string * V)) :
  (length (Map_delete k m) ≤ length m)%nat.
Proof.
  induction m as [|[k0 v0] m IH]; simpl; [done|]. case_decide; simpl; lia.
Qed.

Lemma elem_of_Map_set_key {V} (k k' : string) (v v' : V) (m : list (string * V)) :
  (k, v) ∈ Map_set k' v' m → (k, v) ∈ m ∨ (k = k' ∧ v = v').
Proof.
  induction m as [|[k0 v0] m IH]; simpl.
  - intros Hin. apply list_elem_of_singleton in Hin. right. by injection Hin.
  - case_decide as Hk.
    + intros Hin. apply elem_of_cons in Hin as [Hin|Hin].
      * right. by injection Hin.
      * left. by right.
    + intros Hin. apply elem_of_cons in Hin as [Hin|Hin]; [left; rewrite Hin; left|].
      destruct (IH Hin) as [?|?]; [left; by right|by right].
Qed.

Lemma elem_of_Map_delete_ne {V} (k k' : string) (v : V) (m : list (string * V)) :
  (k, v) ∈ Map_delete k' m → k ≠ k'.
Proof.
  induction m as [|[k0 v0] m IH]; simpl; [by intros Hin; inversion Hin|].
  case_decide as Hk; [done|].
  intros Hin. apply elem_of_cons in Hin as [Hin|Hin]; [|by apply IH].
  injection Hin as -> _. congruence.
Qed.

Lemma elem_of_Map_has {V} (k : string) (v : V) (m : list (string * V)) :
  (k, v) ∈ m → Map_has k m = true.
Proof.
  intros Hin. apply Map_has_elem_of. apply list_elem_of_fmap. by exists (k, v).
Qed.


Lemma emit_unchanged (e : Event) (st : State) : unchanged st (emit e st).
Proof. by repeat split. Qed.

(** ** The confirmation gate *)

(** A call of 开始对对碰 that finds a game whose [player1Id] is the caller
    promotes it. *)
Lemma startGame_accepts (st : State) (initiator : Session) (g : PendingGame) :
  pendingGames st !! sessionUserId initiator = Some g →
  player1Id g = sessionUserId initiator →
  ∃ st', invoke (Cmd_start initiator) st
         = (st', Some (Start741 initiator g (nextObject st)))
    ∧ pendingGames st' = delete (sessionUserId initiator) (pendingGames st)
    ∧ activeGames st' = <[sessionUserId initiator := nextObject st]> (activeGames st)
    ∧ objects st' !! nextObject st = Some (mkActiveGame g 0 (nextTimer st)).
Proof.
  intros Hg H1. simpl. unfold startGame. rewrite Hg.
  rewrite decide_True by done. simpl.
  eexists. split; [reflexivity|]. simpl.
  repeat split. by rewrite lookup_insert_eq.
Qed.

(** C4: only the initiator of a pending game can confirm its start.  A
    caller with no pending game under their id, or whose id is not the
    [player1Id] of the game found there, gets the "no pending game" answer
    and nothing but the outbox changes; after that call every pending game
    is still stored as it was, and its initiator's call is accepted. *)
Theorem C4_confirm_gate (st : State) (caller : Session) :
  (∀ g, pendingGames st !! sessionUserId caller = Some g →
        player1Id g ≠ sessionUserId caller) →
  let st' := emit (Returned caller MsgNoPendingGame) st in
  invoke (Cmd_start caller) st = (st', None)
  ∧ unchanged st st'
  ∧ ∀ (initiator : Session) (g : PendingGame),
      pendingGames st !! sessionUserId initiator = Some g →
      player1Id g = sessionUserId initiator →
      pendingGames st' !! sessionUserId initiator = Some g
      ∧ ∃ st'', invoke (Cmd_start initiator) st'
                = (st'', Some (Start741 initiator g (nextObject st)))
          ∧ pendingGames st'' !! sessionUserId initiator = None
          ∧ activeGames st'' !! sessionUserId initiator = Some (nextObject st).
Proof.
  intros Hno st'. split; [|split].
  - simpl. unfold startGame.
    destruct (pendingGames st !! sessionUserId caller) as [g|] eqn:Hg; [|done].
    rewrite decide_False; [done|]. by apply Hno.
  - apply emit_unchanged.
  - intros initiator g Hg H1. split; [exact Hg|].
    destruct (startGame_accepts st' initiator g Hg H1) as (st'' & Hrun & Hp & Ha & _).
    exists st''. split; [exact Hrun|]. rewrite Hp, Ha. split.
    + apply lookup_delete_eq.
    + apply lookup_insert_eq.
Qed.

(** ** The membership check and the stores *)

Lemma alreadyInGame_true (id : string) (st : State) :
  alreadyInGame id st = true ↔
    inLobby id st
    ∨ is_Some (pendingGames st !! id)
    ∨ is_Some (activeGames st !! id)
    ∨ (∃ k g, pendingGames st !! k = Some g ∧ player2Id g = id)
    ∨ (∃ k ref a, activeGames st !! k = Some ref ∧ objects st !! ref = Some a
                  ∧ player2Id (game a) = id).
Proof.
  unfold alreadyInGame, inLobby.
  rewrite !orb_true_iff, !bool_decide_eq_true, Map_has_elem_of.
  unfold map_Exists, player2Of. split.
  - intros [[[[H|H]|H]|H]|H]; auto.
    destruct H as (k & ref & Hk & Hp). do 4 right. exists k, ref.
    destruct (objects st !! ref) as [a|] eqn:Ha; simpl in Hp; [|done].
    exists a. split; [done|]. split; [done|]. congruence.
  - intros [H|[H|[H|[H|H]]]]; auto.
    destruct H as (k & ref & a & Hk & Ha & Hp). right. exists k, ref.
    split; [done|]. rewrite Ha. simpl. congruence.
Qed.

(** Where games are stored under their [player1Id], the check of line 660
    finds every participant. *)
Lemma participant_alreadyInGame (id : string) (st : State) :
  keyed st → participant id st → alreadyInGame id st = true.
Proof.
  intros (Hp & Ha & _) Hpart. apply alreadyInGame_true.
  destruct Hpart as [H|[H|H]]; [by left| |].
  - destruct H as (k & g & Hk & [H1|H2]).
    + right. left. rewrite <- H1, (Hp k g Hk). by rewrite Hk.
    + do 3 right. left. eauto.
  - destruct H as (k & ref & a & Hk & Hr & [H1|H2]).
    + do 2 right. left. destruct (Ha k ref Hk) as (a' & Hr' & Hk').
      rewrite Hr in Hr'. injection Hr' as <-. rewrite <- H1, Hk'. by rewrite Hk.
    + do 4 right. eauto 10.
Qed.

(** ** Games are stored under their [player1Id] in every reachable state *)

Section Keyed.

Variables (pend : gmap string PendingGame) (act : gmap string nat)
          (objs : gmap nat ActiveGame) (nobj : nat).
Hypothesis Hp : ∀ k g, pend !! k = Some g → player1Id g = k.
Hypothesis Ha : ∀ k ref, act !! k = Some ref →
                  ∃ a, objs !! ref = Some a ∧ player1Id (game a) = k.
Hypothesis Hf : ∀ ref, is_Some (objs !! ref) → (ref < nobj)%nat.

Lemma keyed_pending_insert (k0 : string) (g0 : PendingGame) :
  player1Id g0 = k0 →
  ∀ k g, <[k0 := g0]> pend !! k = Some g → player1Id g = k.
Proof.
  intros H0 k g. rewrite lookup_insert. case_decide; [|apply Hp].
  intros [= <-]. congruence.
Qed.

Lemma keyed_pending_delete (k0 : string) :
  ∀ k g, delete k0 pend !! k = Some g → player1Id g = k.
Proof. intros k g. rewrite lookup_delete. case_decide; [done|apply Hp]. Qed.

Lemma keyed_active_delete (k0 : string) :
  ∀ k ref, delete k0 act !! k = Some ref →
    ∃ a, objs !! ref = Some a ∧ player1Id (game a) = k.
Proof. intros k ref. rewrite lookup_delete. case_decide; [done|apply Ha]. Qed.

(** Updating [logCount] or [intervalId] of an object keeps its game. *)
Lemma keyed_object_update (r : nat) (a a' : ActiveGame) :
  objs !! r = Some a → game a' = game a →
  (∀ k ref, act !! k = Some ref →
     ∃ x, <[r := a']> objs !! ref = Some x ∧ player1Id (game x) = k)
  ∧ (∀ ref, is_Some (<[r := a']> objs !! ref) → (ref < nobj)%nat).
Proof.
  intros Hr Hg. split.
  - intros k ref Hk. destruct (Ha k ref Hk) as (x & Hx & Hk').
    rewrite lookup_insert. case_decide; [|eauto]. subst.
    exists a'. split; [done|]. rewrite Hg. congruence.
  - intros ref. rewrite lookup_insert. case_decide; [|apply Hf].
    subst. intros _. apply Hf. eauto.
Qed.

Lemma keyed_object_alter (r : nat) (f : ActiveGame → ActiveGame) :
  (∀ a, game (f a) = game a) →
  (∀ k ref, act !! k = Some ref →
     ∃ x, alter f r objs !! ref = Some x ∧ player1Id (game x) = k)
  ∧ (∀ ref, is_Some (alter f r objs !! ref) → (ref < nobj)%nat).
Proof.
  intros Hg. split.
  - intros k ref Hk. destruct (Ha k ref Hk) as (x & Hx & Hk').
    rewrite lookup_alter. case_decide; [|eauto]. subst.
    rewrite Hx. simpl. exists (f x). by rewrite Hg.
  - intros ref. rewrite lookup_alter. case_decide; [|apply Hf].
    subst. intros [x Hx]. apply Hf.
    destruct (objs !! ref); [eauto|done].
Qed.

(** Line 739: a new object under the caller's key. *)
Lemma keyed_promote (k0 : string) (a0 : ActiveGame) :
  player1Id (game a0) = k0 →
  (∀ k ref, <[k0 := nobj]> act !! k = Some ref →
     ∃ x, <[nobj := a0]> objs !! ref = Some x ∧ player1Id (game x) = k)
  ∧ (∀ ref, is_Some (<[nobj := a0]> objs !! ref) → (ref < S nobj)%nat).
Proof.
  intros H0. split.
  - intros k ref. rewrite lookup_insert. case_decide.
    + intros [= <-]. subst. exists a0. by rewrite lookup_insert_eq.
    + intros Hk. destruct (Ha k ref Hk) as (x & Hx & Hk').
      exists x. split; [|done]. rewrite lookup_insert_ne; [done|].
      intros <-. assert (nobj < nobj)%nat by (apply Hf; eauto). lia.
  - intros ref. rewrite lookup_insert. case_decide; [lia|].
    intros Hs. apply Hf in Hs. lia.
Qed.

End Keyed.

Lemma resume_keyed (t : Task) (st : State) : keyed st → keyed (resume t st).1.
Proof.
  destruct st as [us lobby pend act objs nobj tims ntim tape out].
  unfold keyed. simpl. intros (Hp & Ha & Hf).
  destruct t; simpl; unfold throw, reply, settle, enterLobby, sendBattleLog; simpl;
    repeat (case_match; simpl); simplify_eq/=; try (split_and!; assumption).
  - split; [|done]. by apply keyed_pending_insert.
  - split; [|done]. by apply keyed_pending_insert.
  - split; [done|]. by eapply keyed_object_update.
  - split_and!; try done. by apply keyed_active_delete.
  - split; [done|]. by apply keyed_object_alter.
  - split; [done|]. by apply keyed_object_alter.
Qed.

Lemma invoke_keyed (c : Command) (st : State) : keyed st → keyed (invoke c st).1.
Proof.
  destruct st as [us lobby pend act objs nobj tims ntim tape out].
  unfold keyed. simpl. intros (Hp & Ha & Hf).
  destruct c; simpl; [done|]. unfold startGame, reply. simpl.
  repeat (case_match; simpl); simplify_eq/=; try (split_and!; assumption).
  split; [by apply keyed_pending_delete|]. by apply keyed_promote.
Qed.

Lemma fire_keyed (id : nat) (st : State) : keyed st → keyed (fire id st).1.
Proof.
  destruct st as [us lobby pend act objs nobj tims ntim tape out].
  unfold keyed. simpl. intros (Hp & Ha & Hf).
  unfold fire, lobbyTimeout, sendBattleLog, throw. simpl.
  repeat (case_match; simpl); simplify_eq/=; try (split_and!; assumption).
  split; [done|]. by eapply keyed_object_update.
Qed.

Lemma exec_keyed (s : System) (a : Action) : keyed (state s) → keyed (state (exec s a)).
Proof.
  intros H. destruct a as [c|id|i]; simpl.
  - pose proof (invoke_keyed c _ H) as H'. by destruct (invoke c (state s)).
  - pose proof (fire_keyed id _ H) as H'. by destruct (fire id (state s)).
  - destruct (tasks s !! i) as [[t|]|]; try done.
    pose proof (resume_keyed t _ H) as H'. by destruct (resume t (state s)).
Qed.

Lemma run_keyed (schedule : list Action) (s : System) :
  keyed (state s) → keyed (state (run s schedule)).
Proof.
  revert s. induction schedule as [|a l IH]; intros s H; [done|].
  simpl. apply IH. by apply exec_keyed.
Qed.

Lemma reachable_keyed (s : System) : reachable s → keyed (state s).
Proof.
  intros (db & tape & schedule & ->). apply run_keyed. simpl.
  unfold keyed. simpl. split_and!.
  - intros k g. by rewrite lookup_empty.
  - intros k ref. by rewrite lookup_empty.
  - intros ref. rewrite lookup_empty. by intros [? ?].
Qed.

(** ** Rejected enqueue calls *)


(** ** The winner is drawn at pairing time *)




(** ** Escrow, stale opponents and the lobby timeout *)

(** A debit followed by the matching absolute refund leaves the ledger as
    it was read. *)
Lemma refund_restores (db : gmap string UserData) (id : string) (user : UserData) (c : Z) :
  db !! id = Some user →
  alter (withPoints (points (withPoints (points user - c) user) + c)) id
        (alter (withPoints (points user - c)) id db) = db.
Proof.
  intros H. apply map_eq. intros k. destruct (decide (id = k)) as [<-|Hne].
  - rewrite !lookup_alter_eq, H. simpl. f_equal.
    destruct user. unfold withPoints. simpl. f_equal. lia.
  - by rewrite !lookup_alter_ne.
Qed.

Lemma complete_plus (n m : nat) (r : State * option Task) :
  complete (n + m) r = complete m (complete n r).
Proof.
  revert r. induction n as [|n IH]; intros [st [t|]]; simpl; try done.
  by destruct m.
Qed.

(** The checks of lines 642-662 pass: the escrow is written and the
    handler yields at line 665, before it has looked at the lobby. *)
Lemma enqueue_debits (st : State) (caller : Session) (stake : Z) (user : UserData) :
  users st !! sessionUserId caller = Some user →
  0 < stake → stake + DEPOSIT ≤ points user →
  alreadyInGame (sessionUserId caller) st = false →
  complete 1 (invoke (Cmd_match caller (Some stake)) st)
  = (database_set_points (sessionUserId caller) (points user - (stake + DEPOSIT)) st,
     Some (Match665 caller stake user (stake + DEPOSIT))).
Proof.
  intros Hu Hs Hc Hin. simpl. unfold database_get. rewrite Hu.
  destruct (Z.leb_spec stake 0); [lia|].
  destruct (Z.ltb_spec (points user) (stake + DEPOSIT)); [lia|].
  by rewrite Hin.
Qed.

(** C8: the opponent found in the lobby has no ledger record.  The handler
    has escrowed the caller's stake + deposit and awaits the read of line
    671; run to its end it drops the opponent's entry, writes the caller's
    balance back and returns the stale-opponent text.  The ledger is then as
    it was before the call (the caller is refunded in full, the opponent,
    who has no record, gets nothing), no pending or active game is created,
    and the only output is the text returned to the caller: nothing is sent
    to the opponent, whose timer stays armed. *)
Theorem C8_stale_opponent (st : State) (caller : Session) (stake : Z) (user : UserData)
    (opponentId : string) (entry : LobbyPlayer) (rest : list (string * LobbyPlayer)) :
  users st !! sessionUserId caller = Some user →
  0 < stake → stake + DEPOSIT ≤ points user →
  alreadyInGame (sessionUserId caller) st = false →
  matchingLobby st = (opponentId, entry) :: rest →
  truthy opponentId = true →
  users st !! opponentId = None →
  ∃ escrowed st',
    complete 2 (invoke (Cmd_match caller (Some stake)) st)
      = (escrowed, Some (Match671 caller stake
                           (withPoints (points user - (stake + DEPOSIT)) user)
                           (stake + DEPOSIT) opponentId entry None))
    ∧ pointsOf (sessionUserId caller) escrowed = Some (points user - (stake + DEPOSIT))
    ∧ handle (Cmd_match caller (Some stake)) st = (st', None)
    ∧ users st' = users st
    ∧ matchingLobby st' = Map_delete opponentId (matchingLobby st)
    ∧ Map_has opponentId (matchingLobby st') = false
    ∧ pendingGames st' = pendingGames st
    ∧ activeGames st' = activeGames st
    ∧ timers st' = timers st
    ∧ outbox st' = outbox st ++ [Returned caller MsgStaleOpponent].
Proof.
  intros Hu Hs Hc Hin Hl Ht Ho.
  pose proof (enqueue_debits st caller stake user Hu Hs Hc Hin) as E1.
  assert (complete 2 (invoke (Cmd_match caller (Some stake)) st)
          = (database_set_points (sessionUserId caller) (points user - (stake + DEPOSIT)) st,
             Some (Match671 caller stake
                     (withPoints (points user - (stake + DEPOSIT)) user)
                     (stake + DEPOSIT) opponentId entry None))) as E2.
  { rewrite (complete_plus 1 1), E1. simpl. rewrite Hl, Ht. unfold database_get. simpl.
    rewrite lookup_alter_ne; [by rewrite Ho|]. intros <-. congruence. }
  eexists _, _. split; [exact E2|]. split.
  { unfold pointsOf. simpl. rewrite lookup_alter_eq, Hu. done. }
  split.
  { unfold handle. rewrite (complete_plus 2 10), E2. reflexivity. }
  simpl. split; [by apply refund_restores|].
  split; [done|]. split; [|done].
  apply Map_has_delete_same.
Qed.

(** The lobby timeout callback on an entry that is still there. *)
Lemma expire_refunds (later : State) (id : nat) (session : Session) (user : UserData)
    (totalCost : Z) :
  timers later !! id = Some (LobbyTimeout session user totalCost, LOBBY_TIMEOUT_MS) →
  Map_has (sessionUserId session) (matchingLobby later) = true →
  expire id later
  = (emit (Sent session (MsgLobbyTimeout totalCost (points user + totalCost)))
       (database_set_points (sessionUserId session) (points user + totalCost)
          (set_matchingLobby (Map_delete (sessionUserId session)) (clearTimer id later))),
     None).
Proof.
  intros Ht Hl. unfold expire, fire. rewrite Ht. unfold lobbyTimeout.
  simpl. by rewrite Hl.
Qed.

(** C5: a call of 对对碰匹配 that finds nobody to pair with.  The escrow
    (stake + deposit) is written to the ledger in the first segment, before
    the lobby is looked at: the handler yields at line 665.  Run to its end,
    the handler has put the caller in the lobby, armed the timeout and
    returned the "entered" text.  When that timeout fires, at whatever later
    state in which the caller is still in the lobby, the callback removes
    the entry, writes the balance read before the enqueue back to the ledger
    and sends the timeout notice to the caller.  With [DEPOSIT = 2], stake
    10 on a balance of 50 gives 38 and then 50 again (see the instance
    below). *)
Theorem C5_escrow_and_timeout_refund (st : State) (caller : Session) (stake : Z)
    (user : UserData) :
  users st !! sessionUserId caller = Some user →
  0 < stake → stake + DEPOSIT ≤ points user →
  alreadyInGame (sessionUserId caller) st = false →
  (∀ o e, head (matchingLobby st) = Some (o, e) → truthy o = false) →
  let userId := sessionUserId caller in
  let totalCost := stake + DEPOSIT in
  let escrowed := withPoints (points user - totalCost) user in
  let id := nextTimer st in
  ∃ waiting,
    complete 1 (invoke (Cmd_match caller (Some stake)) st)
      = (database_set_points userId (points user - totalCost) st,
         Some (Match665 caller stake user totalCost))
    ∧ handle (Cmd_match caller (Some stake)) st = (waiting, None)
    ∧ users waiting !! userId = Some escrowed
    ∧ pointsOf userId waiting = Some (points user - totalCost)
    ∧ matchingLobby waiting
      = Map_set userId (mkLobbyPlayer stake caller id) (matchingLobby st)
    ∧ timers waiting !! id = Some (LobbyTimeout caller escrowed totalCost, LOBBY_TIMEOUT_MS)
    ∧ outbox waiting
      = outbox st ++ [Returned caller (MsgEnteredLobby stake (points user - totalCost))]
    ∧ ∀ later current,
        timers later !! id = Some (LobbyTimeout caller escrowed totalCost, LOBBY_TIMEOUT_MS) →
        Map_has userId (matchingLobby later) = true →
        users later !! userId = Some current →
        ∃ final,
          expire id later = (final, None)
          ∧ Map_has userId (matchingLobby final) = false
          ∧ timers final !! id = None
          ∧ pointsOf userId final = Some (points user)
          ∧ outbox final
            = outbox later ++ [Sent caller (MsgLobbyTimeout totalCost (points user))].
Proof.
  intros Hu Hs Hc Hin Hl userId totalCost escrowed id.
  subst userId totalCost escrowed id.
  pose proof (enqueue_debits st caller stake user Hu Hs Hc Hin) as E1.
  assert (resume (Match665 caller stake user (stake + DEPOSIT))
            (database_set_points (sessionUserId caller)
               (points user - (stake + DEPOSIT)) st)
          = enterLobby caller stake (withPoints (points user - (stake + DEPOSIT)) user)
              (stake + DEPOSIT)
              (database_set_points (sessionUserId caller)
                 (points user - (stake + DEPOSIT)) st)) as E2.
  { simpl. destruct (matchingLobby st) as [|[o e] l] eqn:El; [done|].
    by rewrite (Hl o e eq_refl). }
  eexists. split; [exact E1|]. split.
  { unfold handle. rewrite (complete_plus 1 11), E1.
    change (complete 11 (?s, Some ?t)) with (complete 10 (resume t s)).
    rewrite E2. reflexivity. }
  simpl. split; [by rewrite lookup_alter_eq, Hu|].
  split; [unfold pointsOf; simpl; by rewrite lookup_alter_eq, Hu|].
  split; [done|]. split; [apply lookup_insert_eq|]. split; [done|].
  intros later current Ht Hhas Hcur.
  rewrite (expire_refunds later _ caller _ _ Ht Hhas).
  eexists. split; [reflexivity|]. simpl.
  split; [apply Map_has_delete_same|]. split; [apply lookup_delete_eq|].
  replace (points user - (stake + DEPOSIT) + (stake + DEPOSIT)) with (points user) by lia.
  split; [|done]. unfold pointsOf. simpl. by rewrite lookup_alter_eq, Hcur.
Qed.

(** C10: both refunds write an absolute value.  [snapshot] is the record
    read at line 640 and [user] the same record after line 666; the timeout
    callback (armed on an empty lobby) and the stale-opponent branch (line
    675) both hold [user] and write [user.points + totalCost], which is the
    balance of [snapshot], whatever record [current] the ledger holds at
    that time.  So the stored balance becomes the balance of [snapshot], and
    whenever another operation has changed the balance since the escrow this
    differs from adding the refund to the stored balance. *)
Theorem C10_refund_is_absolute (caller : Session) (stake : Z)
    (snapshot current : UserData) (later : State) :
  users later !! sessionUserId caller = Some current →
  let userId := sessionUserId caller in
  let totalCost := stake + DEPOSIT in
  let user := withPoints (points snapshot - totalCost) snapshot in
  (∀ st0, matchingLobby st0 = [] →
     timers (resume (Match665 caller stake snapshot totalCost) st0).1 !! nextTimer st0
     = Some (LobbyTimeout caller user totalCost, LOBBY_TIMEOUT_MS))
  ∧ (∀ st0 o e rest, matchingLobby st0 = (o, e) :: rest → truthy o = true →
       (resume (Match665 caller stake snapshot totalCost) st0).2
       = Some (Match671 caller stake user totalCost o e (users st0 !! o)))
  ∧ (∀ id, timers later !! id = Some (LobbyTimeout caller user totalCost, LOBBY_TIMEOUT_MS) →
       Map_has userId (matchingLobby later) = true →
       users (fire id later).1 !! userId = Some (withPoints (points snapshot) current))
  ∧ (∀ opponentId entry,
       users (resume (Match671 caller stake user totalCost opponentId entry None) later).1
         !! userId = Some (withPoints (points snapshot) current))
  ∧ (points current ≠ points snapshot - totalCost →
       withPoints (points snapshot) current
       ≠ withPoints (points current + totalCost) current).
Proof.
  intros Hcur userId totalCost user. subst userId totalCost user.
  split_and!.
  - intros st0 Hl. simpl. rewrite Hl. simpl. apply lookup_insert_eq.
  - intros st0 o e rest Hl Ht. simpl. by rewrite Hl, Ht.
  - intros id Ht Hhas. unfold fire. rewrite Ht. unfold lobbyTimeout. simpl.
    rewrite Hhas. simpl. rewrite lookup_alter_eq, Hcur. simpl.
    f_equal. f_equal. lia.
  - intros opponentId entry. simpl.
    rewrite lookup_alter_eq, Hcur. simpl. f_equal. f_equal. lia.
  - intros Hne Heq. apply (f_equal points) in Heq. simpl in Heq. lia.
Qed.

Lemma alreadyInGame_lobby (id : string) (st : State) :
  alreadyInGame id st = false → Map_has id (matchingLobby st) = false.
Proof.
  unfold alreadyInGame. destruct (Map_has id (matchingLobby st)); [done|done].
Qed.

Lemma enqueue_pairs (st : State) (caller : Session) (stake : Z) (user resident : UserData)
    (opponentId : string) (entry : LobbyPlayer) (rest : list (string * LobbyPlayer)) :
  users st !! sessionUserId caller = Some user →
  0 < stake → stake + DEPOSIT ≤ points user →
  alreadyInGame (sessionUserId caller) st = false →
  matchingLobby st = (opponentId, entry) :: rest →
  truthy opponentId = true →
  users st !! opponentId = Some resident →
  handle (Cmd_match caller (Some stake)) st
  = (mkState
       (alter (withPoints (points user - (stake + DEPOSIT))) (sessionUserId caller) (users st))
       (Map_delete opponentId rest)
       (<[opponentId :=
            mkPendingGame opponentId (sessionUserId caller) (session entry) caller
              (bet entry) stake
              (if Qltb (hd 0%Q (random st))
                       ((1 # 2) + inject_Z (lv resident - lv user) * (5 # 100))
               then opponentId else sessionUserId caller)]> (pendingGames st))
       (activeGames st) (objects st) (nextObject st)
       (delete (timeoutId entry) (timers st)) (nextTimer st)
       (tl (random st))
       (outbox st ++ [Sent (session entry) (MsgMatchedPlayer1 (username user));
                      Sent caller (MsgMatchedPlayer2 (username resident));
                      Returned caller MsgMatched]),
     None).
Proof.
  intros Hu Hs Hc Hin Hl Ht Ho.
  assert (opponentId ≠ sessionUserId caller) as Hne.
  { apply alreadyInGame_lobby in Hin. rewrite Hl in Hin. simpl in Hin.
    by case_decide. }
  unfold handle. rewrite (complete_plus 1 11), (enqueue_debits st caller stake user Hu Hs Hc Hin).
  destruct entry as [opponentBet opponentSession tid].
  simpl. rewrite Hl, Ht. simpl. unfold database_get. simpl.
  rewrite lookup_alter_ne by congruence. rewrite Ho. simpl.
  unfold database_get. simpl. rewrite lookup_alter_eq, Hu. simpl.
  rewrite Hl. simpl. rewrite decide_True by done.
  unfold reply, emit. simpl. rewrite <- !app_assoc. reflexivity.
Qed.

(** ** A battle, tick by tick *)

#[local] Arguments Z.leb : simpl never.
#[local] Arguments Z.ltb : simpl never.

(** Decides a comparison of two numerals. *)
Ltac compare_numerals :=
  match goal with
  | |- context [Z.leb ?a ?b] =>
      let v := eval vm_compute in (Z.leb a b) in
      match v with
      | true => change (Z.leb a b) with true
      | false => change (Z.leb a b) with false
      end
  end.

(** Runs a handler symbolically: unfolds the capabilities, reads the maps
    through the hypotheses at hand. *)
Ltac crank :=
  repeat first
    [ progress simpl
    | compare_numerals
    | progress unfold database_get, database_set_points, emit, reply, throw,
        clearTimer, set_activeGames, set_objects, set_users, set_timers,
        set_matchingLobby, set_pendingGames, settle, sendBattleLog, arm, alloc,
        Math_random, enterLobby, lobbyTimeout, startGame
    | rewrite lookup_insert_eq
    | rewrite decide_True by done
    | rewrite decide_False by congruence
    | match goal with
      | H : ?m !! ?k = _ |- context [?m !! ?k] => rewrite H
      | H : Z.leb ?a ?b = _ |- context [Z.leb ?a ?b] => rewrite H
      end ].

(** 开始对对碰 by the initiator, run to its end: the game is promoted and the
    first tick is broadcast; the interval is armed last. *)
Lemma start_first_tick (st : State) (initiator : Session) (g : PendingGame)
    (w l : UserData) :
  pendingGames st !! sessionUserId initiator = Some g →
  player1Id g = sessionUserId initiator →
  users st !! winnerId g = Some w →
  users st !! loserId g = Some l →
  handle (Cmd_start initiator) st
  = (mkState (users st) (matchingLobby st)
       (delete (sessionUserId initiator) (pendingGames st))
       (<[sessionUserId initiator := nextObject st]> (activeGames st))
       (<[nextObject st := mkActiveGame g 1 (S (nextTimer st))]> (objects st))
       (S (nextObject st))
       (<[S (nextTimer st) := (BattleInterval (nextObject st), BATTLE_LOG_INTERVAL_MS)]>
          (<[nextTimer st := (Placeholder, 0)]> (timers st)))
       (S (S (nextTimer st)))
       (tl (tl (random st)))
       (outbox st ++ [Sent (player1Session g) MsgBattleStart;
                      Sent (player2Session g) MsgBattleStart;
                      Sent (player1Session g) (logLine 1 w l (random st));
                      Sent (player2Session g) (logLine 1 w l (random st));
                      Returned initiator MsgBattleRunning]),
     None).
Proof.
  intros Hg H1 Hw Hl. unfold handle. crank.
  rewrite alter_insert_eq, !insert_insert_eq. simpl.
  rewrite <- !app_assoc. reflexivity.
Qed.

(** The interval fires before the last tick: one broadcast, nothing else. *)
Lemma tick_broadcasts (st : State) (id ref : nat) (a : ActiveGame) (w l : UserData) :
  timers st !! id = Some (BattleInterval ref, BATTLE_LOG_INTERVAL_MS) →
  objects st !! ref = Some a →
  logCount a + 1 < BATTLE_LOG_COUNT →
  users st !! winnerId (game a) = Some w →
  users st !! loserId (game a) = Some l →
  expire id st
  = (mkState (users st) (matchingLobby st) (pendingGames st) (activeGames st)
       (<[ref := mkActiveGame (game a) (logCount a + 1) (intervalId a)]> (objects st))
       (nextObject st) (timers st) (nextTimer st)
       (tl (tl (random st)))
       (outbox st
        ++ [Sent (player1Session (game a)) (logLine (logCount a + 1) w l (random st));
            Sent (player2Session (game a)) (logLine (logCount a + 1) w l (random st))]),
     None).
Proof.
  intros Ht Ha Hn Hw Hl. unfold expire, fire.
  assert ((BATTLE_LOG_COUNT <=? logCount a + 1) = false) as Hlt by (apply Z.leb_gt; lia).
  crank. rewrite <- !app_assoc. reflexivity.
Qed.

(** The interval fires for the last tick and [player1] is the winner: the
    broadcast, then the interval is cleared, the game leaves [activeGames],
    [player1] is credited and both results are sent. *)
Lemma tick_settles_player1 (st : State) (id ref : nat) (a : ActiveGame)
    (p1 p2 : UserData) :
  timers st !! id = Some (BattleInterval ref, BATTLE_LOG_INTERVAL_MS) →
  objects st !! ref = Some a →
  BATTLE_LOG_COUNT ≤ logCount a + 1 →
  winnerId (game a) = player1Id (game a) →
  users st !! player1Id (game a) = Some p1 →
  users st !! player2Id (game a) = Some p2 →
  expire id st
  = (mkState
       (alter (withPoints (points p2)) (player2Id (game a))
          (alter (withPoints (points p1 + (player2Bet (game a) + DEPOSIT)))
             (player1Id (game a)) (users st)))
       (matchingLobby st) (pendingGames st)
       (delete (player1Id (game a)) (activeGames st))
       (<[ref := mkActiveGame (game a) (logCount a + 1) (intervalId a)]> (objects st))
       (nextObject st) (delete (intervalId a) (timers st)) (nextTimer st)
       (tl (tl (random st)))
       (outbox st
        ++ [Sent (player1Session (game a)) (logLine (logCount a + 1) p1 p2 (random st));
            Sent (player2Session (game a)) (logLine (logCount a + 1) p1 p2 (random st));
            Sent (player1Session (game a))
              (MsgWon (username p1) (player2Bet (game a))
                 (points p1 + (player2Bet (game a) + DEPOSIT)));
            Sent (player2Session (game a))
              (MsgLost (username p2) (player2Bet (game a)) (points p2))]),
     None).
Proof.
  intros Ht Ha Hn Hw H1 H2. unfold expire, fire.
  assert ((BATTLE_LOG_COUNT <=? logCount a + 1) = true) as Hge by (apply Z.leb_le; lia).
  assert (users st !! winnerId (game a) = Some p1) as Hw' by (by rewrite Hw).
  assert (users st !! loserId (game a) = Some p2) as Hl'
    by (unfold loserId; by rewrite decide_True).
  crank. rewrite <- !app_assoc. reflexivity.
Qed.

(** The same when [player2] is the winner. *)
Lemma tick_settles_player2 (st : State) (id ref : nat) (a : ActiveGame)
    (p1 p2 : UserData) :
  timers st !! id = Some (BattleInterval ref, BATTLE_LOG_INTERVAL_MS) →
  objects st !! ref = Some a →
  BATTLE_LOG_COUNT ≤ logCount a + 1 →
  winnerId (game a) ≠ player1Id (game a) →
  winnerId (game a) = player2Id (game a) →
  users st !! player1Id (game a) = Some p1 →
  users st !! player2Id (game a) = Some p2 →
  expire id st
  = (mkState
       (alter (withPoints (points p2 + (player1Bet (game a) + DEPOSIT))) (player2Id (game a))
          (alter (withPoints (points p1)) (player1Id (game a)) (users st)))
       (matchingLobby st) (pendingGames st)
       (delete (player1Id (game a)) (activeGames st))
       (<[ref := mkActiveGame (game a) (logCount a + 1) (intervalId a)]> (objects st))
       (nextObject st) (delete (intervalId a) (timers st)) (nextTimer st)
       (tl (tl (random st)))
       (outbox st
        ++ [Sent (player1Session (game a)) (logLine (logCount a + 1) p2 p1 (random st));
            Sent (player2Session (game a)) (logLine (logCount a + 1) p2 p1 (random st));
            Sent (player1Session (game a))
              (MsgLost (username p1) (player1Bet (game a)) (points p1));
            Sent (player2Session (game a))
              (MsgWon (username p2) (player1Bet (game a))
                 (points p2 + (player1Bet (game a) + DEPOSIT)))]),
     None).
Proof.
  intros Ht Ha Hn Hw Hw2 H1 H2. unfold expire, fire.
  assert ((BATTLE_LOG_COUNT <=? logCount a + 1) = true) as Hge by (apply Z.leb_le; lia).
  assert (users st !! winnerId (game a) = Some p2) as Hw' by (by rewrite Hw2).
  assert (users st !! loserId (game a) = Some p1) as Hl'
    by (unfold loserId; by rewrite decide_False).
  crank. rewrite <- !app_assoc. reflexivity.
Qed.

(** The same facts on a state given by its fields, for chaining. *)
Section Fields.

Variables (us : gmap string UserData) (lb : list (string * LobbyPlayer))
          (pd : gmap string PendingGame) (ac : gmap string nat)
          (ob : gmap nat ActiveGame) (no : nat) (tm : gmap nat Timer) (nt : nat)
          (rd : list Q) (out : list Event).

Lemma start_first_tick_fields (initiator : Session) (g : PendingGame) (w l : UserData) :
  pd !! sessionUserId initiator = Some g →
  player1Id g = sessionUserId initiator →
  us !! winnerId g = Some w →
  us !! loserId g = Some l →
  handle (Cmd_start initiator) (mkState us lb pd ac ob no tm nt rd out)
  = (mkState us lb (delete (sessionUserId initiator) pd)
       (<[sessionUserId initiator := no]> ac)
       (<[no := mkActiveGame g 1 (S nt)]> ob) (S no)
       (<[S nt := (BattleInterval no, BATTLE_LOG_INTERVAL_MS)]>
          (<[nt := (Placeholder, 0)]> tm)) (S (S nt))
       (tl (tl rd))
       (out ++ [Sent (player1Session g) MsgBattleStart;
                Sent (player2Session g) MsgBattleStart;
                Sent (player1Session g) (logLine 1 w l rd);
                Sent (player2Session g) (logLine 1 w l rd);
                Returned initiator MsgBattleRunning]),
     None).
Proof. intros. by apply (start_first_tick (mkState us lb pd ac ob no tm nt rd out)). Qed.

Lemma tick_broadcasts_fields (id ref : nat) (g : PendingGame) (n : Z) (i : nat)
    (w l : UserData) :
  tm !! id = Some (BattleInterval ref, BATTLE_LOG_INTERVAL_MS) →
  ob !! ref = Some (mkActiveGame g n i) →
  n + 1 < BATTLE_LOG_COUNT →
  us !! winnerId g = Some w →
  us !! loserId g = Some l →
  expire id (mkState us lb pd ac ob no tm nt rd out)
  = (mkState us lb pd ac (<[ref := mkActiveGame g (n + 1) i]> ob) no tm nt (tl (tl rd))
       (out ++ [Sent (player1Session g) (logLine (n + 1) w l rd);
                Sent (player2Session g) (logLine (n + 1) w l rd)]),
     None).
Proof.
  intros.
  by apply (tick_broadcasts (mkState us lb pd ac ob no tm nt rd out) id ref
              (mkActiveGame g n i)).
Qed.

Lemma tick_settles_player1_fields (id ref : nat) (g : PendingGame) (n : Z) (i : nat)
    (p1 p2 : UserData) :
  tm !! id = Some (BattleInterval ref, BATTLE_LOG_INTERVAL_MS) →
  ob !! ref = Some (mkActiveGame g n i) →
  BATTLE_LOG_COUNT ≤ n + 1 →
  winnerId g = player1Id g →
  us !! player1Id g = Some p1 →
  us !! player2Id g = Some p2 →
  expire id (mkState us lb pd ac ob no tm nt rd out)
  = (mkState
       (alter (withPoints (points p2)) (player2Id g)
          (alter (withPoints (points p1 + (player2Bet g + DEPOSIT))) (player1Id g) us))
       lb pd (delete (player1Id g) ac)
       (<[ref := mkActiveGame g (n + 1) i]> ob) no (delete i tm) nt (tl (tl rd))
       (out ++ [Sent (player1Session g) (logLine (n + 1) p1 p2 rd);
                Sent (player2Session g) (logLine (n + 1) p1 p2 rd);
                Sent (player1Session g)
                  (MsgWon (username p1) (player2Bet g) (points p1 + (player2Bet g + DEPOSIT)));
                Sent (player2Session g) (MsgLost (username p2) (player2Bet g) (points p2))]),
     None).
Proof.
  intros.
  by apply (tick_settles_player1 (mkState us lb pd ac ob no tm nt rd out) id ref
              (mkActiveGame g n i)).
Qed.

Lemma tick_settles_player2_fields (id ref : nat) (g : PendingGame) (n : Z) (i : nat)
    (p1 p2 : UserData) :
  tm !! id = Some (BattleInterval ref, BATTLE_LOG_INTERVAL_MS) →
  ob !! ref = Some (mkActiveGame g n i) →
  BATTLE_LOG_COUNT ≤ n + 1 →
  winnerId g ≠ player1Id g →
  winnerId g = player2Id g →
  us !! player1Id g = Some p1 →
  us !! player2Id g = Some p2 →
  expire id (mkState us lb pd ac ob no tm nt rd out)
  = (mkState
       (alter (withPoints (points p2 + (player1Bet g + DEPOSIT))) (player2Id g)
          (alter (withPoints (points p1)) (player1Id g) us))
       lb pd (delete (player1Id g) ac)
       (<[ref := mkActiveGame g (n + 1) i]> ob) no (delete i tm) nt (tl (tl rd))
       (out ++ [Sent (player1Session g) (logLine (n + 1) p2 p1 rd);
                Sent (player2Session g) (logLine (n + 1) p2 p1 rd);
                Sent (player1Session g) (MsgLost (username p1) (player1Bet g) (points p1));
                Sent (player2Session g)
                  (MsgWon (username p2) (player1Bet g) (points p2 + (player1Bet g + DEPOSIT)))]),
     None).
Proof.
  intros.
  by apply (tick_settles_player2 (mkState us lb pd ac ob no tm nt rd out) id ref
              (mkActiveGame g n i)).
Qed.

End Fields.

(** A confirmed game with every handler run to its end before the next
    starts: 开始对对碰 broadcasts the first tick before it arms the interval
    and returns; the interval then fires four times, each firing one
    broadcast headed (n/5); the fifth broadcast is followed by the one pair
    of result messages, the interval is cleared and the game has left
    [activeGames]; a further firing does nothing. *)
Lemma battle_runs_five_ticks (st : State) (initiator : Session) (g : PendingGame)
    (p1 p2 : UserData) :
  pendingGames st !! sessionUserId initiator = Some g →
  player1Id g = sessionUserId initiator →
  winnerId g = player1Id g ∨ winnerId g = player2Id g →
  users st !! player1Id g = Some p1 →
  users st !! player2Id g = Some p2 →
  let ref := nextObject st in
  let interval := S (nextTimer st) in
  let p1wins := bool_decide (winnerId g = player1Id g) in
  let w := if p1wins then p1 else p2 in
  let l := if p1wins then p2 else p1 in
  let to1 := Sent (player1Session g) in
  let to2 := Sent (player2Session g) in
  let tape (n : nat) := Nat.iter n (λ t, tl (tl t)) (random st) in
  ∃ first st1 st2 st3 st4 st5,
    complete 5 (invoke (Cmd_start initiator) st)
      = (first, Some (Log822 ref (StartAwaits initiator ref)))
    ∧ outbox first = outbox st ++ [to1 MsgBattleStart; to2 MsgBattleStart;
                                   to1 (logLine 1 w l (tape 0%nat));
                                   to2 (logLine 1 w l (tape 0%nat))]
    ∧ timers first = <[nextTimer st := (Placeholder, 0)]> (timers st)
    ∧ handle (Cmd_start initiator) st = (st1, None)
    ∧ outbox st1 = outbox first ++ [Returned initiator MsgBattleRunning]
    ∧ timers st1 = <[interval := (BattleInterval ref, BATTLE_LOG_INTERVAL_MS)]> (timers first)
    ∧ expire interval st1 = (st2, None)
    ∧ outbox st2 = outbox st1 ++ [to1 (logLine 2 w l (tape 1%nat));
                                  to2 (logLine 2 w l (tape 1%nat))]
    ∧ expire interval st2 = (st3, None)
    ∧ outbox st3 = outbox st2 ++ [to1 (logLine 3 w l (tape 2%nat));
                                  to2 (logLine 3 w l (tape 2%nat))]
    ∧ expire interval st3 = (st4, None)
    ∧ outbox st4 = outbox st3 ++ [to1 (logLine 4 w l (tape 3%nat));
                                  to2 (logLine 4 w l (tape 3%nat))]
    ∧ activeGames st4 !! player1Id g = Some ref
    ∧ timers st4 !! interval = Some (BattleInterval ref, BATTLE_LOG_INTERVAL_MS)
    ∧ users st4 = users st
    ∧ expire interval st4 = (st5, None)
    ∧ outbox st5
      = outbox st4
        ++ [to1 (logLine 5 w l (tape 4%nat)); to2 (logLine 5 w l (tape 4%nat));
            to1 (if p1wins
                 then MsgWon (username p1) (player2Bet g) (points p1 + (player2Bet g + DEPOSIT))
                 else MsgLost (username p1) (player1Bet g) (points p1));
            to2 (if p1wins
                 then MsgLost (username p2) (player2Bet g) (points p2)
                 else MsgWon (username p2) (player1Bet g) (points p2 + (player1Bet g + DEPOSIT)))]
    ∧ users st5
      = alter (withPoints (if p1wins then points p2
                           else points p2 + (player1Bet g + DEPOSIT))) (player2Id g)
          (alter (withPoints (if p1wins then points p1 + (player2Bet g + DEPOSIT)
                              else points p1)) (player1Id g) (users st))
    ∧ activeGames st5 !! player1Id g = None
    ∧ timers st5 !! interval = None
    ∧ expire interval st5 = (st5, None).
Proof.
  destruct st as [us lb pd ac ob no tm nt rd out]. simpl.
  intros Hg H1 Hwin Hp1 Hp2.
  set (w := if bool_decide (winnerId g = player1Id g) then p1 else p2).
  set (l := if bool_decide (winnerId g = player1Id g) then p2 else p1).
  assert (us !! winnerId g = Some w ∧ us !! loserId g = Some l) as [Hw Hl].
  { unfold w, l, loserId. case_bool_decide as Hd.
    - rewrite decide_True by done. by rewrite Hd.
    - rewrite decide_False by done. destruct Hwin as [?|Hw2]; [done|]. by rewrite Hw2. }
  assert (BATTLE_LOG_COUNT ≤ 1 + 1 + 1 + 1 + 1) as Hlast by done.
  subst w l. case_bool_decide as Hd.
  all: eexists _, _, _, _, _, _.
  all: split; [crank; rewrite !insert_insert_eq; reflexivity|].
  all: split; [simpl; rewrite <- !app_assoc; reflexivity|].
  all: split; [reflexivity|].
  all: split; [by apply start_first_tick_fields|].
  all: split; [simpl; rewrite <- !app_assoc; reflexivity|].
  all: split; [reflexivity|].
  all: do 3 (split; [apply tick_broadcasts_fields with (ref := no);
                       [apply lookup_insert_eq|apply lookup_insert_eq|done|done|done]|];
             split; [reflexivity|]).
  all: split; [simpl; rewrite H1; apply lookup_insert_eq|].
  all: split; [simpl; apply lookup_insert_eq|].
  all: split; [reflexivity|].
  - split. { apply tick_settles_player1_fields with (ref := no);
               [apply lookup_insert_eq|apply lookup_insert_eq|done|done|done|done]. }
    split; [reflexivity|]. split; [reflexivity|].
    split; [simpl; rewrite H1; apply lookup_delete_eq|].
    split; [simpl; apply lookup_delete_eq|].
    unfold expire, fire. simpl. by rewrite lookup_delete_eq.
  - assert (winnerId g = player2Id g) as Hw2 by (by destruct Hwin).
    split. { apply tick_settles_player2_fields with (ref := no);
               [apply lookup_insert_eq|apply lookup_insert_eq|done|done|done|done|done]. }
    split; [reflexivity|]. split; [reflexivity|].
    split; [simpl; rewrite H1; apply lookup_delete_eq|].
    split; [simpl; apply lookup_delete_eq|].
    unfold expire, fire. simpl. by rewrite lookup_delete_eq.
Qed.

#[local] Arguments handle : simpl never.
#[local] Arguments expire : simpl never.

(** The check of line 660 reads the three stores only. *)
Lemma alreadyInGame_stores (id : string) (st st' : State) :
  pendingGames st' = pendingGames st →
  activeGames st' = activeGames st →
  objects st' = objects st →
  Map_has id (matchingLobby st') = Map_has id (matchingLobby st) →
  alreadyInGame id st' = alreadyInGame id st.
Proof.
  destruct st, st'. simpl. intros -> -> -> Hl.
  unfold alreadyInGame, player2Of. simpl. by rewrite Hl.
Qed.

(** 对对碰匹配 on an empty lobby, run to its end. *)
Lemma enqueue_enters (st : State) (caller : Session) (stake : Z) (user : UserData) :
  users st !! sessionUserId caller = Some user →
  0 < stake → stake + DEPOSIT ≤ points user →
  alreadyInGame (sessionUserId caller) st = false →
  matchingLobby st = [] →
  handle (Cmd_match caller (Some stake)) st
  = (mkState
       (alter (withPoints (points user - (stake + DEPOSIT))) (sessionUserId caller) (users st))
       [(sessionUserId caller, mkLobbyPlayer stake caller (nextTimer st))]
       (pendingGames st) (activeGames st) (objects st) (nextObject st)
       (<[nextTimer st := (LobbyTimeout caller
                             (withPoints (points user - (stake + DEPOSIT)) user)
                             (stake + DEPOSIT), LOBBY_TIMEOUT_MS)]> (timers st))
       (S (nextTimer st)) (random st)
       (outbox st ++ [Returned caller (MsgEnteredLobby stake (points user - (stake + DEPOSIT)))]),
     None).
Proof.
  intros Hu Hs Hc Hin Hl. unfold handle.
  rewrite (complete_plus 1 11), (enqueue_debits st caller stake user Hu Hs Hc Hin).
  simpl. rewrite Hl. crank. rewrite Hl. reflexivity.
Qed.

(** C1 (amended): a game played from an empty lobby, every handler run to
    its end before the next one starts: A enqueues, B enqueues and is paired
    with A, A confirms, the interval fires four times.  Before the last tick
    both balances carry the escrow debit (stake + deposit).  The settlement
    credits the winner with the loser's stake + deposit and leaves the
    loser's balance at its debited value.  The two balances then add up to
    the sum before the enqueues less the winner's own stake and deposit:
    these are never paid back, so points are not conserved. *)
Theorem C1_settlement_balance (st : State) (sA sB : Session) (stakeA stakeB : Z)
    (uA uB : UserData) :
  sessionUserId sA ≠ sessionUserId sB →
  truthy (sessionUserId sA) = true →
  users st !! sessionUserId sA = Some uA →
  users st !! sessionUserId sB = Some uB →
  0 < stakeA → stakeA + DEPOSIT ≤ points uA →
  0 < stakeB → stakeB + DEPOSIT ≤ points uB →
  alreadyInGame (sessionUserId sA) st = false →
  alreadyInGame (sessionUserId sB) st = false →
  matchingLobby st = [] →
  let a := sessionUserId sA in
  let b := sessionUserId sB in
  let aWins := Qltb (hd 0%Q (random st))
                    ((1 # 2) + inject_Z (lv uA - lv uB) * (5 # 100)) in
  let interval := S (S (nextTimer st)) in
  ∃ waiting paired started st2 st3 st4 settled,
    handle (Cmd_match sA (Some stakeA)) st = (waiting, None)
    ∧ handle (Cmd_match sB (Some stakeB)) waiting = (paired, None)
    ∧ handle (Cmd_start sA) paired = (started, None)
    ∧ expire interval started = (st2, None)
    ∧ expire interval st2 = (st3, None)
    ∧ expire interval st3 = (st4, None)
    ∧ expire interval st4 = (settled, None)
    ∧ pointsOf a st4 = Some (points uA - (stakeA + DEPOSIT))
    ∧ pointsOf b st4 = Some (points uB - (stakeB + DEPOSIT))
    ∧ pointsOf a settled
      = Some (if aWins then points uA - (stakeA + DEPOSIT) + (stakeB + DEPOSIT)
              else points uA - (stakeA + DEPOSIT))
    ∧ pointsOf b settled
      = Some (if aWins then points uB - (stakeB + DEPOSIT)
              else points uB - (stakeB + DEPOSIT) + (stakeA + DEPOSIT))
    ∧ ∀ pa pb, pointsOf a settled = Some pa → pointsOf b settled = Some pb →
        pa + pb = points uA + points uB - ((if aWins then stakeA else stakeB) + DEPOSIT).
Proof.
  intros Hne Ht HuA HuB HsA HcA HsB HcB HinA HinB Hl a b aWins interval.
  subst a b interval.
  pose proof (enqueue_enters st sA stakeA uA HuA HsA HcA HinA Hl) as E1.
  match type of E1 with _ = (?s, None) => set (waiting := s) in * end.
  assert (alreadyInGame (sessionUserId sB) waiting = false) as HinB'.
  { rewrite <- HinB. apply alreadyInGame_stores; try done.
    simpl. rewrite Hl. simpl. by rewrite decide_False. }
  assert (users waiting !! sessionUserId sB = Some uB) as HuB'.
  { simpl. by rewrite lookup_alter_ne. }
  assert (users waiting !! sessionUserId sA
          = Some (withPoints (points uA - (stakeA + DEPOSIT)) uA)) as HuA'.
  { simpl. by rewrite lookup_alter_eq, HuA. }
  pose proof (enqueue_pairs waiting sB stakeB uB _ _ _ [] HuB' HsB HcB HinB' eq_refl Ht HuA')
    as E2.
  simpl in E2. fold aWins in E2.
  match type of E2 with _ = (?s, None) => set (paired := s) in * end.
  set (pA := withPoints (points uA - (stakeA + DEPOSIT)) uA).
  set (pB := withPoints (points uB - (stakeB + DEPOSIT)) uB).
  set (g := mkPendingGame (sessionUserId sA) (sessionUserId sB) sA sB stakeA stakeB
              (if aWins then sessionUserId sA else sessionUserId sB)).
  assert (pendingGames paired !! sessionUserId sA = Some g) as Hg
    by apply lookup_insert_eq.
  assert (winnerId g = player1Id g ∨ winnerId g = player2Id g) as Hwin
    by (simpl; destruct aWins; auto).
  assert (users paired !! player1Id g = Some pA) as Hp1.
  { simpl. rewrite lookup_alter_ne by congruence. by rewrite lookup_alter_eq, HuA. }
  assert (users paired !! player2Id g = Some pB) as Hp2.
  { simpl. rewrite lookup_alter_eq, lookup_alter_ne by done. by rewrite HuB. }
  destruct (battle_runs_five_ticks paired sA g pA pB Hg eq_refl Hwin Hp1 Hp2)
    as (first & st1 & st2 & st3 & st4 & st5 & _ & _ & _ & E3 & _ & _ & E4 & _ & E5 & _
        & E6 & _ & _ & _ & Hu4 & E7 & _ & Hu5 & _).
  assert (bool_decide (winnerId g = player1Id g) = aWins) as Hb.
  { simpl. destruct aWins; [by rewrite bool_decide_eq_true_2|].
    rewrite bool_decide_eq_false_2; [done|congruence]. }
  rewrite Hb in Hu5. simpl in Hu5.
  assert (pointsOf (sessionUserId sA) st5
          = Some (if aWins then points uA - (stakeA + DEPOSIT) + (stakeB + DEPOSIT)
                  else points uA - (stakeA + DEPOSIT))) as HA.
  { unfold pointsOf. rewrite Hu5.
    rewrite lookup_alter_ne by congruence. rewrite lookup_alter_eq.
    rewrite lookup_alter_ne by congruence. rewrite lookup_alter_eq, HuA.
    simpl. by destruct aWins. }
  assert (pointsOf (sessionUserId sB) st5
          = Some (if aWins then points uB - (stakeB + DEPOSIT)
                  else points uB - (stakeB + DEPOSIT) + (stakeA + DEPOSIT))) as HB.
  { unfold pointsOf. rewrite Hu5.
    rewrite lookup_alter_eq. rewrite lookup_alter_ne by congruence.
    rewrite lookup_alter_eq. rewrite lookup_alter_ne by congruence. rewrite HuB.
    simpl. by destruct aWins. }
  exists waiting, paired, st1, st2, st3, st4, st5.
  split_and!; try done.
  - unfold pointsOf. rewrite Hu4.
    by rewrite (Hp1 : users paired !! sessionUserId sA = Some pA).
  - unfold pointsOf. rewrite Hu4.
    by rewrite (Hp2 : users paired !! sessionUserId sB = Some pB).
  - intros pa pb. rewrite HA, HB. intros [= <-] [= <-]. destruct aWins; lia.
Qed.

(** ** Every handler ends *)

Lemma resume_remaining (t t' : Task) (st : State) :
  (resume t st).2 = Some t' → (remaining t' < remaining t)%nat.
Proof.
  destruct t; simpl; unfold throw, reply, settle, enterLobby, sendBattleLog; simpl;
    repeat (case_match; simpl); intros [= <-]; simpl; lia.
Qed.

Lemma complete_ends (n : nat) (st : State) (t : Task) :
  (remaining t ≤ n)%nat → (complete n (st, Some t)).2 = None.
Proof.
  revert st t. induction n as [|n IH]; intros st t Hn.
  - destruct t; simpl in Hn; lia.
  - simpl. destruct (resume t st) as [st' [t'|]] eqn:E.
    + apply IH. pose proof (resume_remaining t t' st) as H. rewrite E in H.
      specialize (H eq_refl). lia.
    + by destruct n.
Qed.

Lemma handle_ends (c : Command) (st : State) : (handle c st).2 = None.
Proof.
  unfold handle. destruct (invoke c st) as [st' [t|]] eqn:E; [|done].
  apply complete_ends. destruct c; simpl in E.
  - injection E as <- <-. simpl. lia.
  - unfold startGame, reply in E. repeat case_match; simplify_eq/=; lia.
Qed.

Lemma expire_ends (id : nat) (st : State) : (expire id st).2 = None.
Proof.
  unfold expire. destruct (fire id st) as [st' [t|]] eqn:E; [|done].
  apply complete_ends. unfold fire, lobbyTimeout, sendBattleLog, throw in E.
  repeat case_match; simplify_eq/=; lia.
Qed.

(** ** Exclusivity when handlers do not interleave *)

Lemma inLobby_has (id : string) (st : State) :
  inLobby id st ↔ Map_has id (matchingLobby st) = true.
Proof. unfold inLobby. by rewrite Map_has_elem_of. Qed.

Lemma not_alreadyInGame (id : string) (st : State) :
  keyed st → alreadyInGame id st = false → ¬ participant id st.
Proof.
  intros Hk Hin Hp. apply (participant_alreadyInGame _ _ Hk) in Hp. congruence.
Qed.

Section Stores.

Variables (us : gmap string UserData) (lb : list (string * LobbyPlayer))
          (pd : gmap string PendingGame) (ac : gmap string nat)
          (ob : gmap nat ActiveGame) (no : nat) (tm : gmap nat Timer) (nt : nat)
          (rd : list Q) (out : list Event).

Let st := mkState us lb pd ac ob no tm nt rd out.

Hypothesis Hkey : keyed st.
Hypothesis Hex : exclusive st.

Lemma exclusive_lobby_delete (k : string) us' tm' nt' rd' out' :
  exclusive (mkState us' (Map_delete k lb) pd ac ob no tm' nt' rd' out').
Proof.
  destruct Hex as (H1 & H2 & H3). split_and!; [|exact H2|exact H3].
  intros id Hin. apply (H1 id). apply inLobby_has. apply inLobby_has in Hin.
  simpl in *. rewrite Map_has_delete in Hin. by case_decide.
Qed.

Lemma exclusive_lobby_set (k : string) (v : LobbyPlayer) us' tm' nt' rd' out' :
  ¬ participant k st →
  exclusive (mkState us' (Map_set k v lb) pd ac ob no tm' nt' rd' out').
Proof.
  intros Hnp. destruct Hex as (H1 & H2 & H3). split_and!; [|exact H2|exact H3].
  intros id Hin. apply inLobby_has in Hin. simpl in Hin. rewrite Map_has_set in Hin.
  case_decide as Hd.
  - subst. split; intros Hp; apply Hnp; [right; left|right; right]; exact Hp.
  - apply (H1 id). by apply inLobby_has.
Qed.

(** Line 700: a game of two players who are in no store. *)
Lemma exclusive_pending_insert (o c : string) (g : PendingGame) us' lb' tm' nt' rd' out' :
  player1Id g = o → player2Id g = c →
  ¬ participant o st → ¬ participant c st →
  (∀ id, id ∈ lb'.*1 → id ∈ lb.*1) →
  exclusive (mkState us' lb' (<[o := g]> pd) ac ob no tm' nt' rd' out').
Proof.
  intros Hg1 Hg2 Hno Hnc Hsub. destruct Hex as (H1 & H2 & H3).
  assert (∀ id, player1Id g = id ∨ player2Id g = id → ¬ participant id st) as Hnew.
  { intros id [Hid|Hid]; subst; assumption. }
  assert (∀ id, inPending id (mkState us' lb' (<[o := g]> pd) ac ob no tm' nt' rd' out') →
                (player1Id g = id ∨ player2Id g = id) ∨ inPending id st) as Hpend.
  { intros id (k & g' & Hk & Hp). simpl in Hk. rewrite lookup_insert in Hk.
    case_decide; [left; congruence|right; by exists k, g']. }
  split_and!.
  - intros id Hin. apply Hsub in Hin. destruct (H1 id Hin) as [Hnp Hna].
    split; [|exact Hna].
    intros Hp. apply Hpend in Hp as [Hp|Hp]; [|done].
    apply (Hnew id Hp). by left.
  - intros id Hp Ha. apply Hpend in Hp as [Hp|Hp].
    + apply (Hnew id Hp). right. right. exact Ha.
    + by apply (H2 id).
  - intros k k' g1 g2 id. simpl. rewrite !lookup_insert.
    repeat case_decide; subst; intros Hk Hk' Hp Hp'; simplify_eq; try done.
    + exfalso. apply (Hnew id Hp). right. left. by exists k', g2.
    + exfalso. apply (Hnew id Hp'). right. left. by exists k, g1.
    + by apply (H3 k k' g1 g2 id).
Qed.

(** Lines 733-739: the caller's pending game becomes a new active game. *)
Lemma exclusive_promote (k : string) (g : PendingGame) (a : ActiveGame)
    us' tm' nt' rd' out' :
  pd !! k = Some g → game a = g →
  exclusive (mkState us' lb (delete k pd) (<[k := no]> ac) (<[no := a]> ob) (S no)
               tm' nt' rd' out').
Proof.
  intros Hg Ha. destruct Hex as (H1 & H2 & H3). destruct Hkey as (Hk1 & Hk2 & Hk3).
  simpl in *.
  assert (∀ id, inPending id (mkState us' lb (delete k pd) (<[k := no]> ac)
                                (<[no := a]> ob) (S no) tm' nt' rd' out') →
                ∃ k' g', k' ≠ k ∧ pd !! k' = Some g'
                         ∧ (player1Id g' = id ∨ player2Id g' = id)) as Hpend.
  { intros id (k' & g' & Hk' & Hp). simpl in Hk'. rewrite lookup_delete in Hk'.
    case_decide; [done|]. exists k', g'. split; [congruence|done]. }
  assert (∀ id, inActive id (mkState us' lb (delete k pd) (<[k := no]> ac)
                               (<[no := a]> ob) (S no) tm' nt' rd' out') →
                (player1Id g = id ∨ player2Id g = id) ∨ inActive id st) as Hact.
  { intros id (k' & ref & a' & Hk' & Hr & Hp). simpl in Hk', Hr.
    rewrite lookup_insert in Hk'. case_decide.
    - simplify_eq. rewrite lookup_insert_eq in Hr. simplify_eq. by left.
    - right. exists k', ref, a'. simpl. split; [done|]. split; [|done].
      rewrite lookup_insert_ne in Hr; [done|]. intros <-.
      destruct (Hk2 k' no Hk') as (x & Hx & _).
      assert (no < no)%nat by (apply Hk3; eauto). lia. }
  split_and!.
  - intros id Hin. destruct (H1 id Hin) as [Hnp Hna]. split.
    + intros Hp. apply Hpend in Hp as (k' & g' & _ & Hk' & Hp).
      apply Hnp. by exists k', g'.
    + intros Hp. apply Hact in Hp as [Hp|Hp]; [|done].
      apply Hnp. by exists k, g.
  - intros id Hp Hp'. apply Hpend in Hp as (k' & g' & Hne & Hk' & Hp).
    apply Hact in Hp' as [Hp'|Hp'].
    + apply Hne. by apply (H3 k' k g' g id).
    + apply (H2 id); [by exists k', g'|done].
  - intros k1 k2 g1 g2 id. simpl. rewrite !lookup_delete.
    repeat case_decide; try done. apply H3.
Qed.

(** Line 826. *)
Lemma exclusive_active_delete (k : string) us' tm' nt' rd' out' :
  exclusive (mkState us' lb pd (delete k ac) ob no tm' nt' rd' out').
Proof.
  destruct Hex as (H1 & H2 & H3).
  assert (∀ id, inActive id (mkState us' lb pd (delete k ac) ob no tm' nt' rd' out') →
                inActive id st) as Hact.
  { intros id (k' & ref & a' & Hk' & Hr & Hp). simpl in Hk'.
    rewrite lookup_delete in Hk'. case_decide; [done|]. by exists k', ref, a'. }
  split_and!; [| |exact H3].
  - intros id Hin. destruct (H1 id Hin) as [Hnp Hna]. split; [done|].
    intros Hp. by apply Hna, Hact.
  - intros id Hp Ha. by apply (H2 id Hp), Hact.
Qed.

(** [logCount] and [intervalId] of an object change, its game does not. *)
Lemma exclusive_object_update (r : nat) (a a' : ActiveGame) us' tm' nt' rd' out' :
  ob !! r = Some a → game a' = game a →
  exclusive (mkState us' lb pd ac (<[r := a']> ob) no tm' nt' rd' out').
Proof.
  intros Hr Hg. destruct Hex as (H1 & H2 & H3).
  assert (∀ id, inActive id (mkState us' lb pd ac (<[r := a']> ob) no tm' nt' rd' out') →
                inActive id st) as Hact.
  { intros id (k' & ref & x & Hk' & Hx & Hp). simpl in Hk', Hx.
    rewrite lookup_insert in Hx. case_decide.
    - simplify_eq. exists k', ref, a. rewrite <- Hg. done.
    - by exists k', ref, x. }
  split_and!; [| |exact H3].
  - intros id Hin. destruct (H1 id Hin) as [Hnp Hna]. split; [done|].
    intros Hp. by apply Hna, Hact.
  - intros id Hp Ha. by apply (H2 id Hp), Hact.
Qed.

Lemma exclusive_object_alter (r : nat) (f : ActiveGame → ActiveGame)
    us' tm' nt' rd' out' :
  (∀ a, game (f a) = game a) →
  exclusive (mkState us' lb pd ac (alter f r ob) no tm' nt' rd' out').
Proof.
  intros Hf. destruct (ob !! r) as [a|] eqn:Hr.
  - replace (alter f r ob) with (<[r := f a]> ob).
    + by apply exclusive_object_update with a.
    + apply map_eq. intros j. rewrite lookup_alter, lookup_insert.
      case_decide; [|done]. subst. by rewrite Hr.
  - replace (alter f r ob) with ob; [exact Hex|].
    apply map_eq. intros j. rewrite lookup_alter.
    case_decide; [|done]. subst. by rewrite Hr.
Qed.

(** Who is in no store stays so when the stores only lose entries. *)
Lemma participant_lobby_delete (id k : string) us' tm' nt' rd' out' :
  participant id (mkState us' (Map_delete k lb) pd ac ob no tm' nt' rd' out') →
  participant id st ∧ (inLobby id st → id ≠ k).
Proof.
  intros [Hin|[Hp|Ha]].
  - apply inLobby_has in Hin. simpl in Hin. rewrite Map_has_delete in Hin.
    case_decide; [done|]. split; [left; by apply inLobby_has|]. congruence.
  - destruct Hex as (H1 & _). split; [right; by left|].
    intros Hin. by destruct (H1 id Hin).
  - destruct Hex as (H1 & _). split; [right; by right|].
    intros Hin. by destruct (H1 id Hin).
Qed.

End Stores.

#[local] Arguments Map_set : simpl never.
#[local] Arguments Map_delete : simpl never.

Lemma participant_frame (id : string) (st st' : State) :
  matchingLobby st' = matchingLobby st → pendingGames st' = pendingGames st →
  activeGames st' = activeGames st → objects st' = objects st →
  participant id st' → participant id st.
Proof.
  destruct st, st'. simpl. intros -> -> -> ->. done.
Qed.

Ltac unfold_state :=
  unfold throw, reply, settle, enterLobby, sendBattleLog, lobbyTimeout, startGame,
    emit, set_matchingLobby, clearTimer, set_timers, database_set_points, set_users,
    set_pendingGames, set_activeGames, set_objects, database_get, arm, alloc,
    Math_random in *.

Ltac exclusive_step Hex :=
  first [ exact Hex
        | eapply exclusive_lobby_delete; exact Hex
        | eapply exclusive_active_delete; exact Hex
        | eapply exclusive_object_update; [exact Hex|eassumption|reflexivity]
        | eapply exclusive_object_alter; [exact Hex|reflexivity] ].

Lemma resume_orderly (t : Task) (st : State) :
  keyed st → exclusive st → undisturbed t st →
  exclusive (resume t st).1
  ∧ ∀ t', (resume t st).2 = Some t' → undisturbed t' (resume t st).1.
Proof.
  destruct st as [us lb pd ac ob no tm nt rd out].
  intros Hk Hex Hu.
  destruct t; simpl; unfold_state; simpl;
    repeat (case_match; simpl); simplify_eq/=; unfold_state; simpl in *;
    (split; [try exclusive_step Hex | try (intros ? [=]; subst; simpl; try done)]).
  - intros Hp. eapply not_alreadyInGame; [exact Hk|eassumption|].
    by eapply participant_frame; [..|exact Hp].
  - eapply exclusive_lobby_set; [exact Hex|exact Hu].
  - split; [exact Hu|]. unfold inLobby. simpl. apply list_elem_of_here.
  - eapply exclusive_lobby_set; [exact Hex|exact Hu].
  - destruct Hu as [Hc Ho]. split_and!.
    + intros Hp. eapply participant_lobby_delete in Hp as [Hp _]; [|exact Hex]. done.
    + intros Hp. eapply participant_lobby_delete in Hp as [_ Hp]; [|exact Hex].
      by apply Hp.
    + intros ->. apply Hc. by left.
  - destruct Hu as (Hc & Ho & Hne).
    eapply exclusive_pending_insert; [exact Hex|done|done|exact Ho|exact Hc|done].
  - destruct Hu as (Hc & Ho & Hne).
    eapply exclusive_pending_insert; [exact Hex|done|done|exact Ho|exact Hc|done].
Qed.

Lemma invoke_orderly (c : Command) (st : State) :
  keyed st → exclusive st →
  exclusive (invoke c st).1
  ∧ ∀ t', (invoke c st).2 = Some t' → undisturbed t' (invoke c st).1.
Proof.
  destruct st as [us lb pd ac ob no tm nt rd out].
  intros Hk Hex.
  destruct c; simpl; unfold_state; simpl;
    repeat (case_match; simpl); simplify_eq/=; unfold_state; simpl in *;
    (split; [try exclusive_step Hex | try (intros ? [=]; subst; simpl; try done)]).
  by eapply exclusive_promote.
Qed.

Lemma fire_orderly (id : nat) (st : State) :
  keyed st → exclusive st →
  exclusive (fire id st).1
  ∧ ∀ t', (fire id st).2 = Some t' → undisturbed t' (fire id st).1.
Proof.
  destruct st as [us lb pd ac ob no tm nt rd out].
  intros Hk Hex.
  unfold fire; simpl; unfold_state; simpl;
    repeat (case_match; simpl); simplify_eq/=; unfold_state; simpl in *;
    (split; [try exclusive_step Hex | try (intros ? [=]; subst; simpl; try done)]).
Qed.

Lemma complete_orderly (n : nat) (r : State * option Task) :
  keyed r.1 → exclusive r.1 → (∀ t, r.2 = Some t → undisturbed t r.1) →
  keyed (complete n r).1 ∧ exclusive (complete n r).1.
Proof.
  revert r. induction n as [|n IH]; intros [st [t|]]; simpl; intros Hk Hex Hu; try done.
  apply IH.
  - by apply resume_keyed.
  - by apply resume_orderly; [..|apply Hu].
  - by apply resume_orderly; [..|apply Hu].
Qed.

Lemma occur_orderly (st : State) (o : Occurrence) :
  keyed st → exclusive st → keyed (occur st o) ∧ exclusive (occur st o).
Proof.
  intros Hk Hex. destruct o as [c|id]; simpl; unfold handle, expire.
  - apply complete_orderly.
    + by apply invoke_keyed.
    + by apply invoke_orderly.
    + by apply invoke_orderly.
  - apply complete_orderly.
    + by apply fire_keyed.
    + by apply fire_orderly.
    + by apply fire_orderly.
Qed.

(** With every command and every timer callback handled to its end before
    the next one starts, no player is ever in two of the three stores. *)
Lemma exclusive_when_orderly (db : gmap string UserData) (tape : list Q)
    (l : list Occurrence) (id : string) :
  let st := orderly db tape l in
  ¬ (inLobby id st ∧ inPending id st)
  ∧ ¬ (inLobby id st ∧ inActive id st)
  ∧ ¬ (inPending id st ∧ inActive id st).
Proof.
  assert (keyed (orderly db tape l) ∧ exclusive (orderly db tape l)) as [_ Hex].
  { unfold orderly.
    assert (keyed (state (boot db tape)) ∧ exclusive (state (boot db tape))) as H0.
    { split; [apply reachable_keyed; by exists db, tape, []|].
      split_and!.
      - intros i Hin. inversion Hin.
      - intros i (k & g & Hk & _). simpl in Hk. by rewrite lookup_empty in Hk.
      - intros k k' g g' i Hk. simpl in Hk. by rewrite lookup_empty in Hk. }
    revert H0. generalize (state (boot db tape)).
    induction l as [|o l IH]; intros st [Hk Hex]; [done|].
    simpl. apply IH. by apply occur_orderly. }
  destruct Hex as (H1 & H2 & _). simpl. split_and!.
  - intros [Hl Hp]. by destruct (H1 id Hl).
  - intros [Hl Ha]. by destruct (H1 id Hl).
  - intros [Hp Ha]. by apply (H2 id Hp).
Qed.

(** ** The races *)

(** The pairing handler yields with the opponent's entry still in the lobby:
    the segment that finds the entry (line 668) ends at the await of line
    671 and changes nothing; lines 679-680 belong to the next segment. *)
Lemma pairing_awaits_before_removal (st : State) (session : Session) (bet totalCost : Z)
    (user : UserData) (opponentId : string) (opponentLobbyData : LobbyPlayer)
    (rest : list (string * LobbyPlayer)) :
  matchingLobby st = (opponentId, opponentLobbyData) :: rest →
  truthy opponentId = true →
  resume (Match665 session bet user totalCost) st
  = (st, Some (Match671 session bet (withPoints (points user - totalCost) user) totalCost
                        opponentId opponentLobbyData (users st !! opponentId))).
Proof. intros Hl Ht. simpl. by rewrite Hl, Ht. Qed.

(** C2: the pairing handler does not cancel the timer and remove the entry
    before it yields.  It finds A's entry (line 668), then awaits the read of
    line 671 with the entry still in the lobby and its timer armed.  If A's
    timeout fires during that await, the callback finds the entry, removes
    it and refunds A; the pairing handler then goes on with the entry it
    holds and stores a pending game for A.  A is both timed out (balance
    back at 500, timeout notice sent) and paired. *)
Theorem C2_paired_and_timed_out :
  let awaiting := run (boot ledger0 []) pairingAwaits in
  let final := run (boot ledger0 []) timeoutDuringPairing in
  (∃ user opponent,
     tasks awaiting !! 1%nat
     = Some (Some (Match671 sessionB 100 user 102 "A"
                            (mkLobbyPlayer 100 sessionA 0) (Some opponent))))
  ∧ Map_has "A" (matchingLobby (state awaiting)) = true
  ∧ (∃ user, timers (state awaiting) !! 0%nat
               = Some (LobbyTimeout sessionA user 102, LOBBY_TIMEOUT_MS))
  ∧ tasks final = [None; None; None]
  ∧ pendingGames (state final) !! "A"%string
    = Some (mkPendingGame "A" "B" sessionA sessionB 100 100 "A")
  ∧ pointsOf "A" (state final) = Some 500
  ∧ pointsOf "B" (state final) = Some 198
  ∧ outbox (state final)
    = [Returned sessionA (MsgEnteredLobby 100 398);
       Sent sessionA (MsgMatchedPlayer1 "bob");
       Sent sessionB (MsgMatchedPlayer2 "alice");
       Returned sessionB MsgMatched;
       Sent sessionA (MsgLobbyTimeout 102 500)].
Proof.
  vm_compute. split_and!; try reflexivity; eauto.
Qed.

(** C3: the check of line 660 and the insertion it guards are separated by
    the await of line 665.  B sends 对对碰匹配 twice; the second call passes
    the check while the first has not yet paired; the first then pairs B
    with A and the second puts B in the lobby.  B is in the lobby and a
    player of a pending game at once. *)
Theorem C3_in_lobby_and_pending :
  let final := run (boot ledger0 []) doubleEnqueue in
  tasks final = [None; None; None]
  ∧ matchingLobby (state final) = [("B"%string, mkLobbyPlayer 100 sessionB 1)]
  ∧ pendingGames (state final) !! "A"%string
    = Some (mkPendingGame "A" "B" sessionA sessionB 100 100 "A")
  ∧ inLobby "B" (state final)
  ∧ inPending "B" (state final).
Proof.
  split_and!; try (vm_compute; reflexivity).
  - unfold inLobby. vm_compute. apply list_elem_of_here.
  - exists "A"%string, (mkPendingGame "A" "B" sessionA sessionB 100 100 "A").
    split; [vm_compute; reflexivity | by right].
Qed.

(** C7: nothing keeps the interval from firing while a tick is still
    awaiting.  Here the fifth tick has sent its broadcast to A and awaits the
    send to B when the interval fires again: [logCount] becomes 6, the fifth
    tick passes the test of line 824 and settles, and so does the sixth
    after its own broadcast, headed 6/5.  The game has six broadcasts, two
    pairs of result messages and a winner credited twice (398 + 102 + 102).
    Run with every tick ended before the next, the same game has five
    broadcasts and one pair of results. *)
Theorem C7_overlapping_ticks :
  let overlapped := state (run (boot ledger0 []) overlappingTicks) in
  let orderly := state (run (boot ledger0 []) wholeGame) in
  let line n := MsgBattleLog n 3 "alice" "占据上风" 3 "bob" "节节败退" in
  countIf isBattleLog (outbox orderly) = (2 * 5)%nat
  ∧ countIf isResult (outbox orderly) = 2%nat
  ∧ pointsOf "A" orderly = Some 500
  ∧ countIf isBattleLog (outbox overlapped) = (2 * 6)%nat
  ∧ countIf isResult (outbox overlapped) = (2 * 2)%nat
  ∧ pointsOf "A" overlapped = Some 602
  ∧ drop 15 (outbox overlapped)
    = [Sent sessionA (line 5); Sent sessionB (line 5);
       Sent sessionA (MsgWon "alice" 100 500); Sent sessionB (MsgLost "bob" 100 198);
       Sent sessionA (line 6); Sent sessionB (line 6);
       Sent sessionA (MsgWon "alice" 100 602); Sent sessionB (MsgLost "bob" 100 198)].
Proof.
  split_and!; vm_compute; reflexivity.
Qed.

(** C1 as stated fails: in the game of the specification's own scenario
    (both stake 100, A wins) the balances add up to 800 before A enqueues
    and to 698 after the settlement. *)
Lemma C1_points_destroyed :
  let before := boot ledger0 [] in
  let after := run before wholeGame in
  tasks after = [None; None; None; None; None; None; None]
  ∧ countIf isResult (outbox (state after)) = 2%nat
  ∧ totalPoints "A" "B" (state before) = 800
  ∧ totalPoints "A" "B" (state after) = 698
  ∧ totalPoints "A" "B" (state after) ≠ totalPoints "A" "B" (state before).
Proof.
  split_and!; try (vm_compute; reflexivity).
  vm_compute. discriminate.
Qed.

(** ** Instances *)

(** B, the joiner of the pending game (A, B), calls 开始对对碰: rejected;
    A's call right after is accepted. *)
Lemma C4_confirm_gate_witness :
  let st := state (run (boot ledger0 []) (aliceWaits ++ bobPairs)) in
  let st' := emit (Returned sessionB MsgNoPendingGame) st in
  invoke (Cmd_start sessionB) st = (st', None)
  ∧ ∃ st'', invoke (Cmd_start sessionA) st'
            = (st'', Some (Start741 sessionA
                             (mkPendingGame "A" "B" sessionA sessionB 100 100 "A")
                             (nextObject st))).
Proof.
  intros st st'.
  destruct (C4_confirm_gate st sessionB) as (Hrej & _ & Hlater).
  { intros g Hg. vm_compute in Hg. discriminate. }
  split; [exact Hrej|].
  destruct (Hlater sessionA (mkPendingGame "A" "B" sessionA sessionB 100 100 "A"))
    as (_ & st'' & Hrun & _); [vm_compute; reflexivity | reflexivity |].
  exists st''. exact Hrun.
Defined.



(** The stale entry of A: B's call is refunded and answered, no game. *)
Lemma C8_stale_opponent_witness :
  ∃ st', handle (Cmd_match sessionB (Some 100)) staleLobby = (st', None)
    ∧ users st' = users staleLobby
    ∧ pendingGames st' = pendingGames staleLobby
    ∧ outbox st' = outbox staleLobby ++ [Returned sessionB MsgStaleOpponent].
Proof.
  destruct (C8_stale_opponent staleLobby sessionB 100 bob "A"
              (mkLobbyPlayer 100 sessionA 0) [])
    as (escrowed & st' & _ & _ & Hrun & Hu & _ & _ & Hp & _ & _ & Ho);
    try (vm_compute; reflexivity); try lia.
  { vm_compute. discriminate. }
  exists st'. split_and!; assumption.
Defined.

(** Stake 10 on a balance of 50: 38 while waiting, 50 after the timeout. *)
Lemma C5_escrow_and_timeout_refund_witness :
  let st := state (boot ledgerC []) in
  ∃ waiting final,
    handle (Cmd_match sessionC (Some 10)) st = (waiting, None)
    ∧ pointsOf "C" waiting = Some 38
    ∧ expire (nextTimer st) waiting = (final, None)
    ∧ Map_has "C" (matchingLobby final) = false
    ∧ pointsOf "C" final = Some 50
    ∧ outbox final = outbox waiting ++ [Sent sessionC (MsgLobbyTimeout 12 50)].
Proof.
  intros st.
  destruct (C5_escrow_and_timeout_refund st sessionC 10 carol)
    as (waiting & _ & Hrun & Hrec & Hpts & Hlobby & Htimer & _ & Hlater).
  - vm_compute. reflexivity.
  - lia.
  - vm_compute. discriminate.
  - vm_compute. reflexivity.
  - intros o e H. vm_compute in H. discriminate.
  - destruct (Hlater waiting (withPoints (points carol - (10 + DEPOSIT)) carol) Htimer)
      as (final & Hexp & Hgone & _ & Hback & Hout).
    + rewrite Hlobby. vm_compute. reflexivity.
    + exact Hrec.
    + exists waiting, final. split_and!; assumption.
Defined.

(** The balance was raised from 38 to 45 while C was waiting; the timeout
    writes 50, not 45 + 12. *)
Lemma C10_refund_is_absolute_witness :
  users (fire 0 creditedWhileWaiting).1 !! "C"%string
  = Some (withPoints 50 (withPoints 45 carol))
  ∧ withPoints 50 (withPoints 45 carol) ≠ withPoints (45 + 12) (withPoints 45 carol).
Proof.
  destruct (C10_refund_is_absolute sessionC 10 carol (withPoints 45 carol)
              creditedWhileWaiting)
    as (_ & _ & Htimeout & _ & Hne); [vm_compute; reflexivity|].
  split.
  - apply Htimeout; vm_compute; reflexivity.
  - apply Hne. vm_compute. discriminate.
Defined.

(** The specification's scenario: A 500, B 300, both stake 100, A wins. *)
Lemma C1_settlement_balance_witness :
  let st := state (boot ledger0 []) in
  ∃ settled, pointsOf "A" settled = Some 500 ∧ pointsOf "B" settled = Some 198.
Proof.
  intros st.
  destruct (C1_settlement_balance st sessionA sessionB 100 100 alice bob)
    as (waiting & paired & started & st2 & st3 & st4 & settled
        & _ & _ & _ & _ & _ & _ & _ & _ & _ & HA & HB & _);
    try (vm_compute; reflexivity); try lia.
  { vm_compute. discriminate. }
  { vm_compute. discriminate. }
  { vm_compute. discriminate. }
  exists settled. split; [exact HA | exact HB].
Defined.

(** * Invariants of the game and the account commands *)

(** ** Draws *)

Lemma floor_draw (r : Q) (n : Z) :
  (0 <= r)%Q → (r < 1)%Q → 0 < n → 0 ≤ Qfloor (r * inject_Z n) < n.
Proof.
  intros H0 H1 Hn.
  assert (0 < inject_Z n)%Q as Hq.
  { change 0%Q with (inject_Z 0). by rewrite <- Zlt_Qlt. }
  split.
  - change 0 with (Qfloor (inject_Z 0)). apply Qfloor_resp_le.
    change (inject_Z 0) with 0%Q. nra.
  - rewrite Zlt_Qlt. eapply Qle_lt_trans; [apply Qfloor_le|]. nra.
Qed.

Lemma unitDraws_hd (tape : list Q) :
  unitDraws tape → (0 <= hd 0%Q tape)%Q ∧ (hd 0%Q tape < 1)%Q.
Proof. intros H. destruct H; simpl; [split; lra | done]. Qed.

Lemma unitDraws_tl (tape : list Q) : unitDraws tape → unitDraws (tl tape).
Proof. intros H. destruct H; simpl; [constructor | done]. Qed.

(** ** Invariants under every interleaving *)

Section Invariant.

Variable allowed : Command → Prop.
Variable stateOk : State → Prop.
Variable taskOk : State → Task → Prop.
Hypothesis invoke_ok :
  ∀ c st, allowed c → stateOk st → preserves stateOk taskOk st (invoke c st).
Hypothesis fire_ok : ∀ id st, stateOk st → preserves stateOk taskOk st (fire id st).
Hypothesis resume_ok :
  ∀ t st, stateOk st → taskOk st t → preserves stateOk taskOk st (resume t st).

Lemma started_ok (s : System) (r : State * option Task) :
  invariant stateOk taskOk s → preserves stateOk taskOk (state s) r →
  invariant stateOk taskOk (mkSystem r.1 (tasks s ++ [r.2])).
Proof.
  intros [Hs Ht] (Hs' & Hold & Hnew). split; [done|]. simpl.
  intros i t Hi. apply lookup_app_Some in Hi as [Hi|[_ Hi]].
  - apply Hold. by apply (Ht i).
  - apply list_lookup_singleton_Some in Hi as [_ Hi]. by apply Hnew.
Qed.

Lemma exec_invariant (s : System) (a : Action) :
  permitted allowed a → invariant stateOk taskOk s → invariant stateOk taskOk (exec s a).
Proof.
  intros Ha Hinv. pose proof Hinv as [Hs Ht]. destruct a as [c|id|i]; simpl.
  - pose proof (started_ok s _ Hinv (invoke_ok c _ Ha Hs)) as H.
    by destruct (invoke c (state s)).
  - pose proof (started_ok s _ Hinv (fire_ok id _ Hs)) as H.
    by destruct (fire id (state s)).
  - destruct (tasks s !! i) as [[t|]|] eqn:Hi; try done.
    destruct (resume_ok t _ Hs (Ht i t Hi)) as (Hs' & Hold & Hnew).
    destruct (resume t (state s)) as [st' t']. split; [done|]. simpl in *.
    intros j u Hj. destruct (decide (i = j)) as [->|Hne].
    + rewrite list_lookup_insert_eq in Hj by (by eapply lookup_lt_Some).
      injection Hj as ->. by apply Hnew.
    + rewrite list_lookup_insert_ne in Hj by done. apply Hold. by apply (Ht j).
Qed.

Lemma run_invariant (schedule : list Action) (s : System) :
  Forall (permitted allowed) schedule →
  invariant stateOk taskOk s → invariant stateOk taskOk (run s schedule).
Proof.
  revert s. induction schedule as [|a l IH]; intros s Hall H; [done|].
  apply Forall_cons in Hall as [Ha Hall]. simpl. apply IH; [done|].
  by apply exec_invariant.
Qed.

Lemma permitted_any (schedule : list Action) : Forall (permitted (λ _, True)) schedule.
Proof. apply Forall_forall. intros a _. by destruct a. Qed.

End Invariant.

(** What the arrival of a command does, case by case. *)
Lemma invoke_cases (c : Command) (us : gmap string UserData)
    (lb : list (string * LobbyPlayer)) (pd : gmap string PendingGame) (ac : gmap string nat)
    (ob : gmap nat ActiveGame) (no : nat) (tm : gmap nat Timer) (nt : nat) (rd : list Q)
    (out : list Event) :
  let st := mkState us lb pd ac ob no tm nt rd out in
  (∃ session bet,
     c = Cmd_match session bet
     ∧ invoke c st = (st, Some (Match640 session bet (us !! sessionUserId session))))
  ∨ (∃ session,
       c = Cmd_start session
       ∧ invoke c st
         = (mkState us lb pd ac ob no tm nt rd (out ++ [Returned session MsgNoPendingGame]),
            None))
  ∨ (∃ session g,
       c = Cmd_start session
       ∧ pd !! sessionUserId session = Some g
       ∧ player1Id g = sessionUserId session
       ∧ invoke c st
         = (mkState us lb (delete (sessionUserId session) pd)
                    (<[sessionUserId session := no]> ac)
                    (<[no := mkActiveGame g 0 nt]> ob) (S no)
                    (<[nt := (Placeholder, 0)]> tm) (S nt) rd
                    (out ++ [Sent (player1Session g) MsgBattleStart]),
            Some (Start741 session g no))).
Proof.
  destruct c as [session bet|session]; simpl.
  - left. by exists session, bet.
  - right. unfold startGame. simpl.
    destruct (pd !! sessionUserId session) as [g|] eqn:Hg; [|left; by exists session].
    case_decide as H1; [|left; by exists session].
    right. by exists session, g.
Qed.

Ltac invoke_split c :=
  match goal with
  | |- context [invoke c (mkState ?us ?lb ?pd ?ac ?ob ?no ?tm ?nt ?rd ?out)] =>
      destruct (invoke_cases c us lb pd ac ob no tm nt rd out)
        as [(?session & ?bet & -> & ->)
           |[(?session & -> & ->)|(?session & ?g & -> & ?Hg & ?H1 & ->)]];
      cbn [fst snd]
  end.

(** ** Rows and objects stay *)

Lemma extends_refl (st : State) : extends st st.
Proof. by split. Qed.

Lemma registered_alter (us : gmap string UserData) (f : UserData → UserData) (k id : string) :
  registered us id → registered (alter f k us) id.
Proof.
  unfold registered. rewrite lookup_alter. case_decide; [|done]. subst.
  intros [u ->]. by eexists.
Qed.

Lemma playable_alter (us : gmap string UserData) (f : UserData → UserData) (k : string)
    (g : PendingGame) :
  playable us g → playable (alter f k us) g.
Proof. intros (H1 & H2 & H3). split_and!; [by apply registered_alter..|done]. Qed.

Lemma allocated_alter (ob : gmap nat ActiveGame) (f : ActiveGame → ActiveGame) (k r : nat) :
  is_Some (ob !! r) → is_Some (alter f k ob !! r).
Proof.
  rewrite lookup_alter. case_decide; [|done]. subst. intros [a ->]. by eexists.
Qed.

Lemma allocated_insert (ob : gmap nat ActiveGame) (a : ActiveGame) (k r : nat) :
  is_Some (ob !! r) → is_Some (<[k := a]> ob !! r).
Proof. rewrite lookup_insert. case_decide; [by eexists|done]. Qed.

Ltac extends_step :=
  unfold extends; simpl;
  (split; [try done; intros ?; apply registered_alter
          | try done; intros ?;
            first [apply allocated_alter | apply allocated_insert]]).

Lemma resume_extends (t : Task) (st : State) : extends st (resume t st).1.
Proof.
  destruct st as [us lb pd ac ob no tm nt rd out].
  destruct t; simpl; unfold_state; simpl;
    repeat (case_match; simpl); simplify_eq/=; extends_step.
Qed.

Lemma invoke_extends (c : Command) (st : State) : extends st (invoke c st).1.
Proof.
  destruct st as [us lb pd ac ob no tm nt rd out].
  destruct c; simpl; unfold_state; simpl;
    repeat (case_match; simpl); simplify_eq/=; extends_step.
Qed.

Lemma fire_extends (id : nat) (st : State) : extends st (fire id st).1.
Proof.
  destruct st as [us lb pd ac ob no tm nt rd out].
  unfold fire; simpl; unfold_state; simpl;
    repeat (case_match; simpl); simplify_eq/=; extends_step.
Qed.

Lemma safeCaller_extends (st st' : State) (k : Caller) :
  extends st st' → safeCaller st k → safeCaller st' k.
Proof. intros [_ Ho]. destruct k; simpl; auto. Qed.

Lemma safeTask_extends (st st' : State) (t : Task) :
  extends st st' → safeTask st t → safeTask st' t.
Proof.
  intros Hext. pose proof (λ k, safeCaller_extends st st' k Hext) as Hk.
  destruct Hext as [Hu Ho].
  destruct t; simpl; intros; destruct_and?; split_and?; intros; eauto.
Qed.

(** ** No handler throws *)

Lemma not_thrown (out : list Event) (e : Event) :
  Threw ∉ out → e ≠ Threw → Threw ∉ out ++ [e].
Proof.
  intros Ho He Hin. apply elem_of_app in Hin as [Hin|Hin]; [done|].
  apply list_elem_of_singleton in Hin. congruence.
Qed.

Lemma allocated_here (ob : gmap nat ActiveGame) (a : ActiveGame) (k : nat) :
  is_Some (<[k := a]> ob !! k).
Proof. rewrite lookup_insert_eq. by eexists. Qed.

Ltac absurd_read :=
  match goal with
  | H : is_Some None |- _ => by destruct (is_Some_None H)
  | H : ?m !! ?k = None, H' : is_Some (?m !! ?k) |- _ =>
      rewrite H in H'; by destruct (is_Some_None H')
  | H : ?m !! ?k = None, H' : registered ?m ?k |- _ =>
      unfold registered in H'; rewrite H in H'; by destruct (is_Some_None H')
  end.

Ltac safe_stores :=
  repeat first
    [ progress intros
    | progress simplify_eq/=
    | done
    | absurd_read
    | apply not_thrown
    | apply playable_alter
    | apply registered_alter
    | apply allocated_here
    | apply allocated_alter
    | apply allocated_insert
    | match goal with
      | H : <[_ := _]> _ !! _ = Some _ |- _ => rewrite lookup_insert in H; case_decide
      | H : delete _ _ !! _ = Some _ |- _ => rewrite lookup_delete in H; case_decide
      | H : alter _ _ _ !! _ = Some _ |- _ =>
          rewrite lookup_alter in H; case_decide;
          [rewrite fmap_Some in H; destruct H as (? & ? & ?)|]
      | |- _ ∧ _ => split
      end
    | eassumption ].

Lemma playable_reads (us : gmap string UserData) (g : PendingGame) :
  playable us g →
  is_Some (us !! winnerId g) ∧ is_Some (us !! loserId g)
  ∧ is_Some (us !! player1Id g) ∧ is_Some (us !! player2Id g).
Proof.
  intros (H1 & H2 & Hw). unfold loserId. case_decide as Hd.
  - by rewrite Hd.
  - destruct Hw as [?|Hw]; [done|]. by rewrite Hw.
Qed.

Lemma resume_safe (t : Task) (st : State) :
  safeState st → safeTask st t →
  safeState (resume t st).1 ∧ ∀ t', (resume t st).2 = Some t' → safeTask (resume t st).1 t'.
Proof.
  destruct st as [us lb pd ac ob no tm nt rd out].
  unfold safeState. simpl. intros (Hp & Ho & Ht & Hout) Htask.
  destruct t; simpl in Htask; destruct_and?; simpl; unfold_state; simpl;
    repeat (case_match; simpl); simplify_eq/=; unfold_state; simpl in *.
  all: try absurd_read.
  all: split; [split_and!|intros ? [=]; subst; simpl].
  all: safe_stores.
  all: try (eapply Hp; eassumption).
  all: try (eapply Ho; eassumption).
  all: try (eapply Ht; eassumption).
  - apply Htask. by eexists.
  - match goal with H : _ → registered _ _ |- _ => apply H; by eexists end.
  - match goal with H : _ → registered _ _ |- _ => apply H; by eexists end.
  - split_and!; [done|done|by left].
  - split_and!; [done|done|by right].
  - eapply playable_reads, Ho. eassumption.
  - eapply playable_reads, Ho. eassumption.
Qed.

Lemma invoke_safe (c : Command) (st : State) :
  safeState st →
  safeState (invoke c st).1 ∧ ∀ t', (invoke c st).2 = Some t' → safeTask (invoke c st).1 t'.
Proof.
  destruct st as [us lb pd ac ob no tm nt rd out].
  unfold safeState. simpl. intros (Hp & Ho & Ht & Hout).
  invoke_split c; simpl.
  all: split; [split_and!|intros ? [=]; subst; simpl].
  all: safe_stores.
  all: try (eapply Hp; eassumption).
  all: try (eapply Ho; eassumption).
  all: try (eapply Ht; eassumption).
Qed.

Lemma fire_safe (id : nat) (st : State) :
  safeState st →
  safeState (fire id st).1 ∧ ∀ t', (fire id st).2 = Some t' → safeTask (fire id st).1 t'.
Proof.
  destruct st as [us lb pd ac ob no tm nt rd out].
  unfold safeState. simpl. intros (Hp & Ho & Ht & Hout).
  unfold fire; simpl; unfold_state; simpl;
    repeat (case_match; simpl); simplify_eq/=; unfold_state; simpl in *.
  all: try (match goal with
            | H : _ !! _ = Some (BattleInterval _, _) |- _ => apply Ht in H
            end; absurd_read).
  all: split; [split_and!|intros ? [=]; subst; simpl].
  all: safe_stores.
  all: try (eapply Hp; eassumption).
  all: try (eapply Ho; eassumption).
  all: try (eapply Ht; eassumption).
  eapply playable_reads, Ho. eassumption.
Qed.

Lemma safe_preserved :
  (∀ c st, safeState st → preserves safeState safeTask st (invoke c st))
  ∧ (∀ id st, safeState st → preserves safeState safeTask st (fire id st))
  ∧ (∀ t st, safeState st → safeTask st t → preserves safeState safeTask st (resume t st)).
Proof.
  split_and!.
  - intros c st Hs. destruct (invoke_safe c st Hs) as [H1 H2]. split_and!; [done| |done].
    intros t. apply safeTask_extends, invoke_extends.
  - intros id st Hs. destruct (fire_safe id st Hs) as [H1 H2]. split_and!; [done| |done].
    intros t. apply safeTask_extends, fire_extends.
  - intros t st Hs Ht. destruct (resume_safe t st Hs Ht) as [H1 H2].
    split_and!; [done| |done].
    intros u. apply safeTask_extends, resume_extends.
Qed.

(** X1: no handler throws, whatever the interleaving.  From any ledger
    and any tape of draws, after any schedule of commands, timer firings and
    resumptions, no handler has read a field of a row that was not there:
    the rows read at lines 683-684, 813-814 and 829-830 are present whenever
    the code goes on to use them, and an interval always refers to an
    [ActiveGame] object that exists.  (The game never removes a row, and a
    game is only made of two players whose rows have been read.) *)
Theorem X1_no_handler_throws (db : gmap string UserData) (tape : list Q)
    (schedule : list Action) :
  Threw ∉ outbox (state (run (boot db tape) schedule)).
Proof.
  destruct safe_preserved as (Hi & Hf & Hr).
  assert (invariant safeState safeTask (run (boot db tape) schedule)) as [(_ & _ & _ & H) _];
    [|exact H].
  apply (run_invariant (λ _, True)); [auto|done|done|apply permitted_any|]. split.
  - unfold safeState. simpl. split_and!.
    + intros k g. by rewrite lookup_empty.
    + intros ref a. by rewrite lookup_empty.
    + intros id ref ms. by rewrite lookup_empty.
    + intros Hin. inversion Hin.
  - intros i t. simpl. by rewrite lookup_nil.
Qed.

(** ** No balance goes below zero *)

Ltac solvent_stores :=
  repeat first
    [ progress intros
    | progress simplify_eq/=
    | done
    | lia
    | match goal with
      | H : <[_ := _]> _ !! _ = Some _ |- _ => rewrite lookup_insert in H; case_decide
      | H : delete _ _ !! _ = Some _ |- _ => rewrite lookup_delete in H; case_decide
      | H : alter _ _ _ !! _ = Some _ |- _ =>
          rewrite lookup_alter in H; case_decide;
          [rewrite fmap_Some in H; destruct H as (? & ? & ?)|]
      | H : _ ∈ Map_delete _ _ |- _ => apply elem_of_Map_delete in H
      | H : _ ∈ Map_set _ _ _ |- _ => apply elem_of_Map_set in H as [H|H]
      | |- _ ∧ _ => split
      end
    | eassumption ].

Ltac solvent_facts Hl Ho :=
  unfold DEPOSIT in *;
  repeat match goal with
    | H : ∀ u, Some ?x = Some u → _ |- _ => specialize (H x eq_refl)
    | H : _ !! _ = Some ?a |- context [game ?a] =>
        let Hs := fresh "Hstakes" in pose proof (Ho _ _ H) as Hs; clear H
    | H : ?lb = (?k, ?e) :: _ |- context [bet ?e] =>
        let Hs := fresh "Hstake" in
        assert (0 < bet e) as Hs by (apply (Hl k); rewrite H; left); clear H
    end.

Lemma resume_solvent (t : Task) (st : State) :
  solventState st → solventTask t →
  solventState (resume t st).1 ∧ ∀ t', (resume t st).2 = Some t' → solventTask t'.
Proof.
  destruct st as [us lb pd ac ob no tm nt rd out].
  unfold solventState. simpl. intros (Hu & Hl & Hp & Ho & Ht) Htask.
  destruct t; simpl in Htask; destruct_and?; simpl; unfold_state; simpl;
    repeat (case_match; simpl); simplify_eq/=; unfold_state; simpl in *.
  all: split; [split_and!|intros ? [=]; subst; simpl].
  all: unfold solventRead, positiveStakes in *.
  all: solvent_stores.
  all: try (eapply Hu; eassumption).
  all: try (eapply Hl; eassumption).
  all: try (eapply Hp; eassumption).
  all: try (eapply Ho; eassumption).
  all: try (eapply Ht; eassumption).
  all: solvent_facts Hl Ho; try lia.
  apply (Hl s). left.
Qed.

Lemma invoke_solvent (c : Command) (st : State) :
  solventState st →
  solventState (invoke c st).1 ∧ ∀ t', (invoke c st).2 = Some t' → solventTask t'.
Proof.
  destruct st as [us lb pd ac ob no tm nt rd out].
  unfold solventState. simpl. intros (Hu & Hl & Hp & Ho & Ht).
  invoke_split c; simpl in *.
  all: split; [split_and!|intros ? [=]; subst; simpl].
  all: unfold solventRead, positiveStakes in *.
  all: solvent_stores.
  all: try (eapply Hu; eassumption).
  all: try (eapply Hl; eassumption).
  all: try (eapply Hp; eassumption).
  all: try (eapply Ho; eassumption).
  all: try (eapply Ht; eassumption).
  all: solvent_facts Hl Ho; try lia.
Qed.

Lemma fire_solvent (id : nat) (st : State) :
  solventState st →
  solventState (fire id st).1 ∧ ∀ t', (fire id st).2 = Some t' → solventTask t'.
Proof.
  destruct st as [us lb pd ac ob no tm nt rd out].
  unfold solventState. simpl. intros (Hu & Hl & Hp & Ho & Ht).
  unfold fire; simpl; unfold_state; simpl;
    repeat (case_match; simpl); simplify_eq/=; unfold_state; simpl in *.
  all: split; [split_and!|intros ? [=]; subst; simpl].
  all: unfold solventRead, positiveStakes in *.
  all: solvent_stores.
  all: try (eapply Hu; eassumption).
  all: try (eapply Hl; eassumption).
  all: try (eapply Hp; eassumption).
  all: try (eapply Ho; eassumption).
  all: try (eapply Ht; eassumption).
  all: solvent_facts Hl Ho; try lia.
Qed.

Lemma solvent_preserved :
  let taskOk (_ : State) := solventTask in
  (∀ c st, solventState st → preserves solventState taskOk st (invoke c st))
  ∧ (∀ id st, solventState st → preserves solventState taskOk st (fire id st))
  ∧ (∀ t st, solventState st → solventTask t →
       preserves solventState taskOk st (resume t st)).
Proof.
  split_and!.
  - intros c st Hs. by destruct (invoke_solvent c st Hs).
  - intros id st Hs. by destruct (fire_solvent id st Hs).
  - intros t st Hs Ht. by destruct (resume_solvent t st Hs Ht).
Qed.

(** X2: no balance goes below zero.  If no balance of the initial ledger
    is negative, none is in any state the game reaches, whatever the
    interleaving: an escrow is written in the segment that has checked it
    against the balance it is computed from (lines 655-665), a refund writes
    back a balance read before the escrow (lines 675 and 713), and a
    settlement adds a positive stake and the deposit to a balance just read
    (lines 829-847). *)
Theorem X2_balances_never_negative (db : gmap string UserData) (tape : list Q)
    (schedule : list Action) :
  (∀ id u, db !! id = Some u → 0 ≤ points u) →
  ∀ id u, users (state (run (boot db tape) schedule)) !! id = Some u → 0 ≤ points u.
Proof.
  intros Hdb. destruct solvent_preserved as (Hi & Hf & Hr).
  assert (invariant solventState (λ _, solventTask) (run (boot db tape) schedule))
    as [(H & _) _]; [|exact H].
  apply (run_invariant (λ _, True)); [auto|done|done|apply permitted_any|]. split.
  - unfold solventState. simpl. split_and!.
    + exact Hdb.
    + intros k e Hin. inversion Hin.
    + intros k g. by rewrite lookup_empty.
    + intros ref a. by rewrite lookup_empty.
    + intros id session user totalCost ms. by rewrite lookup_empty.
  - intros i t. simpl. by rewrite lookup_nil.
Qed.

(** ** The lobby holds one player at most *)

Lemma singleLobby_delete (lb : list (string * LobbyPlayer)) (k : string) :
  ((length lb ≤ 1)%nat ∧ ∀ k e, (k, e) ∈ lb → truthy k = true) →
  (length (Map_delete k lb) ≤ 1)%nat ∧ ∀ k' e, (k', e) ∈ Map_delete k lb → truthy k' = true.
Proof.
  intros [Hlen Hkeys]. split.
  - pose proof (Map_delete_length k lb). lia.
  - intros k' e Hin. apply (Hkeys k' e). by eapply elem_of_Map_delete.
Qed.

Lemma singleLobby_enter (k : string) (e : LobbyPlayer) :
  truthy k = true →
  (length (Map_set k e []) ≤ 1)%nat ∧ ∀ k' e', (k', e') ∈ Map_set k e [] → truthy k' = true.
Proof.
  intros Hk. split; [done|]. intros k' e' Hin.
  apply list_elem_of_singleton in Hin. congruence.
Qed.

Ltac single_step Hs :=
  first [ exact Hs
        | by apply singleLobby_delete
        | by apply singleLobby_enter
        | exfalso;
          match goal with
          | H : truthy ?s = false |- _ =>
              destruct Hs as [_ Hs]; rewrite (Hs s _ (list_elem_of_here _ _)) in H; discriminate
          end ].

Lemma resume_single (t : Task) (st : State) :
  singleLobby st → identifiedTask t →
  singleLobby (resume t st).1 ∧ ∀ t', (resume t st).2 = Some t' → identifiedTask t'.
Proof.
  destruct st as [us lb pd ac ob no tm nt rd out].
  unfold singleLobby. simpl. intros Hs Htask.
  destruct t; simpl in Htask; simpl; unfold_state; simpl;
    repeat (case_match; simpl); simplify_eq/=; unfold_state; simpl in *.
  all: split; [single_step Hs|intros ? [=]; subst; simpl; done].
Qed.

Lemma invoke_single (c : Command) (st : State) :
  identified c → singleLobby st →
  singleLobby (invoke c st).1 ∧ ∀ t', (invoke c st).2 = Some t' → identifiedTask t'.
Proof.
  destruct st as [us lb pd ac ob no tm nt rd out].
  unfold singleLobby. simpl. intros Hc Hs.
  invoke_split c; simpl in *.
  all: split; [single_step Hs|intros ? [=]; subst; simpl; done].
Qed.

Lemma fire_single (id : nat) (st : State) :
  singleLobby st →
  singleLobby (fire id st).1 ∧ ∀ t', (fire id st).2 = Some t' → identifiedTask t'.
Proof.
  destruct st as [us lb pd ac ob no tm nt rd out].
  unfold singleLobby. simpl. intros Hs.
  unfold fire; simpl; unfold_state; simpl;
    repeat (case_match; simpl); simplify_eq/=; unfold_state; simpl in *.
  all: split; [single_step Hs|intros ? [=]; subst; simpl; done].
Qed.

(** X3: at most one player waits.  As long as each 对对碰匹配 comes
    from a session whose user id is not empty, the lobby holds one entry at
    most in every state the game reaches, whatever the interleaving: there
    is no [await] between the look at the lobby (line 668) and the entry
    into it (line 718), and a caller who finds an entry goes on to pair. *)
Theorem X3_lobby_holds_one_at_most (db : gmap string UserData) (tape : list Q)
    (schedule : list Action) :
  Forall (permitted identified) schedule →
  (length (matchingLobby (state (run (boot db tape) schedule))) ≤ 1)%nat.
Proof.
  intros Hall.
  assert (invariant singleLobby (λ _, identifiedTask) (run (boot db tape) schedule))
    as [[H _] _]; [|exact H].
  apply (run_invariant identified); [| | |done|].
  - intros c st Hc Hs. by destruct (invoke_single c st Hc Hs).
  - intros id st Hs. by destruct (fire_single id st Hs).
  - intros t st Hs Ht. by destruct (resume_single t st Hs Ht).
  - split.
    + split; [simpl; lia|]. intros k e Hin. inversion Hin.
    + intros i t. simpl. by rewrite lookup_nil.
Qed.

(** ** The game writes points only *)

Lemma pointsOnly_alter (db us : gmap string UserData) (p : Z) (k : string) :
  (∀ id, match db !! id, us !! id with
         | Some u0, Some u => u = withPoints (points u) u0
         | None, None => True
         | _, _ => False
         end) →
  ∀ id, match db !! id, alter (withPoints p) k us !! id with
        | Some u0, Some u => u = withPoints (points u) u0
        | None, None => True
        | _, _ => False
        end.
Proof.
  intros H id. specialize (H id). rewrite lookup_alter. case_decide; [|done]. subst.
  destruct (db !! id) as [u0|], (us !! id) as [u|]; simpl; try done.
  by rewrite H.
Qed.

Ltac points_step H := first [ exact H | by apply pointsOnly_alter ].

Lemma resume_pointsOnly (db : gmap string UserData) (t : Task) (st : State) :
  pointsOnly db st → pointsOnly db (resume t st).1.
Proof.
  destruct st as [us lb pd ac ob no tm nt rd out]. unfold pointsOnly. simpl. intros H.
  destruct t; simpl; unfold_state; simpl;
    repeat (case_match; simpl); simplify_eq/=; points_step H.
Qed.

Lemma invoke_pointsOnly (db : gmap string UserData) (c : Command) (st : State) :
  pointsOnly db st → pointsOnly db (invoke c st).1.
Proof.
  destruct st as [us lb pd ac ob no tm nt rd out]. unfold pointsOnly. simpl. intros H.
  invoke_split c; simpl; points_step H.
Qed.

Lemma fire_pointsOnly (db : gmap string UserData) (id : nat) (st : State) :
  pointsOnly db st → pointsOnly db (fire id st).1.
Proof.
  destruct st as [us lb pd ac ob no tm nt rd out]. unfold pointsOnly. simpl. intros H.
  unfold fire; simpl; unfold_state; simpl;
    repeat (case_match; simpl); simplify_eq/=; points_step H.
Qed.

(** X25: the game writes points only.  Under every interleaving the
    ledger has, after any schedule, the rows it had when the plugin was
    loaded, no more and no fewer, and each row has its [userId], [username],
    check-in date, level, experience and streak as they were: every write
    of the game is a [set] of [points] on the row of a user id (lines 665,
    675, 713, 846 and 847). *)
Theorem X25_game_writes_points_only (db : gmap string UserData) (tape : list Q)
    (schedule : list Action) (id : string) :
  let st := state (run (boot db tape) schedule) in
  (is_Some (users st !! id) ↔ is_Some (db !! id))
  ∧ ∀ u0 u, db !! id = Some u0 → users st !! id = Some u →
      userId u = userId u0 ∧ username u = username u0 ∧ lastCheckIn u = lastCheckIn u0
      ∧ lv u = lv u0 ∧ experience u = experience u0 ∧ streak u = streak u0.
Proof.
  assert (invariant (pointsOnly db) (λ _ _, True) (run (boot db tape) schedule)) as [H _].
  { apply (run_invariant (λ _, True)).
    - intros c st _ Hs. split; [by apply invoke_pointsOnly|done].
    - intros i st Hs. split; [by apply fire_pointsOnly|done].
    - intros t st Hs _. split; [by apply resume_pointsOnly|done].
    - apply permitted_any.
    - split; [|done]. intros k. simpl. destruct (db !! k) as [[]|]; done. }
  cbv zeta. specialize (H id).
  destruct (db !! id) as [u0|], (users _ !! id) as [u|]; try done.
  split; [split; by eexists|]. intros ? ? [= <-] [= <-]. by rewrite H.
Qed.

(** ** The stale branch *)

Lemma not_stale (out : list Event) (e : Event) :
  (∀ caller, Returned caller MsgStaleOpponent ∉ out) →
  (∀ caller, e ≠ Returned caller MsgStaleOpponent) →
  ∀ caller, Returned caller MsgStaleOpponent ∉ out ++ [e].
Proof.
  intros Ho He caller Hin. apply elem_of_app in Hin as [Hin|Hin]; [by apply (Ho caller)|].
  apply list_elem_of_singleton in Hin. by apply (He caller).
Qed.

Ltac residents_step Hl :=
  repeat first
    [ progress intros
    | progress simplify_eq/=
    | done
    | absurd_read
    | apply not_stale
    | apply registered_alter
    | match goal with
      | H : _ ∈ Map_delete _ _ |- _ => apply elem_of_Map_delete in H
      | H : _ ∈ Map_set _ _ _ |- _ => apply elem_of_Map_set_key in H as [H|[? ?]]
      | H : _ ∈ [] |- _ => inversion H
      | |- _ ∧ _ => split
      end
    | eapply Hl; eassumption
    | eassumption ].

Lemma resume_residents (t : Task) (st : State) :
  residentsRegistered st → pairingTask st t →
  residentsRegistered (resume t st).1
  ∧ ∀ t', (resume t st).2 = Some t' → pairingTask (resume t st).1 t'.
Proof.
  destruct st as [us lb pd ac ob no tm nt rd out].
  unfold residentsRegistered. simpl. intros [Hl Hout] Htask.
  destruct t; simpl in Htask; simpl; unfold_state; simpl;
    repeat (case_match; simpl); simplify_eq/=; unfold_state; simpl in *.
  all: try absurd_read.
  all: split; [split|intros ? [=]; subst; simpl].
  all: residents_step Hl.
  - apply Htask. by eexists.
  - apply (Hl s l0). left.
Qed.

Lemma invoke_residents (c : Command) (st : State) :
  residentsRegistered st →
  residentsRegistered (invoke c st).1
  ∧ ∀ t', (invoke c st).2 = Some t' → pairingTask (invoke c st).1 t'.
Proof.
  destruct st as [us lb pd ac ob no tm nt rd out].
  unfold residentsRegistered. simpl. intros [Hl Hout].
  invoke_split c; simpl in *.
  all: split; [split|intros ? [=]; subst; simpl].
  all: residents_step Hl.
Qed.

Lemma fire_residents (id : nat) (st : State) :
  residentsRegistered st →
  residentsRegistered (fire id st).1
  ∧ ∀ t', (fire id st).2 = Some t' → pairingTask (fire id st).1 t'.
Proof.
  destruct st as [us lb pd ac ob no tm nt rd out].
  unfold residentsRegistered. simpl. intros [Hl Hout].
  unfold fire; simpl; unfold_state; simpl;
    repeat (case_match; simpl); simplify_eq/=; unfold_state; simpl in *.
  all: split; [split|intros ? [=]; subst; simpl].
  all: residents_step Hl.
Qed.

Lemma pairingTask_extends (st st' : State) (t : Task) :
  extends st st' → pairingTask st t → pairingTask st' t.
Proof. intros [Hu _]. destruct t; simpl; auto. Qed.

(** X26: as long as no row leaves the ledger by another way, the
    stale-opponent branch of lines 672-677 is never taken.  In every state
    the game reaches, whatever the interleaving, everybody in the lobby has
    a row (a caller enters the lobby only after the read of line 640 has
    found one, and the game removes no row), and no call has been answered
    with the stale-opponent text. *)
Theorem X26_stale_branch_is_not_taken (db : gmap string UserData) (tape : list Q)
    (schedule : list Action) :
  let st := state (run (boot db tape) schedule) in
  (∀ k e, (k, e) ∈ matchingLobby st → is_Some (users st !! k))
  ∧ ∀ caller, Returned caller MsgStaleOpponent ∉ outbox st.
Proof.
  assert (invariant residentsRegistered pairingTask (run (boot db tape) schedule))
    as [H _]; [|exact H].
  apply (run_invariant (λ _, True)).
  - intros c st _ Hs. destruct (invoke_residents c st Hs) as [H1 H2].
    split_and!; [done| |done]. intros t. apply pairingTask_extends, invoke_extends.
  - intros i st Hs. destruct (fire_residents i st Hs) as [H1 H2].
    split_and!; [done| |done]. intros t. apply pairingTask_extends, fire_extends.
  - intros t st Hs Ht. destruct (resume_residents t st Hs Ht) as [H1 H2].
    split_and!; [done| |done]. intros u. apply pairingTask_extends, resume_extends.
  - apply permitted_any.
  - split; [|by intros i t; simpl; rewrite lookup_nil]. split.
    + intros k e Hin. inversion Hin.
    + intros caller Hin. inversion Hin.
Qed.

(** ** Whoever waits has a timeout armed *)

Ltac grows_step :=
  unfold lobbyGrows; simpl;
  (split; [lia|]); intros ? ? ?;
  repeat match goal with
    | H : _ ∈ Map_delete _ _ |- _ => apply elem_of_Map_delete in H
    | H : _ ∈ Map_set _ _ _ |- _ => apply elem_of_Map_set_key in H as [H|[? ?]]
    | H : _ ∈ [] |- _ => inversion H
    end; subst; simpl; auto.

Lemma resume_grows (t : Task) (st : State) : lobbyGrows st (resume t st).1.
Proof.
  destruct st as [us lb pd ac ob no tm nt rd out].
  destruct t; simpl; unfold_state; simpl;
    repeat (case_match; simpl); simplify_eq/=; grows_step.
Qed.

Lemma invoke_grows (c : Command) (st : State) : lobbyGrows st (invoke c st).1.
Proof.
  destruct st as [us lb pd ac ob no tm nt rd out].
  invoke_split c; grows_step.
Qed.

Lemma fire_grows (id : nat) (st : State) : lobbyGrows st (fire id st).1.
Proof.
  destruct st as [us lb pd ac ob no tm nt rd out].
  unfold fire; simpl; unfold_state; simpl;
    repeat (case_match; simpl); simplify_eq/=; grows_step.
Qed.

Lemma timedTask_grows (st st' : State) (t : Task) :
  lobbyGrows st st' → timedTask st t → timedTask st' t.
Proof.
  intros [Hn Hl]. destruct t; simpl; try done. intros [Hlt Hown]. split; [lia|].
  intros k e Hin Heq. destruct (Hl k e Hin) as [Hold|Hnew]; [by apply (Hown k e)|lia].
Qed.

Section Timed.

Variables (lb : list (string * LobbyPlayer)) (ob : gmap nat ActiveGame)
          (tm : gmap nat Timer) (nt : nat).
Hypothesis Hl : ∀ k e, (k, e) ∈ lb →
  sessionUserId (session e) = k ∧ (timeoutId e < nt)%nat
  ∧ ∃ user totalCost,
      tm !! timeoutId e = Some (LobbyTimeout (session e) user totalCost, LOBBY_TIMEOUT_MS).
Hypothesis Ho : ∀ ref a, ob !! ref = Some a →
  (intervalId a < nt)%nat
  ∧ ∀ session user totalCost ms,
      tm !! intervalId a ≠ Some (LobbyTimeout session user totalCost, ms).

(** A new timer leaves the entries and the objects as they are. *)
Lemma timed_entry_armed (f : Timer) (k : string) (e : LobbyPlayer) :
  (k, e) ∈ lb →
  sessionUserId (session e) = k ∧ (timeoutId e < S nt)%nat
  ∧ ∃ user totalCost,
      <[nt := f]> tm !! timeoutId e
      = Some (LobbyTimeout (session e) user totalCost, LOBBY_TIMEOUT_MS).
Proof.
  intros Hin. destruct (Hl k e Hin) as (Hk & Hlt & user & c & Ht).
  split; [done|]. split; [lia|]. exists user, c. rewrite lookup_insert_ne; [done|lia].
Qed.

Lemma timed_object_armed (f : Timer) (ref : nat) (a : ActiveGame) :
  ob !! ref = Some a →
  (intervalId a < S nt)%nat
  ∧ ∀ session user totalCost ms,
      <[nt := f]> tm !! intervalId a ≠ Some (LobbyTimeout session user totalCost, ms).
Proof.
  intros Ha. destruct (Ho ref a Ha) as [Hlt Hno]. split; [lia|].
  intros ? ? ? ?. rewrite lookup_insert_ne; [apply Hno|lia].
Qed.

(** A cleared timer that is not the entry's, and a cleared timer and the
    objects. *)
Lemma timed_entry_cleared (id : nat) (k : string) (e : LobbyPlayer) :
  (k, e) ∈ lb → timeoutId e ≠ id →
  sessionUserId (session e) = k ∧ (timeoutId e < nt)%nat
  ∧ ∃ user totalCost,
      delete id tm !! timeoutId e
      = Some (LobbyTimeout (session e) user totalCost, LOBBY_TIMEOUT_MS).
Proof.
  intros Hin Hne. destruct (Hl k e Hin) as (Hk & Hlt & user & c & Ht).
  split; [done|]. split; [done|]. exists user, c. by rewrite lookup_delete_ne.
Qed.

Lemma timed_object_cleared (id ref : nat) (a : ActiveGame) :
  ob !! ref = Some a →
  (intervalId a < nt)%nat
  ∧ ∀ session user totalCost ms,
      delete id tm !! intervalId a ≠ Some (LobbyTimeout session user totalCost, ms).
Proof.
  intros Ha. destruct (Ho ref a Ha) as [Hlt Hno]. split; [done|].
  intros ? ? ? ?. rewrite lookup_delete. case_decide; [done|apply Hno].
Qed.

(** The timer of an entry is not the timer an object names, and two
    entries with one timer are one player's. *)
Lemma timed_entry_not_interval (k : string) (e : LobbyPlayer) (ref : nat) (a : ActiveGame) :
  (k, e) ∈ lb → ob !! ref = Some a → timeoutId e ≠ intervalId a.
Proof.
  intros Hin Ha Heq. destruct (Hl k e Hin) as (_ & _ & user & c & Ht).
  destruct (Ho ref a Ha) as [_ Hno]. rewrite Heq in Ht. by apply Hno in Ht.
Qed.

Lemma timed_entries_agree (k k' : string) (e e' : LobbyPlayer) :
  (k, e) ∈ lb → (k', e') ∈ lb → timeoutId e = timeoutId e' → k = k'.
Proof.
  intros Hin Hin' Heq.
  destruct (Hl k e Hin) as (Hk & _ & user & c & Ht).
  destruct (Hl k' e' Hin') as (Hk' & _ & user' & c' & Ht').
  rewrite Heq, Ht' in Ht. injection Ht as Hs _ _. by rewrite <- Hk, <- Hk', Hs.
Qed.

Lemma timed_entry_owner (id : nat) (session : Session) (user : UserData) (c ms : Z)
    (k : string) (e : LobbyPlayer) :
  tm !! id = Some (LobbyTimeout session user c, ms) →
  (k, e) ∈ lb → timeoutId e = id → k = sessionUserId session.
Proof.
  intros Hid Hin Heq. destruct (Hl k e Hin) as (Hk & _ & user' & c' & Ht).
  rewrite Heq, Hid in Ht. injection Ht as Hs _ _ _. by rewrite <- Hk, Hs.
Qed.

End Timed.

Ltac timed_split :=
  repeat match goal with
    | H : _ ∈ Map_delete ?k' _ |- _ =>
        let Hne := fresh "Hne" in
        pose proof (elem_of_Map_delete_ne _ _ _ _ H) as Hne;
        apply elem_of_Map_delete in H
    | H : _ ∈ Map_set _ _ _ |- _ => apply elem_of_Map_set_key in H as [H|[? ?]]
    | H : _ ∈ [] |- _ => inversion H
    | H : <[_ := _]> _ !! _ = Some _ |- _ => rewrite lookup_insert in H; case_decide
    | H : alter _ _ _ !! _ = Some _ |- _ =>
        rewrite lookup_alter in H; case_decide;
        [rewrite fmap_Some in H; destruct H as (? & ? & ?)|]
    end.

Ltac timed_finish Hl Ho :=
  first
    [ (* the entry that comes in *)
      split; [done|]; split; [lia|]; eexists _, _; apply lookup_insert_eq
    | (* the interval that is armed *)
      split; [lia|]; intros ? ? ? ?; rewrite lookup_insert_eq; discriminate
    | (* the entry read from the lobby *)
      split; [eapply Hl; left|];
      intros ? ? ? ?; eapply (timed_entries_agree _ _ _ Hl); [eassumption|left|done]
    | (* a timer cleared at settlement *)
      eapply (timed_entry_cleared _ _ _ Hl); [eassumption|];
      eapply (timed_entry_not_interval _ _ _ _ Hl Ho); eassumption
    | (* a timer cleared at pairing *)
      eapply (timed_entry_cleared _ _ _ Hl); [eassumption|] ].

Lemma resume_timed (t : Task) (st : State) :
  timedLobby st → timedTask st t →
  timedLobby (resume t st).1 ∧ ∀ t', (resume t st).2 = Some t' → timedTask (resume t st).1 t'.
Proof.
  destruct st as [us lb pd ac ob no tm nt rd out].
  unfold timedLobby. simpl. intros [Hl Ho] Htask.
  destruct t; simpl in Htask; simpl; unfold_state; simpl;
    repeat (case_match; simpl); simplify_eq/=; unfold_state; simpl in *.
  all: split; [split|intros ? [=]; subst; simpl; try done].
  all: try assumption.
  all: intros; timed_split; simplify_eq/=.
  all: try (by eapply Hl).
  all: try (by eapply Ho).
  all: try (by eapply (timed_entry_armed _ _ _ Hl)).
  all: try (by eapply (timed_object_armed _ _ _ Ho)).
  all: try (by eapply (timed_object_cleared _ _ _ Ho)).
  all: timed_finish Hl Ho.
  - destruct Htask as [_ Hown]. intros Heq. apply Hne. by apply (Hown k e).
Qed.

Lemma invoke_timed (c : Command) (st : State) :
  timedLobby st →
  timedLobby (invoke c st).1 ∧ ∀ t', (invoke c st).2 = Some t' → timedTask (invoke c st).1 t'.
Proof.
  destruct st as [us lb pd ac ob no tm nt rd out].
  unfold timedLobby. simpl. intros [Hl Ho].
  invoke_split c; simpl in *.
  all: split; [split|intros ? [=]; subst; simpl; try done].
  all: try assumption.
  all: intros; timed_split; simplify_eq/=.
  all: try (by eapply Hl).
  all: try (by eapply Ho).
  all: try (by eapply (timed_entry_armed _ _ _ Hl)).
  all: try (by eapply (timed_object_armed _ _ _ Ho)).
  all: try (by eapply (timed_object_cleared _ _ _ Ho)).
  split; [lia|]. intros ? ? ? ?. rewrite lookup_insert_eq. discriminate.
Qed.

Lemma fire_timed (id : nat) (st : State) :
  timedLobby st →
  timedLobby (fire id st).1 ∧ ∀ t', (fire id st).2 = Some t' → timedTask (fire id st).1 t'.
Proof.
  destruct st as [us lb pd ac ob no tm nt rd out].
  unfold timedLobby. simpl. intros [Hl Ho].
  unfold fire; simpl; unfold_state; simpl;
    repeat (case_match; simpl); simplify_eq/=; unfold_state; simpl in *.
  all: split; [split|intros ? [=]; subst; simpl; try done].
  all: try assumption.
  all: intros; timed_split; simplify_eq/=.
  all: try (by eapply Hl).
  all: try (by eapply Ho).
  all: try (by eapply (timed_entry_armed _ _ _ Hl)).
  all: try (by eapply (timed_object_armed _ _ _ Ho)).
  all: try (by eapply (timed_object_cleared _ _ _ Ho)).
  - (* the timeout of another player's entry *)
    eapply (timed_entry_cleared _ _ _ Hl); [eassumption|]. intros Heq. apply Hne.
    by eapply (timed_entry_owner _ _ _ Hl).
  - (* the timeout of a player who is no longer in the lobby *)
    eapply (timed_entry_cleared _ _ _ Hl); [eassumption|]. intros Heq.
    pose proof (timed_entry_owner _ _ _ Hl _ _ _ _ _ _ _ H H0 Heq) as ->.
    apply elem_of_Map_has in H0. congruence.
  - (* the placeholder of line 737 *)
    eapply (timed_entry_cleared _ _ _ Hl); [eassumption|]. intros Heq.
    destruct (Hl k e H0) as (_ & _ & ? & ? & Ht). rewrite Heq, H in Ht. discriminate.
Qed.

Lemma timed_preserved :
  (∀ c st, timedLobby st → preserves timedLobby timedTask st (invoke c st))
  ∧ (∀ id st, timedLobby st → preserves timedLobby timedTask st (fire id st))
  ∧ (∀ t st, timedLobby st → timedTask st t → preserves timedLobby timedTask st (resume t st)).
Proof.
  split_and!.
  - intros c st Hs. destruct (invoke_timed c st Hs) as [H1 H2]. split_and!; [done| |done].
    intros t. apply timedTask_grows, invoke_grows.
  - intros id st Hs. destruct (fire_timed id st Hs) as [H1 H2]. split_and!; [done| |done].
    intros t. apply timedTask_grows, fire_grows.
  - intros t st Hs Ht. destruct (resume_timed t st Hs Ht) as [H1 H2].
    split_and!; [done| |done].
    intros u. apply timedTask_grows, resume_grows.
Qed.

(** X27: whoever waits has a timeout armed.  In every state the game
    reaches, whatever the interleaving, an entry of the lobby is stored
    under the user id of its session, and the timer it names is armed with
    that session's timeout callback and the delay [LOBBY_TIMEOUT_MS]: a
    lobby timer is cleared or fires only together with the removal of the
    entry it belongs to (lines 679-680 and 710-711), and the timers cleared
    at settlement are no lobby timers. *)
Theorem X27_waiting_player_has_a_timeout (db : gmap string UserData) (tape : list Q)
    (schedule : list Action) (k : string) (e : LobbyPlayer) :
  let st := state (run (boot db tape) schedule) in
  (k, e) ∈ matchingLobby st →
  sessionUserId (session e) = k
  ∧ ∃ user totalCost,
      timers st !! timeoutId e
      = Some (LobbyTimeout (session e) user totalCost, LOBBY_TIMEOUT_MS).
Proof.
  intros st Hin. destruct timed_preserved as (Hi & Hf & Hr).
  assert (invariant timedLobby timedTask (run (boot db tape) schedule)) as [[Hl _] _].
  { apply (run_invariant (λ _, True)); [auto|done|done|apply permitted_any|]. split.
    - split; [intros ? ? H; inversion H|]. intros ref a. simpl. by rewrite lookup_empty.
    - intros i t. simpl. by rewrite lookup_nil. }
  destruct (Hl k e Hin) as (Hk & _ & user & c & Ht). split; [done|].
  by exists user, c.
Qed.

(** ** The phrases of a broadcast *)

(** X4: the phrase of a broadcast is one of the list.  For a draw in
    [0, 1) the index [Math.floor(r * PHRASES.length)] of lines 816-817 is
    within the list, so [pick] gives the phrase at that index and never
    [undefined]. *)
Theorem X4_pick_in_phrases (phrases : list string) (r : Q) :
  phrases ≠ [] → (0 <= r)%Q → (r < 1)%Q →
  pick phrases r ∈ phrases
  ∧ pick phrases r = nth (Z.to_nat (Qfloor (r * inject_Z (Z.of_nat (length phrases)))))
                         phrases "undefined"%string.
Proof.
  intros Hne H0 H1. unfold pick.
  assert (0 < Z.of_nat (length phrases)) as Hlen by (destruct phrases; [done|simpl; lia]).
  pose proof (floor_draw r _ H0 H1 Hlen) as Hi. cbv zeta.
  destruct (Z.ltb_spec (Qfloor (r * inject_Z (Z.of_nat (length phrases)))) 0); [lia|].
  split; [|done]. apply list_elem_of_In, nth_In. lia.
Qed.

(** ** Games and their keys *)

(** X5: in every reachable state a pending game is stored under its
    [player1Id] and an active game too (lines 700 and 739 are the only
    writes).  The second test of line 729 therefore never decides: a caller
    with a pending game under their own id is accepted by 开始对对碰. *)
Theorem X5_games_stored_under_initiator (s : System) :
  reachable s →
  (∀ k g, pendingGames (state s) !! k = Some g → player1Id g = k)
  ∧ (∀ k ref, activeGames (state s) !! k = Some ref →
       ∃ a, objects (state s) !! ref = Some a ∧ player1Id (game a) = k)
  ∧ (∀ caller, is_Some (pendingGames (state s) !! sessionUserId caller) →
       ∃ st' t, invoke (Cmd_start caller) (state s) = (st', Some t)).
Proof.
  intros Hr. destruct (reachable_keyed s Hr) as (Hp & Ha & _).
  split; [done|]. split; [done|].
  intros caller [g Hg]. simpl. unfold startGame. rewrite Hg.
  rewrite decide_True by (by apply Hp). simpl. eauto.
Qed.

(** X6: the check of line 660 is exact in every reachable state: it is
    true for a player exactly when the player is in the lobby or is one of
    the two players of a pending or of an active game. *)
Theorem X6_membership_check_is_exact (s : System) (id : string) :
  reachable s →
  (alreadyInGame id (state s) = true ↔ participant id (state s)).
Proof.
  intros Hr. pose proof (reachable_keyed s Hr) as Hk. split.
  - destruct Hk as (Hp & Ha & _). rewrite alreadyInGame_true.
    intros [H|[[g Hg]|[[ref Href]|[(k & g & Hg & H2)|(k & ref & a & Hk & Href & H2)]]]].
    + by left.
    + right. left. exists id, g. split; [done|]. left. by apply Hp.
    + right. right. destruct (Ha id ref Href) as (a & Hobj & H1). exists id, ref, a. auto.
    + right. left. exists k, g. auto.
    + right. right. exists k, ref, a. auto.
  - by apply participant_alreadyInGame.
Qed.

(** ** Handlers that do not interleave *)

Lemma orderly_exclusive (db : gmap string UserData) (tape : list Q) (l : list Occurrence) :
  keyed (orderly db tape l) ∧ exclusive (orderly db tape l).
Proof.
  unfold orderly.
  assert (keyed (state (boot db tape)) ∧ exclusive (state (boot db tape))) as H0.
  { split; [apply reachable_keyed; by exists db, tape, []|].
    split_and!.
    - intros i Hin. inversion Hin.
    - intros i (k & g & Hk & _). simpl in Hk. by rewrite lookup_empty in Hk.
    - intros k k' g g' i Hk. simpl in Hk. by rewrite lookup_empty in Hk. }
  revert H0. generalize (state (boot db tape)).
  induction l as [|o l IH]; intros st [Hk Hex]; [done|].
  simpl. apply IH. by apply occur_orderly.
Qed.

(** X7: with every command and every timer callback handled to its end
    before the next one starts, a player is never in two of the three
    stores, nor in two pending games. *)
Theorem X7_one_store_at_a_time (db : gmap string UserData) (tape : list Q)
    (l : list Occurrence) (id : string) :
  let st := orderly db tape l in
  ¬ (inLobby id st ∧ inPending id st)
  ∧ ¬ (inLobby id st ∧ inActive id st)
  ∧ ¬ (inPending id st ∧ inActive id st)
  ∧ (∀ k k' g g', pendingGames st !! k = Some g → pendingGames st !! k' = Some g' →
       player1Id g = id ∨ player2Id g = id →
       player1Id g' = id ∨ player2Id g' = id → k = k').
Proof.
  destruct (orderly_exclusive db tape l) as [Hk (H1 & H2 & H3)]. simpl. split_and!.
  - intros [Hl Hp]. by destruct (H1 id Hl).
  - intros [Hl Ha]. by destruct (H1 id Hl).
  - intros [Hp Ha]. by apply (H2 id Hp).
  - intros k k' g g'. apply H3.
Qed.

(** ** Nobody plays against themselves *)

Ltac players_step Hp Ho :=
  repeat first
    [ progress intros
    | progress simplify_eq/=
    | match goal with
      | H : <[_ := _]> _ !! _ = Some _ |- _ => rewrite lookup_insert in H; case_decide
      | H : delete _ _ !! _ = Some _ |- _ => rewrite lookup_delete in H; case_decide
      | H : alter _ _ _ !! _ = Some _ |- _ =>
          rewrite lookup_alter in H; case_decide;
          [rewrite fmap_Some in H; destruct H as (? & ? & ?)|]
      end
    | by eapply Hp
    | by eapply Ho ].

Lemma resume_twoPlayers (t : Task) (st : State) :
  twoPlayers st → undisturbed t st → twoPlayers (resume t st).1.
Proof.
  destruct st as [us lb pd ac ob no tm nt rd out].
  unfold twoPlayers. simpl. intros [Hp Ho] Hu.
  destruct t; simpl in Hu; simpl; unfold_state; simpl;
    repeat (case_match; simpl); simplify_eq/=; unfold_state; simpl in *.
  all: split; players_step Hp Ho.
  all: by destruct Hu as (_ & _ & Hne).
Qed.

Lemma invoke_twoPlayers (c : Command) (st : State) : twoPlayers st → twoPlayers (invoke c st).1.
Proof.
  destruct st as [us lb pd ac ob no tm nt rd out].
  unfold twoPlayers. simpl. intros [Hp Ho].
  invoke_split c; simpl in *.
  all: split; players_step Hp Ho.
Qed.

Lemma fire_twoPlayers (id : nat) (st : State) : twoPlayers st → twoPlayers (fire id st).1.
Proof.
  destruct st as [us lb pd ac ob no tm nt rd out].
  unfold twoPlayers. simpl. intros [Hp Ho].
  unfold fire; simpl; unfold_state; simpl;
    repeat (case_match; simpl); simplify_eq/=; unfold_state; simpl in *.
  all: split; players_step Hp Ho.
Qed.

Lemma complete_twoPlayers (n : nat) (r : State * option Task) :
  keyed r.1 → exclusive r.1 → twoPlayers r.1 → (∀ t, r.2 = Some t → undisturbed t r.1) →
  keyed (complete n r).1 ∧ exclusive (complete n r).1 ∧ twoPlayers (complete n r).1.
Proof.
  revert r. induction n as [|n IH]; intros [st [t|]]; simpl; intros Hk Hex Htwo Hu; try done.
  apply IH.
  - by apply resume_keyed.
  - by apply resume_orderly; [..|apply Hu].
  - by apply resume_twoPlayers; [|apply Hu].
  - by apply resume_orderly; [..|apply Hu].
Qed.

Lemma orderly_twoPlayers (db : gmap string UserData) (tape : list Q) (l : list Occurrence) :
  twoPlayers (orderly db tape l).
Proof.
  assert (keyed (orderly db tape l) ∧ exclusive (orderly db tape l)
          ∧ twoPlayers (orderly db tape l)) as (_ & _ & H); [|exact H].
  unfold orderly.
  assert (keyed (state (boot db tape)) ∧ exclusive (state (boot db tape))
          ∧ twoPlayers (state (boot db tape))) as H0.
  { destruct (orderly_exclusive db tape []) as [Hk Hex]. split; [done|]. split; [done|].
    split; [intros k g|intros ref a]; simpl; by rewrite lookup_empty. }
  revert H0. generalize (state (boot db tape)).
  induction l as [|o l IH]; intros st (Hk & Hex & Htwo); [done|].
  simpl. apply IH. destruct o as [c|id]; simpl; unfold handle, expire.
  - apply complete_twoPlayers.
    + by apply invoke_keyed.
    + by apply invoke_orderly.
    + by apply invoke_twoPlayers.
    + by apply invoke_orderly.
  - apply complete_twoPlayers.
    + by apply fire_keyed.
    + by apply fire_orderly.
    + by apply fire_twoPlayers.
    + by apply fire_orderly.
Qed.

(** X28: with every command and every timer callback handled to its
    end before the next one starts, the two players of a pending game are
    different, and those of an active game too: the caller has passed the
    check of line 660, so the entry found in the lobby is somebody
    else's. *)
Theorem X28_nobody_plays_themselves (db : gmap string UserData) (tape : list Q)
    (l : list Occurrence) :
  let st := orderly db tape l in
  (∀ k g, pendingGames st !! k = Some g → player1Id g ≠ player2Id g)
  ∧ ∀ k ref a, activeGames st !! k = Some ref → objects st !! ref = Some a →
               player1Id (game a) ≠ player2Id (game a).
Proof.
  destruct (orderly_twoPlayers db tape l) as [Hp Ho]. split; [done|].
  intros k ref a _. apply Ho.
Qed.

(** ** Pairing and the battle, handled in order *)

(** X8: a caller who passes the checks while somebody waits is paired
    with the first entry of the lobby.  Handled to its end, the call removes
    that entry and clears its timer, and stores under the resident's id a
    pending game with the resident as player 1, the caller as player 2 and
    both stakes; the caller's balance carries the escrow debit, the
    resident's is as it was; each of the two is sent the other's name and
    the caller gets the answer.  The caller does not enter the lobby. *)
Theorem X8_pairing_takes_the_first_entry (st : State) (caller : Session) (stake : Z)
    (user resident : UserData) (opponentId : string) (entry : LobbyPlayer)
    (rest : list (string * LobbyPlayer)) :
  users st !! sessionUserId caller = Some user →
  0 < stake → stake + DEPOSIT ≤ points user →
  alreadyInGame (sessionUserId caller) st = false →
  matchingLobby st = (opponentId, entry) :: rest →
  truthy opponentId = true →
  users st !! opponentId = Some resident →
  ∃ st' g,
    handle (Cmd_match caller (Some stake)) st = (st', None)
    ∧ Map_has opponentId (matchingLobby st') = false
    ∧ Map_has (sessionUserId caller) (matchingLobby st') = false
    ∧ timers st' = delete (timeoutId entry) (timers st)
    ∧ pendingGames st' = <[opponentId := g]> (pendingGames st)
    ∧ player1Id g = opponentId ∧ player2Id g = sessionUserId caller
    ∧ player1Session g = session entry ∧ player2Session g = caller
    ∧ player1Bet g = bet entry ∧ player2Bet g = stake
    ∧ pointsOf (sessionUserId caller) st' = Some (points user - (stake + DEPOSIT))
    ∧ pointsOf opponentId st' = Some (points resident)
    ∧ outbox st' = outbox st ++ [Sent (session entry) (MsgMatchedPlayer1 (username user));
                                 Sent caller (MsgMatchedPlayer2 (username resident));
                                 Returned caller MsgMatched].
Proof.
  intros Hu Hs Hc Hin Hl Ht Ho.
  assert (opponentId ≠ sessionUserId caller) as Hne.
  { apply alreadyInGame_lobby in Hin. rewrite Hl in Hin. simpl in Hin.
    by case_decide. }
  rewrite (enqueue_pairs st caller stake user resident opponentId entry rest) by done.
  eexists _, _. split; [reflexivity|]. simpl. split_and!; try done.
  - apply Map_has_delete_same.
  - rewrite Map_has_delete, decide_False by done.
    apply alreadyInGame_lobby in Hin. rewrite Hl in Hin. simpl in Hin.
    by case_decide.
  - unfold pointsOf. simpl. by rewrite lookup_alter_eq, Hu.
  - unfold pointsOf. simpl. by rewrite lookup_alter_ne, Ho by congruence.
Qed.

(** X9: a confirmed game, every handler run to its end before the next
    starts.  开始对对碰 sends the two start notices and the first broadcast
    before it answers; three firings of the interval give the broadcasts 2
    to 4 and leave the ledger alone, the game still in [activeGames]; the
    fourth firing gives broadcast 5 and the two result messages, takes the
    game out of [activeGames] and clears the interval, so that a further
    firing changes nothing. *)
Theorem X9_confirmed_game_settles_once (st : State) (initiator : Session) (g : PendingGame)
    (p1 p2 : UserData) :
  pendingGames st !! sessionUserId initiator = Some g →
  player1Id g = sessionUserId initiator →
  winnerId g = player1Id g ∨ winnerId g = player2Id g →
  users st !! player1Id g = Some p1 →
  users st !! player2Id g = Some p2 →
  let interval := S (nextTimer st) in
  let p1wins := bool_decide (winnerId g = player1Id g) in
  let w := if p1wins then p1 else p2 in
  let l := if p1wins then p2 else p1 in
  let to1 := Sent (player1Session g) in
  let to2 := Sent (player2Session g) in
  let tape (n : nat) := Nat.iter n (λ t, tl (tl t)) (random st) in
  let tick (s : State) := (expire interval s).1 in
  let started := (handle (Cmd_start initiator) st).1 in
  let fourth := tick (tick (tick started)) in
  let settled := tick fourth in
  outbox fourth
  = outbox st ++ [to1 MsgBattleStart; to2 MsgBattleStart;
                  to1 (logLine 1 w l (tape 0%nat)); to2 (logLine 1 w l (tape 0%nat));
                  Returned initiator MsgBattleRunning;
                  to1 (logLine 2 w l (tape 1%nat)); to2 (logLine 2 w l (tape 1%nat));
                  to1 (logLine 3 w l (tape 2%nat)); to2 (logLine 3 w l (tape 2%nat));
                  to1 (logLine 4 w l (tape 3%nat)); to2 (logLine 4 w l (tape 3%nat))]
  ∧ users fourth = users st
  ∧ activeGames fourth !! player1Id g = Some (nextObject st)
  ∧ outbox settled
    = outbox fourth
      ++ [to1 (logLine 5 w l (tape 4%nat)); to2 (logLine 5 w l (tape 4%nat));
          to1 (if p1wins
               then MsgWon (username p1) (player2Bet g) (points p1 + (player2Bet g + DEPOSIT))
               else MsgLost (username p1) (player1Bet g) (points p1));
          to2 (if p1wins
               then MsgLost (username p2) (player2Bet g) (points p2)
               else MsgWon (username p2) (player1Bet g) (points p2 + (player1Bet g + DEPOSIT)))]
  ∧ activeGames settled !! player1Id g = None
  ∧ timers settled !! interval = None
  ∧ tick settled = settled.
Proof.
  intros Hg H1 Hwin Hp1 Hp2.
  destruct (battle_runs_five_ticks st initiator g p1 p2 Hg H1 Hwin Hp1 Hp2)
    as (first & st1 & st2 & st3 & st4 & st5 & _ & Hof & _ & E1 & Ho1 & _ & E2 & Ho2
        & E3 & Ho3 & E4 & Ho4 & Ha4 & _ & Hu4 & E5 & Ho5 & _ & Ha5 & Ht5 & E6).
  cbv zeta. rewrite E1. cbn [fst]. rewrite E2. cbn [fst]. rewrite E3. cbn [fst].
  rewrite E4. cbn [fst]. rewrite E5. cbn [fst]. rewrite E6. cbn [fst].
  split_and!; try done.
  rewrite Ho4, Ho3, Ho2, Ho1, Hof. by rewrite <- !app_assoc.
Qed.

(** ** 注册 *)

Lemma elem_of_get_by_username (name : string) (st : State) (u : UserData) :
  u ∈ database_get_by_username name st ↔ (∃ k, users st !! k = Some u) ∧ username u = name.
Proof.
  unfold database_get_by_username. rewrite list_elem_of_filter, list_elem_of_fmap.
  split.
  - intros [Hn ([k u'] & -> & Hin)]. apply elem_of_map_to_list in Hin. eauto.
  - intros [[k Hk] Hn]. split; [done|]. exists (k, u). split; [done|].
    by apply elem_of_map_to_list.
Qed.

Lemma head_get_by_username (name : string) (st : State) :
  match head (database_get_by_username name st) with
  | Some u => (∃ k, users st !! k = Some u) ∧ username u = name
  | None => ∀ k u, users st !! k = Some u → username u ≠ name
  end.
Proof.
  destruct (database_get_by_username name st) as [|u l] eqn:E; simpl.
  - intros k u Hk Hn.
    assert (u ∈ database_get_by_username name st) as Hin
      by (apply elem_of_get_by_username; eauto).
    rewrite E in Hin. inversion Hin.
  - apply elem_of_get_by_username. rewrite E. left.
Qed.

Lemma blank_truthy (name : string) : blank name = false → truthy name = true.
Proof. by destruct name. Qed.

Lemma register_checks_pass (session : Session) (name : string) (st : State) :
  validName name →
  register session (Some name) st
  = let taken :=
      match head (database_get_by_username name st) with
      | Some existingUserWithSameName =>
          bool_decide (userId existingUserWithSameName ≠ sessionUserId session)
      | None => false
      end in
    if taken then (st, answer (MsgNameTaken name))
    else
      match database_get (sessionUserId session) st with
      | Some user =>
          if decide (username user = name) then (st, answer (MsgSameName (username user)))
          else (database_set_username (sessionUserId session) name st,
                answer (MsgRenamed name))
      | None =>
          match database_create (newUser (sessionUserId session) name) st with
          | Some st1 => (st1, answer (MsgRegistered name))
          | None => (st, mkReply [] Rejected)
          end
      end.
Proof.
  intros [Hb [H2 H15]]. unfold register.
  rewrite (blank_truthy name Hb), Hb. simpl.
  destruct (Z.ltb_spec 15 (String_length name)); [lia|].
  destruct (Z.ltb_spec (String_length name) 2); [lia|]. done.
Qed.

Lemma free_head (name : string) (st : State) :
  freeName name st → head (database_get_by_username name st) = None.
Proof.
  intros Hfree. pose proof (head_get_by_username name st) as H.
  destruct (head _) as [u|]; [|done].
  destruct H as [[k Hk] Hn]. by destruct (Hfree k u Hk).
Qed.

(** X10: 注册 turns down a bad name before it reads the ledger: a missing,
    empty or blank name with the "invalid name" text, a name of fewer than 2
    or more than 15 UTF-16 code units with the "length" text.  The state is
    as it was. *)
Theorem X10_register_rejects_bad_name (session : Session) (argument : option string) (st : State) :
  match argument with
  | None => True
  | Some name => ¬ validName name
  end →
  ∃ m, register session argument st = (st, answer m)
       ∧ (m = MsgInvalidName ∨ m = MsgNameLength)
       ∧ (m = MsgInvalidName ↔
            match argument with None => True | Some name => blank name = true end).
Proof.
  destruct argument as [name|]; intros Hbad; simpl.
  2: { exists MsgInvalidName. by repeat split; auto. }
  destruct (blank name) eqn:Hb.
  - exists MsgInvalidName. rewrite orb_true_r. by repeat split; auto.
  - rewrite (blank_truthy name Hb). simpl.
    destruct (Z.ltb_spec 15 (String_length name)); simpl.
    { exists MsgNameLength. split; [done|]. split; [by right|]. split; done. }
    destruct (Z.ltb_spec (String_length name) 2); simpl.
    { exists MsgNameLength. split; [done|]. split; [by right|]. split; done. }
    destruct Hbad. split; [done|lia].
Qed.

(** X11: 注册 refuses a name that another user carries (and the caller
    does not): the answer is the "taken" text and nothing is written. *)
Theorem X11_register_name_taken (session : Session) (name : string) (st : State)
    (holder : string) (other : UserData) :
  validName name →
  primaryKey (users st) →
  users st !! holder = Some other → username other = name →
  holder ≠ sessionUserId session →
  (∀ own, users st !! sessionUserId session = Some own → username own ≠ name) →
  register session (Some name) st = (st, answer (MsgNameTaken name)).
Proof.
  intros Hv Hpk Hh Hn Hne Hown. rewrite register_checks_pass by done. simpl.
  pose proof (head_get_by_username name st) as H.
  destruct (head _) as [u|].
  - destruct H as [[k Hk] Hu]. rewrite bool_decide_eq_true_2; [done|].
    rewrite (Hpk k u Hk). intros ->. by destruct (Hown u Hk).
  - by destruct (H holder other Hh).
Qed.

(** When the name is not refused as taken, whoever carries it is the caller. *)
Lemma register_not_taken (session : Session) (name : string) (st : State) :
  primaryKey (users st) → uniqueNames (users st) →
  match head (database_get_by_username name st) with
  | Some existing => bool_decide (userId existing ≠ sessionUserId session)
  | None => false
  end = false →
  ∀ k u, users st !! k = Some u → username u = name → k = sessionUserId session.
Proof.
  intros Hpk Hun Ht k u Hk Hn.
  pose proof (head_get_by_username name st) as H.
  destruct (head _) as [h|].
  - destruct H as [[kh Hkh] Hh]. apply bool_decide_eq_false in Ht.
    apply dec_stable in Ht. rewrite (Hpk kh h Hkh) in Ht. subst kh.
    apply (Hun k _ u h Hk Hkh). congruence.
  - by destruct (H k u Hk).
Qed.

(** X12: 注册 keeps the ledger well formed.  If every row is stored
    under its [userId] and no two rows share a [username], the same holds
    after any call of 注册, the rows of the other users are as they were,
    and the call has not thrown ([create] is only reached when the caller
    has no row). *)
Theorem X12_register_keeps_ledger (session : Session) (argument : option string) (st : State) :
  primaryKey (users st) → uniqueNames (users st) →
  let result := register session argument st in
  primaryKey (users result.1) ∧ uniqueNames (users result.1)
  ∧ (∀ k, k ≠ sessionUserId session → users result.1 !! k = users st !! k)
  ∧ ending result.2 ≠ Rejected.
Proof.
  intros Hpk Hun. simpl. unfold register.
  destruct argument as [name|]; [|done].
  destruct (negb (truthy name) || blank name); [done|].
  destruct ((15 <? String_length name) || (String_length name <? 2)); [done|].
  destruct (match head _ with Some _ => _ | None => _ end) eqn:Ht; [done|].
  pose proof (register_not_taken session name st Hpk Hun Ht) as Hfree.
  unfold database_get, database_create. simpl.
  destruct (users st !! sessionUserId session) as [user|] eqn:Hu.
  - case_decide as Hsame; [done|]. simpl. split_and!; [| |by intros; rewrite lookup_alter_ne|done].
    + intros k u. rewrite lookup_alter. case_decide; [|apply Hpk].
      subst. rewrite Hu. simpl. intros [= <-]. simpl. by apply Hpk.
    + intros k k' u u'. rewrite !lookup_alter.
      repeat case_decide; subst; rewrite ?Hu; simpl; try done.
      * intros [= <-] Hk' Hn. simpl in Hn. symmetry. by apply (Hfree k' u').
      * intros Hk [= <-] Hn. simpl in Hn. by apply (Hfree k u).
      * apply Hun.
  - simpl. split_and!; [| |by intros; rewrite lookup_insert_ne|done].
    + intros k u. rewrite lookup_insert. case_decide; [|apply Hpk]. by intros [= <-].
    + intros k k' u u'. rewrite !lookup_insert.
      repeat case_decide; subst; simpl; try done.
      * intros [= <-] Hk' Hn. simpl in Hn. symmetry. by apply (Hfree k' u').
      * intros Hk [= <-] Hn. simpl in Hn. by apply (Hfree k u).
      * apply Hun.
Qed.

(** X13: a user without a row who registers a valid name that nobody
    carries gets a new row with that name, no points, level 0, no experience,
    no streak and no check-in date; 查询积分 then shows exactly that row, and
    a second 注册 with the same name answers "already registered" and
    changes nothing. *)
Theorem X13_register_new_account (session : Session) (name : string) (st : State) :
  validName name → freeName name st →
  users st !! sessionUserId session = None →
  ∃ st',
    register session (Some name) st = (st', answer (MsgRegistered name))
    ∧ users st' = <[sessionUserId session := newUser (sessionUserId session) name]> (users st)
    ∧ queryPoints session st'
      = (st', answer (MsgProfile (mkUserData (sessionUserId session) name None 0 0 0 0)))
    ∧ register session (Some name) st'
      = (st', answer (MsgSameName name)).
Proof.
  intros Hv Hfree Hu.
  set (st' := set_users (<[sessionUserId session := newUser (sessionUserId session) name]>) st).
  assert (users st' !! sessionUserId session = Some (newUser (sessionUserId session) name))
    as Hnew by apply lookup_insert_eq.
  exists st'. split_and!.
  - rewrite register_checks_pass by done. simpl.
    rewrite (free_head name st Hfree). unfold database_get, database_create. simpl.
    by rewrite Hu.
  - done.
  - unfold queryPoints, database_get. by rewrite Hnew.
  - rewrite register_checks_pass by done.
    pose proof (head_get_by_username name st') as H. cbv zeta.
    destruct (head _) as [h|].
    + destruct H as [[k Hk] Hn]. simpl in Hk. rewrite lookup_insert in Hk. case_decide.
      * injection Hk as <-. rewrite bool_decide_eq_false_2 by (simpl; auto).
        unfold database_get. rewrite Hnew. simpl. by rewrite decide_True.
      * by destruct (Hfree k h Hk).
    + exfalso. by apply (H _ _ Hnew).
Qed.

(** X14: a user with a row who registers a valid name that nobody carries
    is renamed: the row keeps its points, level, experience, streak and
    check-in date, the stores of the game are untouched, and a second 注册
    with the same name answers "already registered" and changes nothing. *)
Theorem X14_register_renames (session : Session) (name : string) (st : State) (user : UserData) :
  validName name → freeName name st →
  users st !! sessionUserId session = Some user →
  userId user = sessionUserId session →
  ∃ st',
    register session (Some name) st = (st', answer (MsgRenamed name))
    ∧ users st'
      = <[sessionUserId session :=
            mkUserData (userId user) name (lastCheckIn user) (points user) (lv user)
                       (experience user) (streak user)]> (users st)
    ∧ matchingLobby st' = matchingLobby st ∧ pendingGames st' = pendingGames st
    ∧ activeGames st' = activeGames st ∧ objects st' = objects st
    ∧ register session (Some name) st' = (st', answer (MsgSameName name)).
Proof.
  intros Hv Hfree Hu Hid.
  set (row := mkUserData (userId user) name (lastCheckIn user) (points user) (lv user)
                         (experience user) (streak user)).
  set (st' := database_set_username (sessionUserId session) name st).
  assert (users st' = <[sessionUserId session := row]> (users st)) as Hus.
  { apply map_eq. intros k. simpl. rewrite lookup_alter, lookup_insert.
    case_decide; [|done]. subst. by rewrite Hu. }
  assert (users st' !! sessionUserId session = Some row) as Hrow
    by (by rewrite Hus, lookup_insert_eq).
  exists st'. split_and!; try done.
  - rewrite register_checks_pass by done. cbv zeta.
    rewrite (free_head name st Hfree). unfold database_get. rewrite Hu.
    by rewrite decide_False by (by apply Hfree in Hu).
  - rewrite register_checks_pass by done.
    pose proof (head_get_by_username name st') as H. cbv zeta.
    destruct (head _) as [h|].
    + destruct H as [[k Hk] Hn]. rewrite Hus, lookup_insert in Hk. case_decide.
      * injection Hk as <-. rewrite bool_decide_eq_false_2 by (simpl; auto).
        unfold database_get. rewrite Hrow. simpl. by rewrite decide_True.
      * by destruct (Hfree k h Hk).
    + exfalso. by apply (H _ _ Hrow).
Qed.

(** ** 炉管打卡 *)

Lemma checkInFails_ordinary (st : State) : checkInFails false false st = (false, st).
Proof. done. Qed.

(** X15: the first 炉管打卡 of a user without a row creates the row under
    the session's display name, with no points, and awards nothing; no draw
    is made.  The name is taken as it is: when another user carries it, two
    rows share a name afterwards (the check of 注册 is not made here). *)
Theorem X15_checkIn_first_time (config : Config) (today : string) (session : Session)
    (sessionUsername : string) (st : State) :
  users st !! sessionUserId session = None →
  ∃ st',
    checkIn config today session sessionUsername st
      = (st', answer (MsgTempAccount sessionUsername))
    ∧ users st'
      = <[sessionUserId session := newUser (sessionUserId session) sessionUsername]> (users st)
    ∧ random st' = random st
    ∧ ∀ k other, users st !! k = Some other → username other = sessionUsername →
                 ¬ uniqueNames (users st').
Proof.
  intros Hu. unfold checkIn, database_get, database_create. simpl. rewrite Hu.
  eexists. split; [reflexivity|]. simpl. split; [done|]. split; [done|].
  intros k other Hk Hn Hun.
  assert (k ≠ sessionUserId session) as Hne by (intros ->; congruence).
  apply Hne. apply (Hun k (sessionUserId session) other
                      (newUser (sessionUserId session) sessionUsername)).
  - by rewrite lookup_insert_ne.
  - apply lookup_insert_eq.
  - done.
Qed.

(** X16: a check-in on an ordinary day outside development mode, by a
    user who has not checked in today, always succeeds.  With a draw in
    [0, 1) the gain is between 1 and 25 points; the row gets the gain, 10
    experience, one more on the streak whatever the date of the last
    check-in (the streak is never reset), today's date, and one level more
    exactly when the new experience reaches (lv + 1) * 20, which is when
    the level-up notice is sent.  One draw is consumed. *)
Theorem X16_checkIn_success (config : Config) (today : string) (session : Session)
    (sessionUsername : string) (st : State) (user : UserData) :
  users st !! sessionUserId session = Some user →
  lastCheckIn user ≠ Some today →
  isDevelopment config = false → today ∉ specialDates config →
  (0 <= hd 0%Q (random st))%Q → (hd 0%Q (random st) < 1)%Q →
  ∃ pointsGained notices st',
    checkIn config today session sessionUsername st
      = (st', mkReply notices
                (Answered (MsgCheckedIn pointsGained (points user + pointsGained)
                                        (levelAfter user) (experience user + 10))))
    ∧ 1 ≤ pointsGained ≤ 25
    ∧ users st'
      = <[sessionUserId session :=
            mkUserData (userId user) (username user) (Some today)
                       (points user + pointsGained) (levelAfter user)
                       (experience user + 10) (streak user + 1)]> (users st)
    ∧ lv user ≤ levelAfter user ≤ lv user + 1
    ∧ (MsgLevelUp (username user) (lv user + 1) ∈ notices ↔ levelAfter user = lv user + 1)
    ∧ random st' = tl (random st).
Proof.
  intros Hu Hday Hdev Hspecial H0 H1.
  pose proof (floor_draw _ 25 H0 H1 eq_refl) as Hfloor.
  change (inject_Z 25) with 25%Q in Hfloor.
  unfold checkIn, database_get. rewrite Hu, Hdev.
  rewrite decide_False by done. rewrite bool_decide_eq_false_2 by done.
  cbv zeta. unfold Math_random at 1. cbv beta iota zeta.
  rewrite checkInFails_ordinary. cbv iota beta.
  eexists _, _, _. split; [reflexivity|]. split; [lia|]. split.
  { simpl. apply map_eq. intros k. rewrite lookup_alter, lookup_insert.
    case_decide; [|done]. subst. by rewrite Hu. }
  unfold levelAfter. split; [case_match; lia|]. split; [|done].
  destruct (Z.leb_spec ((lv user + 1) * 20) (experience user + 10)).
  - split; [done|]. intros _. apply elem_of_app. left. apply list_elem_of_here.
  - split; [|lia]. intros Hin. apply elem_of_app in Hin as [Hin|Hin]; [inversion Hin|].
    case_match; [|inversion Hin]. apply list_elem_of_singleton in Hin. discriminate.
Qed.

Lemma checkInFails_tape (dev special : bool) (st : State) :
  users (checkInFails dev special st).2 = users st.
Proof.
  unfold checkInFails. destruct dev, special; simpl; repeat case_match; done.
Qed.

(** What a call of 炉管打卡 does to the ledger: nothing, or one new row, or
    the caller's row rewritten. *)
Lemma checkIn_ledger (config : Config) (today : string) (session : Session)
    (sessionUsername : string) (st : State) :
  let result := checkIn config today session sessionUsername st in
  match users st !! sessionUserId session with
  | None =>
      users result.1
      = <[sessionUserId session := newUser (sessionUserId session) sessionUsername]> (users st)
      ∧ ending result.2 = Answered (MsgTempAccount sessionUsername)
  | Some user =>
      (users result.1 = users st
       ∧ ∀ g c l e, ending result.2 ≠ Answered (MsgCheckedIn g c l e))
      ∨ (∃ g, users result.1
              = <[sessionUserId session :=
                    mkUserData (userId user) (username user) (Some today) (points user + g)
                               (levelAfter user) (experience user + 10) (streak user + 1)]>
                  (users st)
              ∧ lastCheckIn user ≠ Some today
              ∧ ending result.2
                = Answered (MsgCheckedIn g (points user + g) (levelAfter user)
                                         (experience user + 10)))
  end.
Proof.
  simpl. unfold checkIn, database_get, database_create. simpl.
  destruct (users st !! sessionUserId session) as [user|] eqn:Hu; simpl; [|done].
  case_decide as Hday; [by left|].
  destruct (checkInFails _ _ _) as [failed st2] eqn:E.
  pose proof (checkInFails_tape (isDevelopment config)
                (bool_decide (today ∈ specialDates config))
                (Math_random st).2) as Ht.
  unfold Math_random in *. simpl in *. rewrite E in Ht. simpl in Ht.
  destruct failed; simpl.
  - left. done.
  - right. eexists. split; [|done]. rewrite Ht.
    apply map_eq. intros k. rewrite lookup_alter, lookup_insert.
    destruct (decide (sessionUserId session = k)); [|done]. subst. by rewrite Hu.
Qed.

(** X17: after a successful check-in, a further 炉管打卡 of the same user
    under the same date (whatever the configuration and the display name)
    answers "already checked in" and changes nothing. *)
Theorem X17_checkIn_once_a_day (config : Config) (today : string) (session : Session)
    (sessionUsername : string) (st : State) (pointsGained current level exp : Z) :
  let result := checkIn config today session sessionUsername st in
  ending result.2 = Answered (MsgCheckedIn pointsGained current level exp) →
  ∀ (config' : Config) (sessionUsername' : string),
    checkIn config' today session sessionUsername' result.1
    = (result.1, answer MsgCheckedInToday).
Proof.
  intros result Hok config' name'.
  pose proof (checkIn_ledger config today session sessionUsername st) as H.
  fold result in H. simpl in H.
  destruct (users st !! sessionUserId session) as [user|] eqn:Hu.
  - destruct H as [[_ Hno]|(g & Hus & _ & _)]; [by destruct (Hno _ _ _ _ Hok)|].
    unfold checkIn at 1, database_get. rewrite Hus, lookup_insert_eq. simpl.
    by rewrite decide_True.
  - destruct H as [_ H]. congruence.
Qed.

(** X18: 炉管打卡 keeps the level in step with the experience: if in
    every row lv * 20 <= experience < (lv + 1) * 20, the same holds after
    any call, for the row it rewrites and for the row it creates. *)
Theorem X18_checkIn_keeps_levels (config : Config) (today : string) (session : Session)
    (sessionUsername : string) (st : State) :
  (∀ k u, users st !! k = Some u → levelled u) →
  ∀ k u, users (checkIn config today session sessionUsername st).1 !! k = Some u →
         levelled u.
Proof.
  intros Hlv k u.
  pose proof (checkIn_ledger config today session sessionUsername st) as H. simpl in H.
  destruct (users st !! sessionUserId session) as [user|] eqn:Hu.
  - destruct H as [[-> _]|(g & -> & _)]; [apply Hlv|].
    rewrite lookup_insert. case_decide; [|apply Hlv].
    intros [= <-]. specialize (Hlv _ _ Hu). unfold levelled, levelAfter in *. simpl.
    destruct (Z.leb_spec ((lv user + 1) * 20) (experience user + 10)); lia.
  - destruct H as [-> _]. rewrite lookup_insert. case_decide; [|apply Hlv].
    intros [= <-]. unfold levelled. simpl. lia.
Qed.

(** X19: a failed check-in writes nothing: the ledger is as it was.  It
    happens only in development mode or on a special date.  The notices of
    lines 606 and 612 are sent before the test of line 616: a level-up that
    was due has been announced although the level is not stored. *)
Theorem X19_checkIn_failure (config : Config) (today : string) (session : Session)
    (sessionUsername : string) (st : State) :
  let result := checkIn config today session sessionUsername st in
  ending result.2 = Answered MsgCheckInFailed →
  users result.1 = users st
  ∧ (isDevelopment config = true ∨ today ∈ specialDates config)
  ∧ ∀ user, users st !! sessionUserId session = Some user →
            (lv user + 1) * 20 ≤ experience user + 10 →
            MsgLevelUp (username user) (lv user + 1) ∈ said result.2.
Proof.
  simpl. unfold checkIn, database_get, database_create. simpl.
  destruct (users st !! sessionUserId session) as [user|] eqn:Hu; simpl; [|done].
  case_decide as Hday; [done|].
  destruct (checkInFails _ _ _) as [failed st2] eqn:E.
  pose proof (checkInFails_tape (isDevelopment config)
                (bool_decide (today ∈ specialDates config))
                (Math_random st).2) as Ht.
  unfold Math_random in *. simpl in *. rewrite E in Ht. simpl in Ht.
  destruct failed; simpl; [|done]. intros _. split; [done|]. split.
  - unfold checkInFails in E. destruct (isDevelopment config); [by left|].
    case_bool_decide; [by right|]. simpl in E. congruence.
  - intros ? [= <-] Hup. destruct (Z.leb_spec ((lv user + 1) * 20) (experience user + 10));
      [|lia]. apply elem_of_app. left. apply list_elem_of_here.
Qed.

(** ** 积分榜单 *)

#[local] Instance richer_transitive : Transitive richer.
Proof. intros u v w. unfold richer. lia. Qed.

#[local] Instance richer_total : Total richer.
Proof. intros u v. unfold richer. lia. Qed.

Lemma select_rows (st : State) (u : UserData) :
  u ∈ database_select_by_points st ↔ ∃ k, users st !! k = Some u.
Proof.
  unfold database_select_by_points. rewrite merge_sort_Permutation, list_elem_of_fmap.
  split.
  - intros ([k u'] & -> & Hin). apply elem_of_map_to_list in Hin. eauto.
  - intros [k Hk]. exists (k, u). split; [done|]. by apply elem_of_map_to_list.
Qed.

Lemma select_length (st : State) :
  length (database_select_by_points st) = size (users st).
Proof.
  unfold database_select_by_points.
  by rewrite merge_sort_Permutation, length_fmap, length_map_to_list.
Qed.

Lemma select_sorted (st : State) (i j : nat) (u v : UserData) :
  database_select_by_points st !! i = Some u →
  database_select_by_points st !! j = Some v →
  (i < j)%nat → points v ≤ points u.
Proof.
  unfold database_select_by_points.
  pose proof (StronglySorted_merge_sort richer (map_to_list (users st)).*2) as Hs.
  revert i j. induction Hs as [|x l Hs IH Hall]; intros i j Hi Hj Hlt; [done|].
  destruct j as [|j]; [lia|]. destruct i as [|i]; simpl in *.
  - injection Hi as <-. rewrite Forall_forall in Hall. apply Hall.
    by eapply list_elem_of_lookup_2.
  - apply (IH i j); [done|done|lia].
Qed.

Lemma take_min {A} (n : nat) (l : list A) : take (n `min` length l) l = take n l.
Proof.
  destruct (Nat.min_spec n (length l)) as [[_ ->]|[Hle ->]]; [done|].
  by rewrite !take_ge by lia.
Qed.

(** X20: 积分榜单 answers "empty" exactly on an empty ledger; otherwise
    its list is the first [RANK_TOP_N] rows of the ledger ordered by points,
    highest first: min(10, number of rows) entries, each a row of the
    ledger, in non-increasing order of points, and no row left out has more
    points than a listed one.  The state is unchanged. *)
Theorem X20_rankBoard_top (session : Session) (st : State) :
  ∃ m, rankBoard session st = (st, answer m)
    ∧ match m with
      | MsgRankEmpty => users st = ∅
      | MsgRank top own =>
          users st ≠ ∅
          ∧ length top = (RANK_TOP_N `min` size (users st))%nat
          ∧ top = take RANK_TOP_N (database_select_by_points st)
          ∧ (∀ u, u ∈ top → ∃ k, users st !! k = Some u)
          ∧ (∀ i j u v, top !! i = Some u → top !! j = Some v → (i < j)%nat →
                        points v ≤ points u)
          ∧ (∀ u v k, u ∈ top → users st !! k = Some v → v ∉ top → points v ≤ points u)
      | _ => False
      end.
Proof.
  unfold rankBoard. cbv zeta. pose proof (select_length st) as Hlen.
  case_decide as Hz.
  - exists MsgRankEmpty. split; [done|]. apply map_size_empty_inv. lia.
  - eexists (MsgRank _ _). split; [reflexivity|].
    rewrite take_min.
    split_and!.
    + intros He. rewrite He, map_size_empty in Hlen. lia.
    + rewrite length_take. lia.
    + done.
    + intros u Hin. apply select_rows. apply elem_of_take in Hin as (i & Hi & _).
      by eapply list_elem_of_lookup_2.
    + intros i j u v Hi Hj Hlt. apply lookup_take_Some in Hi as [Hi _].
      apply lookup_take_Some in Hj as [Hj _]. by eapply select_sorted.
    + intros u v k Hu Hv Hnot.
      assert (v ∈ database_select_by_points st) as Hin by (apply select_rows; eauto).
      apply list_elem_of_lookup in Hin as [j Hj].
      apply list_elem_of_lookup in Hu as [i Hi].
      apply lookup_take_Some in Hi as [Hi Hi10].
      destruct (decide (j < RANK_TOP_N)%nat) as [Hj10|Hj10].
      * destruct Hnot. apply list_elem_of_lookup. exists j.
        by apply lookup_take_Some.
      * eapply select_sorted; [exact Hi|exact Hj|lia].
Qed.

(** X21: the caller's place on the board, with rows stored under their
    [userId].  When the board ends with the caller's rank line, the line
    carries the caller's row and its index in the ordered ledger plus one,
    which is more than [RANK_TOP_N]; the row is not among the listed ones
    and has no more points than any of them.  When the board has no extra
    line, the caller's row is among the listed ones.  The "no data" line
    appears exactly when the caller has no row. *)
Theorem X21_rankBoard_own (session : Session) (st : State) (top : list UserData) (own : OwnRank) :
  primaryKey (users st) →
  rankBoard session st = (st, answer (MsgRank top own)) →
  match own with
  | Listed => ∃ u, users st !! sessionUserId session = Some u ∧ u ∈ top
  | Ranked position u =>
      users st !! sessionUserId session = Some u
      ∧ (u ∉ top)
      ∧ (RANK_TOP_N < position)%nat
      ∧ database_select_by_points st !! (position - 1)%nat = Some u
      ∧ ∀ v, v ∈ top → points u ≤ points v
  | Unranked => users st !! sessionUserId session = None
  end.
Proof.
  intros Hpk. unfold rankBoard. cbv zeta. case_decide as Hz; [done|].
  rewrite take_min. intros [= <- <-].
  destruct (list_find _ _) as [[i u]|] eqn:Hfind.
  - apply list_find_Some in Hfind as (Hi & Hid & Hfirst).
    assert (users st !! sessionUserId session = Some u) as Hu.
    { assert (u ∈ database_select_by_points st) as Hin
        by (by eapply list_elem_of_lookup_2).
      apply select_rows in Hin as [k Hk]. by rewrite <- Hid, (Hpk k u Hk). }
    case_decide as H10.
    + split; [done|]. split_and!.
      * intros Hin. apply list_elem_of_lookup in Hin as [j Hj].
        apply lookup_take_Some in Hj as [Hj Hj10].
        apply (Hfirst j u Hj); [|done]. lia.
      * lia.
      * by replace (i + 1 - 1)%nat with i by lia.
      * intros v Hin. apply list_elem_of_lookup in Hin as [j Hj].
        apply lookup_take_Some in Hj as [Hj Hj10].
        eapply select_sorted; [exact Hj|exact Hi|lia].
    + exists u. split; [done|]. apply list_elem_of_lookup. exists i.
      apply lookup_take_Some. split; [done|]. lia.
  - apply list_find_None in Hfind. rewrite Forall_forall in Hfind.
    destruct (users st !! sessionUserId session) as [u|] eqn:Hu; [|done].
    exfalso. apply (Hfind u); [|by apply Hpk]. apply select_rows. eauto.
Qed.

(** ** Development mode *)

(** X22: with draws in [0, 1), the random user of development mode
    has a level from 1 to 5, experience 20 times the level (so that level
    and experience are in step), 10 to 109 points, a streak from 0 to 6 and
    no check-in date; three draws are consumed. *)
Theorem X22_generateRandomUserData_ranges (st : State) (id name : string) :
  unitDraws (random st) →
  let user := (generateRandomUserData st).1 id name in
  userId user = id ∧ username user = name ∧ lastCheckIn user = None
  ∧ 1 ≤ lv user ≤ 5 ∧ experience user = lv user * 20 ∧ levelled user
  ∧ 10 ≤ points user ≤ 109 ∧ 0 ≤ streak user ≤ 6
  ∧ random (generateRandomUserData st).2 = drop 3 (random st).
Proof.
  intros H1. pose proof (unitDraws_tl _ H1) as H2. pose proof (unitDraws_tl _ H2) as H3.
  apply unitDraws_hd in H1 as [? ?]. apply unitDraws_hd in H2 as [? ?].
  apply unitDraws_hd in H3 as [? ?].
  pose proof (floor_draw (hd 0%Q (random st)) 5 ltac:(done) ltac:(done) eq_refl) as F1.
  pose proof (floor_draw (hd 0%Q (tl (random st))) 100 ltac:(done) ltac:(done) eq_refl) as F2.
  pose proof (floor_draw (hd 0%Q (tl (tl (random st)))) 7 ltac:(done) ltac:(done) eq_refl)
    as F3.
  unfold generateRandomUserData, Math_random, levelled. cbn [fst snd random userId username
    lastCheckIn lv experience points streak].
  change (inject_Z 5) with 5%Q in F1. change (inject_Z 100) with 100%Q in F2.
  change (inject_Z 7) with 7%Q in F3.
  split_and!; try done; try lia.
  by destruct (random st) as [|? [|? [|? ?]]].
Qed.

(** X23: loading the plugin changes the ledger only in development
    mode, and then by at most one new row: no row that exists is changed or
    removed (a [create] under a user id that is taken is refused and the
    error logged), and with draws in [0, 1) the new row is stored under its
    [userId] with level 1 to 5, level and experience in step and 10 to 109
    points. *)
Theorem X23_applyDevelopment_adds_a_user (config : Config) (st : State) :
  let st' := applyDevelopment config st in
  (isDevelopment config = false → st' = st)
  ∧ (∀ k u, users st !! k = Some u → users st' !! k = Some u)
  ∧ (unitDraws (random st) →
     ∀ k u, users st' !! k = Some u → users st !! k = None →
       userId u = k ∧ 1 ≤ lv u ≤ 5 ∧ levelled u ∧ 10 ≤ points u ≤ 109
       ∧ ∀ k', users st' !! k' ≠ None → users st !! k' = None → k' = k).
Proof.
  cbv zeta. unfold applyDevelopment. destruct (isDevelopment config).
  2: { split_and!; [done|done|]. intros _ k u Hk Hno. congruence. }
  split; [done|].
  unfold generateRandomUserId.
  destruct (Math_random st) as [r0 st1] eqn:E0.
  destruct (generateRandomUserData st1) as [randomUser st2] eqn:E1.
  destruct (Math_random st2) as [r st3] eqn:E2.
  assert (users st3 = users st) as Hus.
  { unfold generateRandomUserData, Math_random in *. simplify_eq/=. done. }
  set (row := randomUser _ _).
  assert (userId row = ("user_" +:+ num (Qfloor (r0 * 10000)))%string) as Hid.
  { unfold row, generateRandomUserData, Math_random in *. simplify_eq/=. done. }
  unfold database_create.
  destruct (users st3 !! userId row) as [old|] eqn:Hold.
  - rewrite Hus. split; [done|]. intros _ k u Hk Hno. congruence.
  - simpl. rewrite Hus in *. split.
    + intros k u Hk. rewrite lookup_insert_ne; [done|]. intros <-. congruence.
    + intros Hd k u. rewrite lookup_insert. case_decide as Hk; [|congruence].
      intros [= <-] _. split; [done|].
      assert (unitDraws (random st1)) as Hd1.
      { unfold Math_random in E0. simplify_eq/=. by apply unitDraws_tl. }
      pose proof (X22_generateRandomUserData_ranges st1
                    ("user_" +:+ num (Qfloor (r0 * 10000)))%string
                    ("随机用户" +:+ num (Qfloor (r * 100000)))%string Hd1) as Hr.
      rewrite E1 in Hr. cbv zeta in Hr. cbn [fst] in Hr. fold row in Hr.
      destruct Hr as (_ & _ & _ & Hlv & _ & Hlev & Hp & _).
      split; [done|]. split; [done|]. split; [done|].
      intros k'. rewrite lookup_insert. case_decide; [intros; congruence|congruence].
Qed.

(** ** A check-in while waiting in the lobby *)

Lemma checkIn_frame (config : Config) (today : string) (session : Session)
    (sessionUsername : string) (st : State) :
  let st' := (checkIn config today session sessionUsername st).1 in
  matchingLobby st' = matchingLobby st ∧ pendingGames st' = pendingGames st
  ∧ activeGames st' = activeGames st ∧ objects st' = objects st
  ∧ timers st' = timers st ∧ outbox st' = outbox st.
Proof.
  simpl. unfold checkIn, database_get, database_create, checkInFails, Math_random.
  repeat (case_match; simplify_eq/=); done.
Qed.

(** X24: a check-in made while waiting in the lobby loses its points
    when the lobby timeout fires.  The player enters an empty lobby (the
    balance goes down by stake + deposit), checks in (the balance goes up by
    the gain), and the timeout writes back the balance read before the
    enqueue: the gain is gone, while the date, the experience, the level and
    the streak of the check-in stay, so the day's check-in cannot be
    repeated. *)
Theorem X24_timeout_refund_undoes_check_in (st : State) (caller : Session) (stake : Z)
    (user : UserData) (config : Config) (today sessionUsername : string) :
  users st !! sessionUserId caller = Some user →
  0 < stake → stake + DEPOSIT ≤ points user →
  alreadyInGame (sessionUserId caller) st = false →
  matchingLobby st = [] →
  lastCheckIn user ≠ Some today →
  isDevelopment config = false → today ∉ specialDates config →
  (0 <= hd 0%Q (random st))%Q → (hd 0%Q (random st) < 1)%Q →
  let waiting := (handle (Cmd_match caller (Some stake)) st).1 in
  let credited := (checkIn config today caller sessionUsername waiting).1 in
  let refunded := (expire (nextTimer st) credited).1 in
  ∃ pointsGained,
    1 ≤ pointsGained ≤ 25
    ∧ pointsOf (sessionUserId caller) waiting = Some (points user - (stake + DEPOSIT))
    ∧ pointsOf (sessionUserId caller) credited
      = Some (points user - (stake + DEPOSIT) + pointsGained)
    ∧ users refunded !! sessionUserId caller
      = Some (mkUserData (userId user) (username user) (Some today) (points user)
                         (levelAfter user) (experience user + 10) (streak user + 1))
    ∧ matchingLobby refunded = [].
Proof.
  intros Hu Hs Hc Hin Hl Hday Hdev Hspecial H0 H1 waiting credited refunded.
  pose proof (enqueue_enters st caller stake user Hu Hs Hc Hin Hl) as Hw.
  assert (users waiting !! sessionUserId caller
          = Some (withPoints (points user - (stake + DEPOSIT)) user)) as Huw.
  { unfold waiting. rewrite Hw. simpl. by rewrite lookup_alter_eq, Hu. }
  assert (random waiting = random st) as Hrw by (unfold waiting; by rewrite Hw).
  destruct (X16_checkIn_success config today caller sessionUsername waiting _ Huw)
    as (g & notices & st' & Hrun & Hg & Hus & _); try done; try (by rewrite Hrw).
  pose proof (checkIn_frame config today caller sessionUsername waiting) as Hf.
  fold credited in Hf. cbv zeta in Hf. destruct Hf as (Hfl & _ & _ & _ & Hft & _).
  assert (users credited = users st') as Huc by (unfold credited; by rewrite Hrun).
  exists g. split; [done|]. split.
  { unfold pointsOf. by rewrite Huw. }
  split.
  { unfold pointsOf. by rewrite Huc, Hus, lookup_insert_eq. }
  assert (timers credited !! nextTimer st
          = Some (LobbyTimeout caller (withPoints (points user - (stake + DEPOSIT)) user)
                               (stake + DEPOSIT), LOBBY_TIMEOUT_MS)) as Ht.
  { rewrite Hft. unfold waiting. rewrite Hw. simpl. apply lookup_insert_eq. }
  assert (matchingLobby credited
          = [(sessionUserId caller, mkLobbyPlayer stake caller (nextTimer st))]) as Hlc.
  { rewrite Hfl. unfold waiting. by rewrite Hw. }
  unfold refunded. rewrite (expire_refunds credited _ _ _ _ Ht).
  2: { rewrite Hlc. simpl. by rewrite decide_True. }
  simpl. split.
  - rewrite lookup_alter_eq, Huc, Hus, lookup_insert_eq. simpl.
    do 2 f_equal. unfold withPoints. simpl. f_equal. lia.
  - rewrite Hlc. unfold Map_delete. by rewrite decide_True.
Qed.

(** ** Instances for the account commands and the invariants *)

Lemma ledgerD_primaryKey : primaryKey (users idle).
Proof.
  intros k u. simpl. unfold ledgerD, ledger0. rewrite !lookup_insert.
  repeat case_decide; subst; try done; by intros [= <-].
Qed.

Lemma ledgerD_uniqueNames : uniqueNames (users idle).
Proof.
  intros k k' u u'. simpl. unfold ledgerD, ledger0. rewrite !lookup_insert.
  repeat case_decide; subst; try done; intros [= <-] [= <-]; done.
Qed.

Lemma ledgerD_free (name : string) :
  name ≠ "alice"%string → name ≠ "bob"%string → name ≠ "dave"%string → freeName name idle.
Proof.
  intros Ha Hb Hd k u. simpl. unfold ledgerD, ledger0. rewrite !lookup_insert.
  repeat case_decide; subst; try done; intros [= <-]; simpl; congruence.
Qed.

Lemma validName_carol : validName "carol".
Proof. split; [reflexivity|]. by vm_compute. Qed.

(** A name of one character, three bytes long, is too short. *)
Lemma X10_register_rejects_bad_name_witness :
  ∃ m, register sessionC (Some "张"%string) idle = (idle, answer m)
       ∧ (m = MsgInvalidName ∨ m = MsgNameLength).
Proof.
  destruct (X10_register_rejects_bad_name sessionC (Some "张"%string) idle) as (m & Hrun & Hm & _).
  - intros [_ [H _]]. by vm_compute in H.
  - exists m. split; [exact Hrun | exact Hm].
Defined.

(** C asks for the name of A. *)
Lemma X11_register_name_taken_witness :
  register sessionC (Some "alice"%string) idle = (idle, answer (MsgNameTaken "alice")).
Proof.
  apply (X11_register_name_taken sessionC "alice" idle "A" alice).
  - split; [reflexivity|]. by vm_compute.
  - exact ledgerD_primaryKey.
  - vm_compute. reflexivity.
  - reflexivity.
  - discriminate.
  - intros own H. vm_compute in H. discriminate.
Defined.

(** C registers as carol. *)
Lemma X13_register_new_account_witness :
  ∃ st', register sessionC (Some "carol"%string) idle = (st', answer (MsgRegistered "carol"))
       ∧ queryPoints sessionC st' = (st', answer (MsgProfile (mkUserData "C" "carol" None 0 0 0 0))).
Proof.
  destruct (X13_register_new_account sessionC "carol" idle) as (st' & H1 & _ & H2 & _).
  - exact validName_carol.
  - by apply ledgerD_free.
  - vm_compute. reflexivity.
  - exists st'. split; [exact H1 | exact H2].
Defined.

(** D takes the name carol. *)
Lemma X14_register_renames_witness :
  ∃ st', register sessionD (Some "carol"%string) idle = (st', answer (MsgRenamed "carol"))
       ∧ users st' = <["D"%string := mkUserData "D" "carol" (Some "01-01"%string) 7 1 30 6]> ledgerD.
Proof.
  destruct (X14_register_renames sessionD "carol" idle dave) as (st' & H1 & H2 & _).
  - exact validName_carol.
  - by apply ledgerD_free.
  - vm_compute. reflexivity.
  - reflexivity.
  - exists st'. split; [exact H1 | exact H2].
Defined.

(** The ledger of A, B and D after C has registered. *)
Lemma X12_register_keeps_ledger_witness :
  primaryKey (users (register sessionC (Some "carol"%string) idle).1)
  ∧ uniqueNames (users (register sessionC (Some "carol"%string) idle).1).
Proof.
  destruct (X12_register_keeps_ledger sessionC (Some "carol"%string) idle
              ledgerD_primaryKey ledgerD_uniqueNames) as (H1 & H2 & _).
  split; [exact H1 | exact H2].
Defined.

(** C has no row and checks in under the display name of A. *)
Lemma X15_checkIn_first_time_witness :
  ∃ st', checkIn defaultConfig "01-02" sessionC "alice" idle
         = (st', answer (MsgTempAccount "alice"))
       ∧ ¬ uniqueNames (users st').
Proof.
  destruct (X15_checkIn_first_time defaultConfig "01-02" sessionC "alice" idle)
    as (st' & H1 & _ & _ & H2); [vm_compute; reflexivity|].
  exists st'. split; [exact H1|].
  apply (H2 "A"%string alice); vm_compute; reflexivity.
Defined.

(** D checks in on 01-02 with a draw of 1/2: 13 points, level 2, the
    seventh check-in. *)
Lemma X16_checkIn_success_witness :
  ∃ notices st',
    checkIn defaultConfig "01-02" sessionD "dave" idle
    = (st', mkReply notices (Answered (MsgCheckedIn 13 20 2 40)))
    ∧ users st' !! "D"%string = Some (mkUserData "D" "dave" (Some "01-02"%string) 20 2 40 7).
Proof.
  destruct (X16_checkIn_success defaultConfig "01-02" sessionD "dave" idle dave)
    as (g & notices & st' & H1 & _ & H2 & _);
    try (vm_compute; reflexivity); try (by vm_compute).
  { intros H. simpl in H.
    repeat (apply elem_of_cons in H as [H|H]; [discriminate|]). inversion H. }
  assert (g = 13) as ->.
  { pose proof H1 as H. vm_compute in H. by injection H. }
  exists notices, st'. split; [exact H1|]. rewrite H2. apply lookup_insert_eq.
Defined.

(** D's second call on 01-02. *)
Lemma X17_checkIn_once_a_day_witness :
  let st' := (checkIn defaultConfig "01-02" sessionD "dave" idle).1 in
  checkIn defaultConfig "01-02" sessionD "dave" st' = (st', answer MsgCheckedInToday).
Proof.
  apply (X17_checkIn_once_a_day defaultConfig "01-02" sessionD "dave" idle 13 20 2 40).
  vm_compute. reflexivity.
Defined.

Lemma ledgerD_levelled (k : string) (u : UserData) : users idle !! k = Some u → levelled u.
Proof.
  simpl. unfold ledgerD, ledger0. rewrite !lookup_insert.
  repeat case_decide; subst; try done; intros [= <-]; by vm_compute.
Qed.

(** D's row after the check-in of 01-02. *)
Lemma X18_checkIn_keeps_levels_witness :
  levelled (mkUserData "D" "dave" (Some "01-02"%string) 20 2 40 7).
Proof.
  apply (X18_checkIn_keeps_levels defaultConfig "01-02" sessionD "dave" idle ledgerD_levelled "D").
  vm_compute. reflexivity.
Defined.

(** Development mode and a second draw of 1/4: the check-in fails after
    the level-up has been announced. *)
Lemma X19_checkIn_failure_witness :
  users (checkIn developing "01-02" sessionD "dave" idle).1 = users idle
  ∧ MsgLevelUp "dave" 2 ∈ said (checkIn developing "01-02" sessionD "dave" idle).2.
Proof.
  destruct (X19_checkIn_failure developing "01-02" sessionD "dave" idle) as (H1 & _ & H2).
  - vm_compute. reflexivity.
  - split; [exact H1|]. apply (H2 dave); [vm_compute; reflexivity | by vm_compute].
Defined.

(** C has no row: the board ends with the "no data" line. *)
Lemma X21_rankBoard_own_witness : users idle !! sessionUserId sessionC = None.
Proof.
  apply (X21_rankBoard_own sessionC idle [alice; bob; dave] Unranked ledgerD_primaryKey).
  vm_compute. reflexivity.
Defined.

(** The draws 1/2, 1/4 and none left. *)
Lemma X22_generateRandomUserData_ranges_witness :
  let user := (generateRandomUserData idle).1 "user_1" "随机用户1" in
  1 ≤ lv user ≤ 5 ∧ levelled user ∧ 10 ≤ points user ≤ 109.
Proof.
  destruct (X22_generateRandomUserData_ranges idle "user_1" "随机用户1")
    as (_ & _ & _ & H1 & _ & H2 & H3 & _).
  - repeat constructor; by vm_compute.
  - split; [exact H1|]. split; [exact H2 | exact H3].
Defined.

(** D stakes 5 of 7 points, checks in while waiting, and the lobby
    timeout writes 7 again. *)
Lemma X24_timeout_refund_undoes_check_in_witness :
  let waiting := (handle (Cmd_match sessionD (Some 5)) idle).1 in
  let credited := (checkIn defaultConfig "01-02" sessionD "dave" waiting).1 in
  let refunded := (expire (nextTimer idle) credited).1 in
  ∃ pointsGained,
    pointsOf "D" waiting = Some 0
    ∧ pointsOf "D" credited = Some (0 + pointsGained)
    ∧ users refunded !! "D"%string = Some (mkUserData "D" "dave" (Some "01-02"%string) 7 2 40 7).
Proof.
  destruct (X24_timeout_refund_undoes_check_in idle sessionD 5 dave defaultConfig "01-02" "dave")
    as (g & _ & H1 & H2 & H3 & _);
    try (vm_compute; reflexivity); try (by vm_compute).
  { intros H. simpl in H.
    repeat (apply elem_of_cons in H as [H|H]; [discriminate|]). inversion H. }
  exists g. split_and!; [exact H1 | exact H2 | exact H3].
Defined.

Lemma ledger0_solvent (id : string) (u : UserData) : ledger0 !! id = Some u → 0 ≤ points u.
Proof.
  unfold ledger0. rewrite !lookup_insert.
  repeat case_decide; subst; try done; intros [= <-]; by vm_compute.
Qed.

(** The game of A and B, and B's balance after it. *)
Lemma X2_balances_never_negative_witness : 0 ≤ points (withPoints 198 bob).
Proof.
  apply (X2_balances_never_negative ledger0 [] wholeGame ledger0_solvent "B").
  vm_compute. reflexivity.
Defined.

(** B sends 对对碰匹配 twice while A waits. *)
Lemma X3_lobby_holds_one_at_most_witness :
  (length (matchingLobby (state (run (boot ledger0 []) doubleEnqueue))) ≤ 1)%nat.
Proof.
  apply (X3_lobby_holds_one_at_most ledger0 [] doubleEnqueue).
  repeat (constructor; [by vm_compute|]). constructor.
Defined.

(** A, paired with B, confirms. *)
Lemma X5_games_stored_under_initiator_witness :
  ∃ st' t, invoke (Cmd_start sessionA) (state (run (boot ledger0 []) (aliceWaits ++ bobPairs)))
           = (st', Some t).
Proof.
  destruct (X5_games_stored_under_initiator (run (boot ledger0 []) (aliceWaits ++ bobPairs)))
    as (_ & _ & H).
  - by exists ledger0, [], (aliceWaits ++ bobPairs).
  - apply H. vm_compute. by eexists.
Defined.

(** A waits in the lobby: the check finds A. *)
Lemma X6_membership_check_is_exact_witness :
  participant "A" (state (run (boot ledger0 []) aliceWaits)).
Proof.
  apply (X6_membership_check_is_exact (run (boot ledger0 []) aliceWaits) "A").
  - by exists ledger0, [], aliceWaits.
  - vm_compute. reflexivity.
Defined.

(** B joins while A waits. *)
Lemma X8_pairing_takes_the_first_entry_witness :
  ∃ st' g,
    handle (Cmd_match sessionB (Some 100)) (state (run (boot ledger0 []) aliceWaits))
    = (st', None)
    ∧ pendingGames st' = {["A"%string := g]}
    ∧ player1Id g = "A"%string ∧ player2Id g = "B"%string.
Proof.
  destruct (X8_pairing_takes_the_first_entry (state (run (boot ledger0 []) aliceWaits))
              sessionB 100 bob (withPoints 398 alice) "A" (mkLobbyPlayer 100 sessionA 0) [])
    as (st' & g & H1 & _ & _ & _ & H2 & H3 & H4 & _);
    try (vm_compute; reflexivity); try (by vm_compute).
  exists st', g. split_and!; [exact H1 | exact H2 | exact H3 | exact H4].
Defined.

(** The game of A and B, confirmed by A. *)
Lemma X9_confirmed_game_settles_once_witness :
  let st := state (run (boot ledger0 []) (aliceWaits ++ bobPairs)) in
  let tick (s : State) := (expire 2 s).1 in
  let settled := tick (tick (tick (tick (handle (Cmd_start sessionA) st).1))) in
  activeGames settled !! "A"%string = None ∧ timers settled !! 2%nat = None
  ∧ tick settled = settled.
Proof.
  destruct (X9_confirmed_game_settles_once
              (state (run (boot ledger0 []) (aliceWaits ++ bobPairs))) sessionA
              (mkPendingGame "A" "B" sessionA sessionB 100 100 "A")
              (withPoints 398 alice) (withPoints 198 bob))
    as (_ & _ & _ & _ & H1 & H2 & H3);
    try (vm_compute; reflexivity).
  { left. reflexivity. }
  split_and!; [exact H1 | exact H2 | exact H3].
Defined.

(** A draw of 1/2 among the six phrases. *)
Lemma X4_pick_in_phrases_witness : pick WINNER_PHRASES (1 # 2) ∈ WINNER_PHRASES.
Proof.
  destruct (X4_pick_in_phrases WINNER_PHRASES (1 # 2)) as [H _];
    [discriminate | by vm_compute | by vm_compute | exact H].
Defined.

(** A waits in the lobby under timer 0. *)
Lemma X27_waiting_player_has_a_timeout_witness :
  sessionUserId sessionA = "A"%string
  ∧ ∃ user totalCost,
      timers (state (run (boot ledger0 []) aliceWaits)) !! 0%nat
      = Some (LobbyTimeout sessionA user totalCost, LOBBY_TIMEOUT_MS).
Proof.
  apply (X27_waiting_player_has_a_timeout ledger0 [] aliceWaits "A" (mkLobbyPlayer 100 sessionA 0)).
  vm_compute. apply list_elem_of_here.
Defined.

